(** * incendios-25: small-multiple renderer and burned-area aggregator

    A shallow embedding of the Python scripts under [scripts/]:

    - [02small-multiples-scale.py], [04-small-multiples_bigfires_2016_2025.py]
      and [06-small-fires-2025.py]: geometry repair, the global scale of the
      grid, the emission of SVG paths and the colour rules;
    - [11-ccaa_burn_2025.py], [12-provincias_burn_2025.py] and
      [13-evo_ccaa_2016_2025.py]: the minimum-area filter, the overlay of
      fires and boundaries and the per-label table.

    Conventions.  Python [int]s are [Z].  Python [float]s are rationals
    ([Q]); NaN and the infinities appear only where the code can produce
    them and are then explicit constructors.  Where rounding plays no part
    in what is proved (which exception is raised, which elements are
    drawn, which rows are kept) the arithmetic is exact.  The global scale
    of the grid, where rounding decides whether a shape fits its cell, is
    also evaluated in binary64: [Float64] is the rounding to the nearest
    double and [InDoubles] the scale computed with it.  A Python call that
    can raise returns a [Py.result].  Functions of shapely, pandas and
    geopandas whose code is not part of the repository are parameters of a
    [Section] or fields of a class, constrained only by what their
    documentation promises; the sort kernel of numpy, which alone decides
    the order of rows of equal area, is written out in [Numpy]. *)

From Stdlib Require Import ZArith QArith Qminmax Qround Qabs Qpower.
From Stdlib Require Import List String Ascii Bool.
From Stdlib Require Import Lia Lqa Permutation Sorted DecimalString.
Import ListNotations.

(** ** Python values, exceptions and results *)

Module Py.

Inductive exn : Type :=
| SystemExit (msg : string)
| ValueError
| TypeError
| ZeroDivisionError
| OverflowError
| AttributeError
| GEOSException.

(** [SystemExit] derives from [BaseException] only, so that
    [except Exception] does not catch it. *)
Definition is_Exception (e : exn) : bool :=
  match e with
  | SystemExit _ => false
  | _ => true
  end.

Inductive result (A : Type) : Type :=
| Ok (a : A)
| Raise (e : exn).

Arguments Ok {A} a.
Arguments Raise {A} e.

Definition bind {A B : Type} (m : result A) (k : A -> result B) : result B :=
  match m with
  | Ok a => k a
  | Raise e => Raise e
  end.

(** [try: body  except Exception: handler] *)
Definition try_except {A : Type} (body : result A) (handler : exn -> result A)
  : result A :=
  match body with
  | Ok a => Ok a
  | Raise e => if is_Exception e then handler e else Raise e
  end.

Fixpoint mapM {A B : Type} (f : A -> result B) (l : list A) : result (list B) :=
  match l with
  | [] => Ok []
  | x :: t =>
      bind (f x) (fun y => bind (mapM f t) (fun ys => Ok (y :: ys)))
  end.

(** A scalar held in a GeoJSON property or a DataFrame cell. *)
Inductive Value : Type :=
| VNone
| VNaN
| VInt (z : Z)
| VFloat (q : Q)
| VStr (s : string).

(** [max(iterable)]: the first largest item, [ValueError] on an empty
    iterable. *)
Fixpoint max_from (m : Q) (l : list Q) : Q :=
  match l with
  | [] => m
  | x :: t => max_from (if Qlt_le_dec m x then x else m) t
  end.

Definition max (l : list Q) : result Q :=
  match l with
  | [] => Raise ValueError
  | x :: t => Ok (max_from x t)
  end.

(** [min(a, b)]: [b] only when it is strictly smaller. *)
Definition min2 (a b : Q) : Q := if Qlt_le_dec b a then b else a.

(** [a / b] on floats. *)
Definition truediv (a b : Q) : result Q :=
  if Qeq_bool b 0 then Raise ZeroDivisionError else Ok (a / b).

(** [math.ceil(n / cols)] on two ints. *)
Definition ceil_div (n cols : Z) : result Z :=
  if (cols =? 0)%Z then Raise ZeroDivisionError else Ok (- ((- n) / cols))%Z.

Fixpoint enumerate_from {A : Type} (i : Z) (l : list A) : list (Z * A) :=
  match l with
  | [] => []
  | x :: t => (i, x) :: enumerate_from (i + 1)%Z t
  end.

Definition enumerate {A : Type} (l : list A) : list (Z * A) := enumerate_from 0%Z l.

(** [sep.join(parts)] *)
Fixpoint join (sep : string) (parts : list string) : string :=
  match parts with
  | [] => EmptyString
  | [p] => p
  | p :: rest => (p ++ sep ++ join sep rest)%string
  end.

(** [f"{n}"] for an int. *)
Definition str_of_int (n : Z) : string := NilZero.string_of_int (Z.to_int n).

End Py.

Notation "x <- m ;; k" := (Py.bind m (fun x => k))
  (at level 61, m at next level, right associativity).

(** ** The renderer: scripts 02, 04 and 06 *)

Module SmallMultiples.
Import Py.

Definition Coord : Type := (Q * Q)%type.

Record Polygon : Type := {
  exterior : list Coord;
  interiors : list (list Coord)
}.

(** A shapely geometry as the renderer inspects it: its class, [is_empty]
    and [bounds = (minx, miny, maxx, maxy)]. *)
Inductive Shape : Type :=
| IsPolygon (p : Polygon)
| IsMultiPolygon (geoms : list Polygon)
| IsOther (geom_type : string).

Record Geometry : Type := {
  shape : Shape;
  is_empty : bool;
  bounds : Q * Q * Q * Q
}.

Definition width (g : Geometry) : Q :=
  let '(minx, _, maxx, _) := bounds g in maxx - minx.

Definition height (g : Geometry) : Q :=
  let '(_, miny, _, maxy) := bounds g in maxy - miny.

Definition not_empty (g : Geometry) : bool := negb (is_empty g).

Definition inner_pad : Z := 4.

Definition inner (cell : Z) : Z := (cell - inner_pad * 2)%Z.

(** Lines 92-94 of script 02 (148-150 of script 04):
    [max_w = max(g.bounds[2] - g.bounds[0] for g in geoms if not g.is_empty)],
    the same for [max_h], then
    [global_scale = min(inner / max_w, inner / max_h)].  Here the
    arithmetic is exact; [InDoubles.global_scale] is the same expression
    in binary64. *)
Definition global_scale (cell : Z) (geoms : list Geometry) : result Q :=
  max_w <- max (map width (filter not_empty geoms)) ;;
  max_h <- max (map height (filter not_empty geoms)) ;;
  a <- truediv (inject_Z (inner cell)) max_w ;;
  b <- truediv (inject_Z (inner cell)) max_h ;;
  Ok (min2 a b).

(** Lines 194-196 of script 06: the same with the guard
    [... if max_w > 0 and max_h > 0 else 1.0]. *)
Definition global_scale_06 (cell : Z) (geoms : list Geometry) : result Q :=
  max_w <- max (map width (filter not_empty geoms)) ;;
  max_h <- max (map height (filter not_empty geoms)) ;;
  if Qlt_le_dec 0 max_w then
    if Qlt_le_dec 0 max_h then
      a <- truediv (inject_Z (inner cell)) max_w ;;
      b <- truediv (inject_Z (inner cell)) max_h ;;
      Ok (min2 a b)
    else Ok 1
  else Ok 1.

Inductive Element : Type :=
| Path (d fill stroke : string) (stroke_width : Q)
| Text (text : string) (insert : Z * Z) (font_size : Z) (fill : string).

Section Draw.

(** [f"{x:.{precision}f}"], the textual formatting of a float. *)
Variable fmt : nat -> Q -> string.

(** [transform] of [path_from_polygon], in exact arithmetic. *)
Definition transform (bnds : Q * Q * Q * Q) (ox oy scale : Q) (flip_y : bool)
  (x y : Q) : Q * Q :=
  let '(minx, miny, maxx, maxy) := bnds in
  let X := (x - minx) * scale + ox in
  let Yraw := (y - miny) * scale + oy in
  (X, if flip_y then oy + (maxy - miny) * scale - (Yraw - oy) else Yraw).

Fixpoint ring_cmds_from (tr : Q -> Q -> Q * Q) (first : bool) (coords : list Coord)
  : list (string * option Q * option Q) :=
  match coords with
  | [] => []
  | (x, y) :: t =>
      let '(X, Y) := tr x y in
      ((if first then "M" else "L")%string, Some X, Some Y)
        :: ring_cmds_from tr false t
  end.

Definition ring_to_cmds (tr : Q -> Q -> Q * Q) (coords : list Coord)
  : list (string * option Q * option Q) :=
  ring_cmds_from tr true coords ++ [("Z"%string, None, None)].

Definition d_part (precision : nat) (c : string * option Q * option Q) : string :=
  match c with
  | (cmd, Some X, Some Y) =>
      if String.eqb cmd "Z" then "Z"%string
      else (cmd ++ " " ++ fmt precision X ++ " " ++ fmt precision Y)%string
  | (_, _, _) => "Z"%string
  end.

Definition path_from_polygon (poly : Polygon) (ox oy scale : Q)
  (bnds : Q * Q * Q * Q) (flip_y : bool) (precision : nat) : string :=
  let tr := transform bnds ox oy scale flip_y in
  let d_parts :=
    map (d_part precision) (ring_to_cmds tr (exterior poly))
    ++ flat_map (fun hole => map (d_part precision) (ring_to_cmds tr hole))
         (interiors poly) in
  join " " d_parts.

(** The polygons to draw; [None] is the [continue] of the last [else].  The
    [mapping(geom)] test of that branch looks for the types "Polygon" and
    "MultiPolygon", which only instances of the two classes carry. *)
Definition polys_of (g : Geometry) : option (list Polygon) :=
  match shape g with
  | IsPolygon p => Some [p]
  | IsMultiPolygon ps => Some ps
  | IsOther _ => None
  end.

(** The body of [for i, geom in enumerate(geoms)]: the elements added to
    the drawing for one geometry. *)
Definition draw_geom (cols cell margin : Z) (fill stroke : string)
  (stroke_width : Q) (label : bool) (font_size : Z) (scale : Q)
  (ig : Z * Geometry) : list Element :=
  let '(i, geom) := ig in
  if is_empty geom then []
  else
    let r := (i / cols)%Z in
    let c := (i mod cols)%Z in
    let ox_cell := (margin + c * cell + inner_pad)%Z in
    let oy_cell := (margin + r * cell + inner_pad)%Z in
    match polys_of geom with
    | None => []
    | Some polys =>
        let d_total :=
          map (fun poly =>
                 path_from_polygon poly (inject_Z ox_cell) (inject_Z oy_cell)
                   scale (bounds geom) true 2) polys in
        Path (join " " d_total) fill stroke stroke_width
        :: (if label
            then [Text (str_of_int (i + 1)) (ox_cell + 2, oy_cell + 2 + font_size)%Z
                    font_size "#555"]
            else [])
    end.

(** [draw_geoms_to_svg_scaled] of script 02.  The first component is the
    content of the drawing when the call returns or raises; the second is
    [(width, height)] or the exception. *)
Definition draw_geoms_to_svg_scaled (geoms : list Geometry)
  (cols cell margin : Z) (fill stroke : string) (stroke_width : Q)
  (label : bool) (font_size : Z) : list Element * result (Z * Z) :=
  let n := Z.of_nat (List.length geoms) in
  if (n =? 0)%Z then ([], Raise (SystemExit "No hay geometrías para dibujar."))
  else
    match ceil_div n cols with
    | Raise e => ([], Raise e)
    | Ok rows =>
        let width := (margin * 2 + cols * cell)%Z in
        let height := (margin * 2 + rows * cell)%Z in
        match global_scale cell geoms with
        | Raise e => ([], Raise e)
        | Ok scale =>
            (flat_map
               (draw_geom cols cell margin fill stroke stroke_width label
                  font_size scale)
               (enumerate geoms),
             Ok (width, height))
        end
    end.

End Draw.

End SmallMultiples.

(** ** pandas floats and [sort_values] *)

Module Pandas.

(** A float64 cell: the result of a pandas division can be infinite or
    NaN, which raise nothing. *)
Inductive float : Type :=
| Fin (q : Q)
| PosInf
| NegInf
| NaN.

Definition isna (x : float) : bool :=
  match x with
  | NaN => true
  | _ => false
  end.

Definition notna (x : float) : bool := negb (isna x).

(** The order of floats that are not NaN. *)
Definition float_le (x y : float) : Prop :=
  match x, y with
  | NaN, _ | _, NaN => False
  | NegInf, _ => True
  | _, PosInf => True
  | Fin a, Fin b => a <= b
  | _, _ => False
  end.

Definition float_leb (x y : float) : bool :=
  match x, y with
  | NaN, _ | _, NaN => false
  | NegInf, _ => true
  | _, PosInf => true
  | Fin a, Fin b => Qle_bool a b
  | _, _ => false
  end.

Definition float_ltb (x y : float) : bool :=
  match x, y with
  | NaN, _ | _, NaN => false
  | Fin a, Fin b => negb (Qle_bool b a)
  | NegInf, NegInf => false
  | NegInf, _ => true
  | Fin _, PosInf => true
  | _, _ => false
  end.

Definition float_eqb (x y : float) : bool :=
  match x, y with
  | Fin a, Fin b => Qeq_bool a b
  | PosInf, PosInf => true
  | NegInf, NegInf => true
  | _, _ => false
  end.

(** [a / b] on two float64 columns. *)
Definition div (a b : Q) : float :=
  if Qeq_bool b 0 then
    if Qeq_bool a 0 then NaN
    else if Qlt_le_dec 0 a then PosInf else NegInf
  else Fin (a / b).

Definition mul (x : float) (k : Q) : float :=
  match x with
  | Fin q => Fin (q * k)
  | PosInf => if Qlt_le_dec 0 k then PosInf else if Qeq_bool k 0 then NaN else NegInf
  | NegInf => if Qlt_le_dec 0 k then NegInf else if Qeq_bool k 0 then NaN else PosInf
  | NaN => NaN
  end.

Section SortValues.

Variable A : Type.
Variable key : A -> float.

(** [df.sort_values(col, ascending=False).reset_index(drop=True)].  The
    scripts do not pass [kind], so pandas sorts with its default
    "quicksort", which its documentation does not make stable.  What the
    call promises is the relation below: the rows whose key is not NaN, in
    some order of non-increasing key, followed by the NaN rows in their
    original order ([na_position="last"]). *)
Definition sort_values_desc (l l' : list A) : Prop :=
  exists s,
    Permutation (filter (fun a => notna (key a)) l) s /\
    StronglySorted (fun a b => float_le (key b) (key a)) s /\
    l' = s ++ filter (fun a => isna (key a)) l.

(** One admitted result, computed: each row, from the last to the first,
    is inserted before the first row whose key is not larger (what
    [kind="stable"] would return). *)
Fixpoint insert_desc (x : A) (l : list A) : list A :=
  match l with
  | [] => [x]
  | y :: t => if float_leb (key y) (key x) then x :: y :: t else y :: insert_desc x t
  end.

Definition stable_sort_desc (l : list A) : list A :=
  fold_right insert_desc [] (filter (fun a => notna (key a)) l)
  ++ filter (fun a => isna (key a)) l.

(** The rows of [l] whose key equals [k], in their order in [l]. *)
Definition ties (k : float) (l : list A) : list A :=
  filter (fun a => float_eqb (key a) k) l.

(** A result keeps the original relative order of rows with equal keys. *)
Definition keeps_ties (l l' : list A) : Prop :=
  forall k, ties k l' = ties k l.

End SortValues.

Arguments sort_values_desc {A} key l l'.
Arguments stable_sort_desc {A} key l.
Arguments insert_desc {A} key x l.
Arguments ties {A} key k l.
Arguments keeps_ties {A} key l l'.

Section SortValuesCall.

(** [arr.argsort(kind="quicksort")] of numpy on a float64 array without
    NaN: the positions of the array in the order of the sort, when the
    kernel returns. *)
Variable argsort : list float -> option (list nat).

Variable A : Type.
Variable key : A -> float.

(** [rows.take(indexer)] *)
Definition take (l : list A) (indexer : list nat) : list A :=
  flat_map (fun i => match nth_error l i with
                     | Some a => [a]
                     | None => []
                     end) indexer.

(** [df.sort_values(col, ascending=False).reset_index(drop=True)] as
    pandas computes it, in [nargsort] of [pandas.core.sorting]: the rows
    whose key is not NaN are taken in reverse ([non_nans[::-1]]), sorted by
    [argsort] with the default [kind="quicksort"], reversed again
    ([indexer[::-1]]), and followed by the NaN rows in their order
    ([na_position="last"]). *)
Definition sort_values (l : list A) : option (list A) :=
  let non_nans := rev (filter (fun a => notna (key a)) l) in
  match argsort (map key non_nans) with
  | None => None
  | Some order =>
      Some (rev (take non_nans order) ++ filter (fun a => isna (key a)) l)
  end.


End SortValuesCall.

Arguments take {A} l indexer.
Arguments sort_values argsort {A} key l.

End Pandas.

(** ** The sort kernel of numpy

    [argsort] with [kind="quicksort"] as the portable kernel of numpy
    computes it on a float64 array ([aquicksort_] and [aheapsort_] of
    [npysort]): an introsort on an array of indices.  Ranges of more than
    17 places are partitioned around the median of three, shorter ones are
    sorted by insertion, and a range that exhausts its depth is sorted as a
    heap.  The kernel is not part of the repository; it is written out
    because the order of rows of equal area is its doing alone. *)

Module Numpy.
Import Pandas.

#[local] Open Scope nat_scope.

Section Kernel.

(** The keys, [v]; the array of indices being sorted is [tosort]. *)
Variable v : list float.

Definition key (k : nat) : float := nth k v NaN.

(** The order of the float kernels: NaN after everything else. *)
Definition less (a b : float) : bool := float_ltb a b || (isna b && notna a).

Definition get (tosort : list nat) (p : nat) : nat := nth p tosort 0%nat.

Fixpoint set (tosort : list nat) (p x : nat) : list nat :=
  match tosort, p with
  | [], _ => []
  | _ :: r, O => x :: r
  | y :: r, S p' => y :: set r p' x
  end.

(** [INTP_SWAP] of the indices at two places. *)
Definition swap (tosort : list nat) (p q : nat) : list nat :=
  let a := get tosort p in
  let b := get tosort q in
  set (set tosort p b) q a.

(** [v[*p]] *)
Definition at_ (tosort : list nat) (p : nat) : float := key (get tosort p).

(** The insertion sort of a short range [pl..pr]. *)
Fixpoint shift (n : nat) (tosort : list nat) (pl pj : nat) (vp : float)
  : list nat * nat :=
  match n with
  | O => (tosort, pj)
  | S n' =>
      if (pl <? pj)%nat && less vp (at_ tosort (pj - 1))
      then shift n' (set tosort pj (get tosort (pj - 1))) pl (pj - 1) vp
      else (tosort, pj)
  end.

Definition insert_at (tosort : list nat) (pl pi : nat) : list nat :=
  let vi := get tosort pi in
  let '(tosort, pj) := shift pi tosort pl pi (key vi) in
  set tosort pj vi.

Fixpoint insertion_from (n : nat) (tosort : list nat) (pl pi : nat) : list nat :=
  match n with
  | O => tosort
  | S n' => insertion_from n' (insert_at tosort pl pi) pl (S pi)
  end.

Definition insertion_sort (tosort : list nat) (pl pr : nat) : list nat :=
  insertion_from (pr - pl) tosort pl (S pl).

(** The two scans of the partition: [do ++pi while less(v[*pi], vp)] and
    [do --pj while less(vp, v[*pj])].  A scan that has not stopped after
    [fuel] steps gives [None]. *)
Fixpoint scan_up (fuel : nat) (tosort : list nat) (vp : float) (pi : nat)
  : option nat :=
  match fuel with
  | O => None
  | S f =>
      if less (at_ tosort (S pi)) vp then scan_up f tosort vp (S pi)
      else Some (S pi)
  end.

Fixpoint scan_down (fuel : nat) (tosort : list nat) (vp : float) (pj : nat)
  : option nat :=
  match fuel with
  | O => None
  | S f =>
      if less vp (at_ tosort (pj - 1)) then scan_down f tosort vp (pj - 1)
      else Some (pj - 1)
  end.

Fixpoint exchange (fuel : nat) (tosort : list nat) (vp : float) (pi pj : nat)
  : option (list nat * nat) :=
  match fuel with
  | O => None
  | S f =>
      match scan_up (List.length tosort) tosort vp pi with
      | None => None
      | Some pi =>
          match scan_down (List.length tosort) tosort vp pj with
          | None => None
          | Some pj =>
              if (pj <=? pi)%nat then Some (tosort, pi)
              else exchange f (swap tosort pi pj) vp pi pj
          end
      end
  end.

(** One partition of [pl..pr] around the median of three; the answer is
    the array and the place of the pivot. *)
Definition partition (tosort : list nat) (pl pr : nat) : option (list nat * nat) :=
  let pm := (pl + (pr - pl) / 2)%nat in
  let tosort :=
    if less (at_ tosort pm) (at_ tosort pl) then swap tosort pm pl else tosort in
  let tosort :=
    if less (at_ tosort pr) (at_ tosort pm) then swap tosort pr pm else tosort in
  let tosort :=
    if less (at_ tosort pm) (at_ tosort pl) then swap tosort pm pl else tosort in
  let vp := at_ tosort pm in
  let pj := (pr - 1)%nat in
  let tosort := swap tosort pm pj in
  match exchange (List.length tosort) tosort vp pl pj with
  | None => None
  | Some (tosort, pi) => Some (swap tosort pi (pr - 1), pi)
  end.

(** [aheapsort_] on the [n] indices from [pl]; [a[k]] is the index at
    [pl + k - 1]. *)
Definition heap_get (tosort : list nat) (pl k : nat) : nat :=
  get tosort (pl + k - 1).

Definition heap_set (tosort : list nat) (pl k x : nat) : list nat :=
  set tosort (pl + k - 1) x.

Fixpoint sift (fuel : nat) (tosort : list nat) (pl n tmp i j : nat)
  : option (list nat * nat) :=
  match fuel with
  | O => None
  | S f =>
      if (j <=? n)%nat then
        let j :=
          if (j <? n)%nat
             && less (key (heap_get tosort pl j)) (key (heap_get tosort pl (j + 1)))
          then (j + 1)%nat else j in
        if less (key tmp) (key (heap_get tosort pl j))
        then sift f (heap_set tosort pl i (heap_get tosort pl j)) pl n tmp j (j + j)
        else Some (tosort, i)
      else Some (tosort, i)
  end.

Fixpoint heapify (l : nat) (tosort : list nat) (pl n : nat) : option (list nat) :=
  match l with
  | O => Some tosort
  | S l' =>
      let tmp := heap_get tosort pl l in
      match sift (S n) tosort pl n tmp l (l + l) with
      | None => None
      | Some (tosort, i) => heapify l' (heap_set tosort pl i tmp) pl n
      end
  end.

Fixpoint extract (n : nat) (tosort : list nat) (pl : nat) : option (list nat) :=
  match n with
  | O => Some tosort
  | S n' =>
      match n' with
      | O => Some tosort
      | S _ =>
          let tmp := heap_get tosort pl n in
          let tosort := heap_set tosort pl n (heap_get tosort pl 1) in
          match sift (S n) tosort pl n' tmp 1 2 with
          | None => None
          | Some (tosort, i) => extract n' (heap_set tosort pl i tmp) pl
          end
      end
  end.

Definition aheapsort (tosort : list nat) (pl n : nat) : option (list nat) :=
  match heapify (n / 2) tosort pl n with
  | None => None
  | Some tosort => extract n tosort pl
  end.

Definition SMALL_QUICKSORT : nat := 16.

(** The loop of [aquicksort_].  [check] tells that the range comes from
    the stack, where the depth is tested; the partitions of the inner loop
    follow one another without that test.  The stack holds the ranges left
    for later with the depth granted to them. *)
Fixpoint run (fuel : nat) (tosort : list nat) (pl pr : nat) (cdepth : Z)
  (check : bool) (stack : list (nat * nat * Z)) : option (list nat) :=
  match fuel with
  | O => None
  | S f =>
      let stack_pop (tosort : list nat) :=
        match stack with
        | [] => Some tosort
        | (pl', pr', cdepth') :: rest => run f tosort pl' pr' cdepth' true rest
        end in
      if check && (cdepth <? 0)%Z then
        match aheapsort tosort pl (pr - pl + 1) with
        | None => None
        | Some tosort => stack_pop tosort
        end
      else if (SMALL_QUICKSORT <? pr - pl)%nat then
        match partition tosort pl pr with
        | None => None
        | Some (tosort, pi) =>
            let cdepth := (cdepth - 1)%Z in
            if (pi - pl <? pr - pi)%nat
            then run f tosort pl (pi - 1) cdepth false ((S pi, pr, cdepth) :: stack)
            else run f tosort (S pi) pr cdepth false ((pl, pi - 1, cdepth)%nat :: stack)
        end
      else stack_pop (insertion_sort tosort pl pr)
  end.

(** [npy_get_msb(num) * 2] *)
Definition depth_limit (num : nat) : Z := (Z.log2 (Z.of_nat num) * 2)%Z.

End Kernel.

(** [v.argsort(kind="quicksort")] on a float64 array. *)
Definition argsort (v : list float) : option (list nat) :=
  let num := List.length v in
  run v (2 * num + 2) (seq 0 num) 0 (num - 1) (depth_limit num) true [].

End Numpy.


(** ** Binary64 arithmetic *)

Module Float64.
Import Py Pandas.

(** [2 ** e] *)
Definition pow2 (e : Z) : Q := 2 ^ e.

(** The integer part of the binary logarithm of a positive rational. *)
Definition ilog2 (q : Q) : Z :=
  let l := (Z.log2 (Qnum q) - Z.log2 (Zpos (Qden q)))%Z in
  if Qle_bool (pow2 l) q then l else (l - 1)%Z.

(** The nearest integer, the even one of two that are as near. *)
Definition rint (x : Q) : Z :=
  let f := Qfloor x in
  match Qcompare (x - inject_Z f) (1 # 2) with
  | Lt => f
  | Gt => (f + 1)%Z
  | Eq => if Z.even f then f else (f + 1)%Z
  end.

(** The exponent of the last place of the doubles next to [x]: 52 places
    below its leading bit, and not below that of the subnormal numbers. *)
Definition expo (x : Q) : Z := Z.max (ilog2 (Qabs x) - 52) (-1074).

(** The nearest multiple of [2 ** e]. *)
Definition round_at (e : Z) (x : Q) : Q := inject_Z (rint (x / pow2 e)) * pow2 e.

(** The double nearest to a real number: round to nearest, ties to even;
    what reaches [2 ** 1024] overflows to an infinity. *)
Definition round (x : Q) : float :=
  if Qeq_bool x 0 then Fin 0
  else
    let r := round_at (expo x) x in
    if Qle_bool (pow2 1024) r then PosInf
    else if Qle_bool r (- pow2 1024) then NegInf
    else Fin (Qred r).

(** [float(z)], the conversion that [int / float] applies to its left
    operand: an int beyond the doubles raises. *)
Definition of_int (z : Z) : result Q :=
  match round (inject_Z z) with
  | Fin q => Ok q
  | _ => Raise OverflowError
  end.

(** [a / b] on a finite double [a] and a double [b]. *)
Definition truediv (a : Q) (b : float) : result float :=
  match b with
  | Fin d => if Qeq_bool d 0 then Raise ZeroDivisionError else Ok (round (a / d))
  | PosInf | NegInf => Ok (Fin 0)
  | NaN => Ok NaN
  end.

(** [z / b] for an int [z]. *)
Definition int_truediv (z : Z) (b : float) : result float :=
  a <- of_int z ;; truediv a b.

(** [max(iterable)] on floats: an item replaces the largest so far only
    when it compares greater. *)
Fixpoint max_from (m : float) (l : list float) : float :=
  match l with
  | [] => m
  | x :: t => max_from (if float_ltb m x then x else m) t
  end.

Definition max (l : list float) : result float :=
  match l with
  | [] => Raise ValueError
  | x :: t => Ok (max_from x t)
  end.

(** [min(a, b)] *)
Definition min2 (a b : float) : float := if float_ltb b a then b else a.

End Float64.

(** ** The global scale in binary64

    Lines 92-94 of script 02 as the interpreter evaluates them: the
    coordinates of the bounds are doubles, each subtraction and each
    division rounds to the nearest double.  This is the reading that
    decides whether a scaled shape fits its cell to the last place; the
    exact reading in [SmallMultiples] serves where rounding plays no part
    (which exception is raised, which elements are drawn). *)

Module InDoubles.
Import Py Pandas SmallMultiples.

(** [g.bounds[2] - g.bounds[0]] and [g.bounds[3] - g.bounds[1]] *)
Definition width (g : Geometry) : float :=
  let '(minx, _, maxx, _) := bounds g in Float64.round (maxx - minx).

Definition height (g : Geometry) : float :=
  let '(_, miny, _, maxy) := bounds g in Float64.round (maxy - miny).

Definition widths (geoms : list Geometry) : list float :=
  map width (filter not_empty geoms).

Definition heights (geoms : list Geometry) : list float :=
  map height (filter not_empty geoms).

Definition global_scale (cell : Z) (geoms : list Geometry) : result float :=
  max_w <- Float64.max (widths geoms) ;;
  max_h <- Float64.max (heights geoms) ;;
  a <- Float64.int_truediv (inner cell) max_w ;;
  b <- Float64.int_truediv (inner cell) max_h ;;
  Ok (Float64.min2 a b).

End InDoubles.

(** ** The colour rules of scripts 04 and 06 *)

Module ColorRules.
Import Py.

(** A row of the frame, [gdf.iloc[i]]. *)
Definition Row : Type := list (string * Value).

(** [row.get(key)]: [None] when the row has no such field. *)
Fixpoint get (row : Row) (key : string) : Value :=
  match row with
  | [] => VNone
  | (k, v) :: t => if String.eqb k key then v else get t key
  end.

(** A [datetime.datetime]: the microseconds from 1970-01-01T00:00:00 to its
    fields, read in UTC, and whether it carries a [tzinfo]. *)
Record datetime : Type := {
  micros : Z;
  aware : bool
}.

(** Days from 1970-01-01 to a date of the proleptic Gregorian calendar. *)
Definition days_from_civil (y m d : Z) : Z :=
  let y' := (if m <=? 2 then y - 1 else y)%Z in
  let era := (y' / 400)%Z in
  let yoe := (y' - era * 400)%Z in
  let mp := (if m <=? 2 then m + 9 else m - 3)%Z in
  let doy := ((153 * mp + 2) / 5 + d - 1)%Z in
  let doe := (yoe * 365 + yoe / 4 - yoe / 100 + doy)%Z in
  (era * 146097 + doe - 719468)%Z.

(** [datetime(y, m, d, hh, mm, ss, tzinfo=timezone.utc)] *)
Definition datetime_utc (y m d hh mm ss : Z) : datetime :=
  {| micros := (((days_from_civil y m d * 24 + hh) * 60 + mm) * 60 + ss) * 1000000;
     aware := true |}%Z.

(** [fd.replace(tzinfo=timezone.utc)] *)
Definition replace_tzinfo_utc (fd : datetime) : datetime :=
  {| micros := micros fd; aware := true |}.

(** [a >= b]: naive and aware datetimes do not compare. *)
Definition datetime_ge (a b : datetime) : result bool :=
  if Bool.eqb (aware a) (aware b) then Ok (micros b <=? micros a)%Z
  else Raise TypeError.

(** A pandas [Timestamp], or [NaT]. *)
Inductive Timestamp : Type :=
| NaT
| TS (dt : datetime).

Definition COLOR_2025 : string := "#fac4c5".
Definition COLOR_RECENT : string := "#a80127".
Definition COLOR_DEFAULT : string := "#d8d0d0".
Definition COLOR_ROSA : string := "#fac4c5".
Definition COLOR_GRANATE : string := "#a80127".

Section Rules.

(** [pd.to_datetime(val, utc=True)] *)
Variable to_datetime : Value -> result Timestamp.

(** [int(s)] on a [str]. *)
Variable int_of_str : string -> result Z.

(** [int(val)] *)
Definition int (val : Value) : result Z :=
  match val with
  | VNone => Raise TypeError
  | VNaN => Raise ValueError
  | VInt z => Ok z
  | VFloat q => Ok (Z.quot (Qnum q) (Zpos (Qden q)))
  | VStr s => int_of_str s
  end.

Definition is_None_or_empty (val : Value) : bool :=
  match val with
  | VNone => true
  | VStr s => String.eqb s ""
  | _ => false
  end.

Definition parse_firedate (val : Value) : result (option datetime) :=
  if is_None_or_empty val then Ok None
  else
    try_except
      (ts <- to_datetime val ;;
       match ts with
       | NaT => Ok None
       | TS dt => Ok (Some dt)
       end)
      (fun _ => Ok None).

(** [pick_color] of script 04. *)
Definition pick_color (row : Row) (cutoff_dt_utc : datetime) : result string :=
  fd <- parse_firedate (get row "firedate") ;;
  recent <-
    match fd with
    | Some fd =>
        let fd := if aware fd then fd else replace_tzinfo_utc fd in
        datetime_ge fd cutoff_dt_utc
    | None => Ok false
    end ;;
  if recent : bool then Ok COLOR_RECENT
  else
    year <- int (get row "fireyear") ;;
    if (year =? 2025)%Z then Ok COLOR_2025 else Ok COLOR_DEFAULT.

(** [pick_color_2025] of script 06. *)
Definition pick_color_2025 (row : Row) (cutoff_dt_utc : datetime) : result string :=
  fd <- parse_firedate (get row "firedate") ;;
  recent <-
    match fd with
    | Some fd =>
        let fd := if aware fd then fd else replace_tzinfo_utc fd in
        datetime_ge fd cutoff_dt_utc
    | None => Ok false
    end ;;
  if recent : bool then Ok COLOR_GRANATE else Ok COLOR_ROSA.

End Rules.

(** The cutoff built in [draw_geoms_to_svg_scaled] and in [main]:
    [datetime(2025, 8, 8, 0, 0, 0, tzinfo=timezone.utc)]. *)
Definition cutoff_dt_utc : datetime := datetime_utc 2025 8 8 0 0 0.

End ColorRules.

(** ** Geometry repair *)

Module Repair.
Import Py.

Section Primitives.

Variable G : Type.

(** [shapely.validation.make_valid] and [geom.buffer(distance)]. *)
Variable _make_valid : G -> result G.
Variable buffer : G -> Q -> result G.

(** [make_valid] of scripts 02, 04 and 06. *)
Definition make_valid (geom : G) : result G :=
  try_except (_make_valid geom)
    (fun _ => try_except (buffer geom 0) (fun _ => Ok geom)).

(** [safe_make_valid] of scripts 11, 12 and 13, on the geometry column:
    [gdf["geometry"] = gdf["geometry"].buffer(0)]. *)
Definition safe_make_valid (geometry : list G) : result (list G) :=
  mapM (fun g => buffer g 0) geometry.

(** The policy in the words of the specification: the canonical repair
    first; on failure the zero-distance buffer; if both fail, the original
    geometry, and no exception. *)
Definition repair_policy (validity_repair zero_offset : G -> result G) (geom : G)
  : result G :=
  match validity_repair geom with
  | Ok g => Ok g
  | Raise _ =>
      match zero_offset geom with
      | Ok g => Ok g
      | Raise _ => Ok geom
      end
  end.

(** A primitive signals its failures with subclasses of [Exception]. *)
Definition raises_only_Exception {X : Type} (f : X -> result G) : Prop :=
  forall x e, f x = Raise e -> is_Exception e = true.

End Primitives.

End Repair.

(** ** The aggregator: scripts 11, 12 and 13 *)

Module Burn.
Import Py.

(** The geometry primitives of shapely and geopandas that the aggregator
    consumes, with the laws of area they are used under: area is a measure
    on the polygonal regions. *)
Class GeomKernel (G : Type) : Type := {
  (** [geometry.area], in square metres once in EPSG:3035 *)
  area : G -> Q;
  (** [to_crs(epsg=3035)] *)
  to_crs : G -> G;
  (** the polygonal part of the common region of two geometries, as
      [gpd.overlay(how="intersection", keep_geom_type=True)] keeps it *)
  intersection : G -> G -> G;
  union : G -> G -> G;
  empty : G;
  is_empty : G -> bool;
  area_nonneg : forall g, 0 <= area g;
  area_empty : area empty == 0;
  area_is_empty : forall g, is_empty g = true -> area g == 0;
  area_intersection_le : forall a b, area (intersection a b) <= area a;
  area_intersection_comm :
    forall a b, area (intersection a b) == area (intersection b a);
  area_incl_excl :
    forall a b e,
      area (intersection (union a b) e) + area (intersection (intersection a b) e)
      == area (intersection a e) + area (intersection b e)
}.

Record Feature (G : Type) : Type := {
  properties : list (string * Value);
  geometry : G
}.

Arguments properties {G} f.
Arguments geometry {G} f.

Record GeoDataFrame (G : Type) : Type := {
  columns : list string;
  rows : list (Feature G)
}.

Arguments columns {G} g.
Arguments rows {G} g.

(** [cand in fires.columns] *)
Definition has_column {G : Type} (gdf : GeoDataFrame G) (col : string) : bool :=
  existsb (String.eqb col) (columns gdf).

(** The cell of a row in a column; a feature without the property holds
    NaN there. *)
Fixpoint lookup (props : list (string * Value)) (col : string) : Value :=
  match props with
  | [] => VNaN
  | (k, v) :: t => if String.eqb k col then v else lookup t col
  end.

Definition cell {G : Type} (r : Feature G) (col : string) : Value :=
  lookup (properties r) col.

Fixpoint assign (props : list (string * Value)) (col : string) (v : Value)
  : list (string * Value) :=
  match props with
  | [] => [(col, v)]
  | (k, w) :: t => if String.eqb k col then (k, v) :: t else (k, w) :: assign t col v
  end.

(** [series >= min_ha] on one cell.  A missing cell compares false: NaN in
    a float column and, in a column of objects, [None] as well, which
    pandas tests for before it compares.  A text cell reaches the
    comparison of a [str] with a [float] and raises. *)
Definition ge_min (v : Value) (min_ha : Q) : result bool :=
  match v with
  | VInt z => Ok (Qle_bool min_ha (inject_Z z))
  | VFloat q => Ok (Qle_bool min_ha q)
  | VNaN => Ok false
  | VNone => Ok false
  | VStr _ => Raise TypeError
  end.

(** [fires[mask]] *)
Fixpoint select {A : Type} (l : list A) (mask : list bool) : list A :=
  match l, mask with
  | x :: t, b :: m => if b then x :: select t m else select t m
  | _, _ => []
  end.

Definition area_candidates : list string :=
  ["area_ha"; "AREA_HA"; "areaHA"; "area"; "ha"]%string.

Definition sum (l : list Q) : Q := fold_right Qplus 0 l.

(** Groups come out of [groupby] and [dissolve] sorted by label. *)
Fixpoint insert_label (s : string) (l : list string) : list string :=
  match l with
  | [] => [s]
  | x :: t => if String.leb s x then s :: x :: t else x :: insert_label s t
  end.

Definition sort_labels (l : list string) : list string :=
  fold_right insert_label [] l.

Definition unique_labels (l : list string) : list string :=
  sort_labels (nodup string_dec l).

Record OutRow : Type := {
  NAMEUNIT : string;
  area_total_ha : Q;
  burn_ha : Q;
  pct : Pandas.float
}.

Section Aggregator.

Context {G : Type} {K : GeomKernel G}.

(** [add_area_ha]: the column [out_col] receives the area in hectares
    measured after reprojection. *)
Definition add_area_ha (gdf_ll : GeoDataFrame G) (out_col : string)
  : GeoDataFrame G :=
  {| columns :=
       if has_column gdf_ll out_col then columns gdf_ll
       else columns gdf_ll ++ [out_col];
     rows :=
       map (fun r =>
              {| properties :=
                   assign (properties r) out_col
                     (VFloat (area (to_crs (geometry r)) / 10000));
                 geometry := geometry r |})
         (rows gdf_ll) |}.

(** The body that [filter_fires_min_ha] has in the three scripts: the first
    candidate column that exists is compared; without any, the area is
    measured into the column [calc_col] and that column is compared.  The
    scripts differ in the literal [calc_col] only. *)
Definition filter_by_area (calc_col : string) (fires : GeoDataFrame G) (min_ha : Q)
  : result (GeoDataFrame G) :=
  let area_field := find (has_column fires) area_candidates in
  let '(fires, area_field) :=
    match area_field with
    | Some cand => (fires, cand)
    | None => (add_area_ha fires calc_col, calc_col)
    end in
  mask <- mapM (fun r => ge_min (cell r area_field) min_ha) (rows fires) ;;
  Ok {| columns := columns fires; rows := select (rows fires) mask |}.

(** [filter_fires_min_ha] of scripts 11 and 12: the measured area goes to
    "area_ha_geom". *)
Definition filter_fires_min_ha : GeoDataFrame G -> Q -> result (GeoDataFrame G) :=
  filter_by_area "area_ha_geom".

(** [filter_fires_min_ha] of script 13: the measured area goes to
    "area_ha_calc". *)
Definition filter_fires_min_ha_13 : GeoDataFrame G -> Q -> result (GeoDataFrame G) :=
  filter_by_area "area_ha_calc".

Definition unary_union (geoms : list G) : G := fold_right union empty geoms.

(** [ccaa.dissolve(by="NAMEUNIT", as_index=False)]: one row per label that
    is not null, its geometry the union of the group. *)
Definition dissolve (ccaa : list (option string * G)) : list (string * G) :=
  let named :=
    flat_map (fun r => match fst r with
                       | Some name => [(name, snd r)]
                       | None => []
                       end) ccaa in
  map (fun name =>
         (name,
          unary_union
            (map snd (filter (fun r => String.eqb (fst r) name) named))))
    (unique_labels (map fst named)).

(** [gpd.overlay(ccaa_m, fires_m, how="intersection", keep_geom_type=True)]:
    one row per boundary and fire whose common polygonal part is not
    empty, labelled by the boundary. *)
Definition overlay (ccaa_m : list (string * G)) (fires_m : list G)
  : list (string * G) :=
  flat_map (fun b =>
    flat_map (fun e =>
      let piece := intersection (snd b) e in
      if is_empty piece then [] else [(fst b, piece)]) fires_m) ccaa_m.

(** [inter.groupby("NAMEUNIT", as_index=False)["burn_ha"].sum()] *)
Definition groupby_sum (inter : list (string * Q)) : list (string * Q) :=
  map (fun name =>
         (name, sum (map snd (filter (fun r => String.eqb (fst r) name) inter))))
    (unique_labels (map fst inter)).

(** [pd.merge(surface_df, burn, on="NAMEUNIT", how="left")]: every row of
    the left frame, once per matching row of the right one, or once with a
    missing value. *)
Definition merge_left (surface_df burn : list (string * Q))
  : list (string * Q * option Q) :=
  flat_map (fun s =>
    match filter (fun b => String.eqb (fst b) (fst s)) burn with
    | [] => [(fst s, snd s, None)]
    | matches => map (fun b => (fst s, snd s, Some (snd b))) matches
    end) surface_df.

(** [.fillna({"burn_ha": 0.0})] *)
Definition fillna (burn : option Q) : Q :=
  match burn with
  | Some b => b
  | None => 0
  end.

(** Steps 3 to 5 of [main] in scripts 11 and 12, up to
    [out["pct"] = (out["burn_ha"] / out["area_total_ha"]) * 100.0]. *)
Definition out (ccaa_diss : list (string * G)) (fires_big : list G)
  : list OutRow :=
  let surface_df :=
    map (fun r => (fst r, area (to_crs (snd r)) / 10000)) ccaa_diss in
  let ccaa_m := map (fun r => (fst r, to_crs (snd r))) ccaa_diss in
  let fires_m := map to_crs fires_big in
  let inter := overlay ccaa_m fires_m in
  let burn_by_ccaa :=
    groupby_sum (map (fun r => (fst r, area (snd r) / 10000)) inter) in
  map (fun m =>
         let '(name, total, burn) := m in
         {| NAMEUNIT := name;
            area_total_ha := total;
            burn_ha := fillna burn;
            pct := Pandas.mul (Pandas.div (fillna burn) total) 100 |})
    (merge_left surface_df burn_by_ccaa).

(** The table that [main] formats:
    [out.sort_values("pct", ascending=False).reset_index(drop=True)]. *)
Definition main_table (ccaa_diss : list (string * G)) (fires_big : list G)
  (table : list OutRow) : Prop :=
  Pandas.sort_values_desc pct (out ccaa_diss fires_big) table.

End Aggregator.

End Burn.

(** * Properties *)

(** ** Python helpers *)

Section PyFacts.
Import Py.

Lemma max_from_spec (l : list Q) :
  forall m,
    m <= max_from m l /\
    (forall x, In x l -> x <= max_from m l) /\
    (max_from m l = m \/ In (max_from m l) l).
Proof.
  induction l as [|y t IH]; intros m; simpl.
  - split; [apply Qle_refl|]. split; [intros x []|now left].
  - destruct (Qlt_le_dec m y) as [Hlt|Hle].
    + destruct (IH y) as (H1 & H2 & H3).
      split; [apply Qlt_le_weak in Hlt; eapply Qle_trans; eauto|].
      split.
      * intros x [<-|Hx]; auto.
      * destruct H3 as [->|H3]; auto.
    + destruct (IH m) as (H1 & H2 & H3).
      split; [assumption|]. split.
      * intros x [<-|Hx]; [eapply Qle_trans; eauto|auto].
      * destruct H3 as [H3|H3]; auto.
Qed.

(** The value of [max]: a member of the list that bounds the others. *)
Definition is_maximum (m : Q) (l : list Q) : Prop :=
  In m l /\ forall x, In x l -> x <= m.

Lemma max_is_maximum (l : list Q) :
  l <> [] -> exists m, max l = Ok m /\ is_maximum m l.
Proof.
  destruct l as [|x t]; [congruence|intros _].
  exists (max_from x t). split; [reflexivity|].
  destruct (max_from_spec t x) as (H1 & H2 & H3). split.
  - destruct H3 as [->|H3]; [now left|now right].
  - intros y [<-|Hy]; auto.
Qed.

Lemma max_nil_iff (l : list Q) : max l = Raise ValueError <-> l = [].
Proof.
  destruct l; simpl; split; intros H; try reflexivity; discriminate.
Qed.

Lemma min2_Qmin (a b : Q) : min2 a b == Qmin a b.
Proof.
  unfold min2. destruct (Qlt_le_dec b a) as [H|H].
  - symmetry. apply Q.min_r. now apply Qlt_le_weak.
  - symmetry. now apply Q.min_l.
Qed.

Lemma truediv_Ok (a b : Q) : ~ b == 0 -> truediv a b = Ok (a / b).
Proof.
  intros Hb. unfold truediv.
  destruct (Qeq_bool b 0) eqn:E; [|reflexivity].
  apply Qeq_bool_iff in E. contradiction.
Qed.

Lemma truediv_zero (a b : Q) : b == 0 -> truediv a b = Raise ZeroDivisionError.
Proof.
  intros Hb. unfold truediv.
  apply Qeq_bool_iff in Hb. now rewrite Hb.
Qed.

Lemma enumerate_from_length {A : Type} (l : list A) :
  forall i, List.length (enumerate_from i l) = List.length l.
Proof. induction l; intros i; simpl; auto. Qed.

Lemma enumerate_from_snd {A : Type} (l : list A) :
  forall i, map snd (enumerate_from i l) = l.
Proof. induction l; intros i; simpl; [reflexivity|now rewrite IHl]. Qed.

End PyFacts.

(** ** The order of floats *)

Section FloatOrder.
Import Pandas.

Lemma float_leb_le (x y : float) : float_leb x y = true <-> float_le x y.
Proof.
  destruct x, y; simpl; try (split; [discriminate|intros []]);
    try (split; [intros _; exact I|reflexivity]).
  apply Qle_bool_iff.
Qed.



Lemma float_le_trans (x y z : float) : float_le x y -> float_le y z -> float_le x z.
Proof.
  destruct x, y, z; simpl; try tauto. apply Qle_trans.
Qed.

Lemma float_le_notna (x y : float) : float_le x y -> notna x = true /\ notna y = true.
Proof. destruct x, y; simpl; intros H; try contradiction; split; reflexivity. Qed.

Lemma float_leb_total (x y : float) :
  notna x = true -> notna y = true -> float_leb y x = false -> float_le x y.
Proof.
  destruct x, y; simpl; intros Hx Hy; try discriminate; try (intros _; exact I).
  intros H. destruct (Qlt_le_dec q0 q) as [Hlt|Hle]; [|assumption].
  apply Qlt_le_weak, Qle_bool_iff in Hlt. congruence.
Qed.

Lemma float_eqb_le (x y : float) : float_eqb x y = true -> float_le x y /\ float_le y x.
Proof.
  destruct x, y; simpl; try discriminate; try (intros _; split; exact I).
  intros H. apply Qeq_bool_iff in H. rewrite H. split; apply Qle_refl.
Qed.

End FloatOrder.

(** ** Rounding to the nearest double *)

Section Float64Facts.
Import Pandas Float64.


Lemma pow2_pos (e : Z) : 0 < pow2 e.
Proof. apply Qpower_0_lt. reflexivity. Qed.











Lemma rint_Z (z : Z) : rint (inject_Z z) = z.
Proof.
  unfold rint. rewrite Qfloor_Z.
  destruct (Qcompare_spec (inject_Z z - inject_Z z) (1 # 2)) as [E|E|E];
    [exfalso; lra|reflexivity|exfalso; lra].
Qed.

Lemma rint_comp (x y : Q) : x == y -> rint x = rint y.
Proof.
  intros H. unfold rint. rewrite (Qfloor_comp x y H).
  assert (E : Qcompare (x - inject_Z (Qfloor y)) (1 # 2)
              = Qcompare (y - inject_Z (Qfloor y)) (1 # 2)).
  { apply Qcompare_comp; [|reflexivity]. now rewrite H. }
  now rewrite E.
Qed.



(** A multiple of [2 ** e] is its own rounding. *)
Lemma round_at_multiple (e : Z) (k : Z) :
  round_at e (inject_Z k * pow2 e) == inject_Z k * pow2 e.
Proof.
  pose proof (pow2_pos e) as He. unfold round_at.
  assert (E : inject_Z k * pow2 e / pow2 e == inject_Z k) by (field; lra).
  rewrite (rint_comp _ _ E), rint_Z. reflexivity.
Qed.












End Float64Facts.

(** ** The global scale of the grid *)

Section ScaleFacts.
Import Py SmallMultiples.

Definition widths (geoms : list Geometry) : list Q :=
  map width (filter not_empty geoms).

Definition heights (geoms : list Geometry) : list Q :=
  map height (filter not_empty geoms).

Lemma in_widths (geoms : list Geometry) (g : Geometry) :
  In g geoms -> is_empty g = false -> In (width g) (widths geoms).
Proof.
  intros Hin He. unfold widths. apply in_map. apply filter_In.
  split; [assumption|]. unfold not_empty. now rewrite He.
Qed.

Lemma in_heights (geoms : list Geometry) (g : Geometry) :
  In g geoms -> is_empty g = false -> In (height g) (heights geoms).
Proof.
  intros Hin He. unfold heights. apply in_map. apply filter_In.
  split; [assumption|]. unfold not_empty. now rewrite He.
Qed.

Lemma widths_inv (geoms : list Geometry) (x : Q) :
  In x (widths geoms) ->
  exists g, In g geoms /\ is_empty g = false /\ width g = x.
Proof.
  unfold widths. intros H. apply in_map_iff in H as (g & Hx & Hg).
  apply filter_In in Hg as (Hin & Hne). exists g. repeat split; auto.
  unfold not_empty in Hne. now destruct (is_empty g).
Qed.

Lemma heights_inv (geoms : list Geometry) (x : Q) :
  In x (heights geoms) ->
  exists g, In g geoms /\ is_empty g = false /\ height g = x.
Proof.
  unfold heights. intros H. apply in_map_iff in H as (g & Hx & Hg).
  apply filter_In in Hg as (Hin & Hne). exists g. repeat split; auto.
  unfold not_empty in Hne. now destruct (is_empty g).
Qed.

Lemma global_scale_Ok (cell : Z) (geoms : list Geometry) (max_w max_h : Q) :
  max (widths geoms) = Ok max_w ->
  max (heights geoms) = Ok max_h ->
  ~ max_w == 0 -> ~ max_h == 0 ->
  global_scale cell geoms =
    Ok (min2 (inject_Z (inner cell) / max_w) (inject_Z (inner cell) / max_h)).
Proof.
  intros Hw Hh Hw0 Hh0. unfold global_scale.
  fold (widths geoms). fold (heights geoms). rewrite Hw, Hh. simpl.
  rewrite (truediv_Ok _ _ Hw0), (truediv_Ok _ _ Hh0). reflexivity.
Qed.

End ScaleFacts.

(** ** The global scale in binary64: the largest fit up to rounding *)

Section DoubleScaleFacts.
Import Py Pandas SmallMultiples.





















End DoubleScaleFacts.

Section DoubleScaleTheorem.
Import Py Pandas SmallMultiples.








End DoubleScaleTheorem.

(** ** Sample geometries *)

Module Samples.
Import Py SmallMultiples.

Definition square (side : Q) : Geometry :=
  {| shape := IsPolygon
       {| exterior := [(0, 0); (side, 0); (side, side); (0, side); (0, 0)];
          interiors := [] |};
     is_empty := false;
     bounds := (0, 0, side, side) |}.

(** [LineString([(0, 0), (0, 1000)])]: not empty, of width zero. *)
Definition segment : Geometry :=
  {| shape := IsOther "LineString";
     is_empty := false;
     bounds := (0, 0, 0, 1000) |}.

(** [Polygon([(0, 0), (0, 10), (0, 5), (0, 0)])]: a collapsed ring that no
    repair touched; not empty, of width zero. *)
Definition sliver : Geometry :=
  {| shape := IsPolygon
       {| exterior := [(0, 0); (0, 10); (0, 5); (0, 0)]; interiors := [] |};
     is_empty := false;
     bounds := (0, 0, 0, 10) |}.

(** [Polygon()] *)
Definition empty_polygon : Geometry :=
  {| shape := IsPolygon {| exterior := []; interiors := [] |};
     is_empty := true;
     bounds := (0, 0, 0, 0) |}.

(** A stand-in for the formatting of floats: the integer part. *)
Definition fmt_floor (precision : nat) (x : Q) : string :=
  str_of_int (Qnum x / Zpos (Qden x))%Z.

End Samples.

Section ScaleExamples.
Import Py Pandas SmallMultiples Samples.

(** Squares of side 10 and 5 with an inner cell of 100: the scale is 10,
    in exact arithmetic and in doubles. *)
Example scale_two_squares :
  exists s, SmallMultiples.global_scale 108 [square 10; square 5] = Ok s /\ s == 10.
Proof. eexists. split; [vm_compute; reflexivity|reflexivity]. Qed.

Example scale_two_squares_in_doubles :
  InDoubles.global_scale 108 [square 10; square 5] = Ok (Fin 10).
Proof. vm_compute. reflexivity. Qed.

(** A square of side 25 in the default cell of 64: [56 / 25] is not a
    double, and the scale is the double next to it,
    2.2400000000000002. *)
Example scale_square_25 :
  InDoubles.global_scale 64 [square 25]
  = Ok (Fin (1261007895663739 # 562949953421312)).
Proof. vm_compute. reflexivity. Qed.



End ScaleExamples.

(** ** Empty and degenerate geometries in the renderer *)

Section EmptyGeometries.
Import Py SmallMultiples.

Variable fmt : nat -> Q -> string.

Lemma filter_not_empty_idem (geoms : list Geometry) :
  filter not_empty (filter not_empty geoms) = filter not_empty geoms.
Proof.
  induction geoms as [|g t IH]; simpl; [reflexivity|].
  destruct (not_empty g) eqn:E; simpl; [rewrite E|]; now rewrite IH.
Qed.

Lemma global_scale_ignores_empty (cell : Z) (geoms : list Geometry) :
  global_scale cell geoms = global_scale cell (filter not_empty geoms).
Proof. unfold global_scale. now rewrite filter_not_empty_idem. Qed.

Lemma global_scale_06_ignores_empty (cell : Z) (geoms : list Geometry) :
  global_scale_06 cell geoms = global_scale_06 cell (filter not_empty geoms).
Proof. unfold global_scale_06. now rewrite filter_not_empty_idem. Qed.

Lemma draw_geom_empty cols cell margin fill stroke sw label fs scale i g :
  is_empty g = true ->
  draw_geom fmt cols cell margin fill stroke sw label fs scale (i, g) = [].
Proof. intros He. unfold draw_geom. now rewrite He. Qed.

Lemma flat_map_skip {A B : Type} (f : A -> list B) (keep : A -> bool) (l : list A) :
  (forall a, keep a = false -> f a = []) ->
  flat_map f l = flat_map f (filter keep l).
Proof.
  intros H. induction l as [|a t IH]; simpl; [reflexivity|].
  destruct (keep a) eqn:E; simpl.
  - now rewrite IH.
  - now rewrite (H a E).
Qed.

Lemma global_scale_never_exits (cell : Z) (geoms : list Geometry) (msg : string) :
  global_scale cell geoms <> Raise (SystemExit msg).
Proof.
  unfold global_scale.
  destruct (max (map width (filter not_empty geoms))) as [mw|e] eqn:Ew; simpl.
  - destruct (max (map height (filter not_empty geoms))) as [mh|e] eqn:Eh; simpl.
    + unfold truediv.
      destruct (Qeq_bool mw 0); simpl; [discriminate|].
      destruct (Qeq_bool mh 0); simpl; discriminate.
    + destruct (map height (filter not_empty geoms)); simpl in Eh;
        [injection Eh as <-|]; discriminate.
  - destruct (map width (filter not_empty geoms)); simpl in Ew;
      [injection Ew as <-|]; discriminate.
Qed.

Lemma global_scale_all_empty (cell : Z) (geoms : list Geometry) :
  Forall (fun g => is_empty g = true) geoms ->
  global_scale cell geoms = Raise ValueError.
Proof.
  intros Hall. unfold global_scale.
  assert (E : filter not_empty geoms = []).
  { induction Hall as [|g t Hg _ IH]; simpl; [reflexivity|].
    unfold not_empty at 1. now rewrite Hg. }
  now rewrite E.
Qed.

(** C8 (amended).  The geometries that the renderer leaves out are the
    empty ones ([is_empty]): they do not enter the global scale (scripts 02,
    04 and 06), no path is added for them, the drawing is that of the other
    geometries in their own cells, and a collection draws without exception
    whenever the collection without its empty geometries does. *)
Theorem empty_geometries_skipped (geoms : list Geometry)
  (cols cell margin : Z) (fill stroke : string) (sw : Q) (label : bool) (fs : Z) :
  global_scale cell geoms = global_scale cell (filter not_empty geoms) /\
  global_scale_06 cell geoms = global_scale_06 cell (filter not_empty geoms) /\
  (forall scale i g,
      is_empty g = true ->
      draw_geom fmt cols cell margin fill stroke sw label fs scale (i, g) = []) /\
  (forall scale,
      flat_map (draw_geom fmt cols cell margin fill stroke sw label fs scale)
        (enumerate geoms) =
      flat_map (draw_geom fmt cols cell margin fill stroke sw label fs scale)
        (filter (fun ig => not_empty (snd ig)) (enumerate geoms))) /\
  (forall d wh,
      draw_geoms_to_svg_scaled fmt (filter not_empty geoms) cols cell margin
        fill stroke sw label fs = (d, Ok wh) ->
      exists d' wh',
        draw_geoms_to_svg_scaled fmt geoms cols cell margin fill stroke sw
          label fs = (d', Ok wh')).
Proof.
  split; [apply global_scale_ignores_empty|].
  split; [apply global_scale_06_ignores_empty|].
  split; [intros; now apply draw_geom_empty|].
  split.
  - intros scale. apply flat_map_skip. intros [i g] Hk. simpl in Hk.
    apply draw_geom_empty. unfold not_empty in Hk. now destruct (is_empty g).
  - intros d wh. unfold draw_geoms_to_svg_scaled.
    rewrite <- global_scale_ignores_empty.
    destruct (filter not_empty geoms) as [|g0 t0] eqn:Ef; [simpl; discriminate|].
    destruct geoms as [|g t]; [discriminate|].
    replace (Z.of_nat (List.length (g0 :: t0)) =? 0)%Z with false
      by (simpl List.length; symmetry; apply Z.eqb_neq; lia).
    replace (Z.of_nat (List.length (g :: t)) =? 0)%Z with false
      by (simpl List.length; symmetry; apply Z.eqb_neq; lia).
    unfold ceil_div. destruct (cols =? 0)%Z; [discriminate|].
    destruct (global_scale cell (g :: t)) as [s|e]; [|discriminate].
    intros _. eauto.
Qed.

(** C10.  A collection that is not empty but holds only empty geometries
    makes the computation of the global scale raise [ValueError], the
    maximum of an empty sequence; the call raises with no element in the
    drawing.  [SystemExit], the explicit error, is raised exactly when the
    collection has no geometry. *)
Theorem draw_all_empty_raises (geoms : list Geometry)
  (cols cell margin : Z) (fill stroke : string) (sw : Q) (label : bool) (fs : Z) :
  (geoms <> [] ->
   Forall (fun g => is_empty g = true) geoms ->
   global_scale cell geoms = Raise ValueError /\
   exists e,
     draw_geoms_to_svg_scaled fmt geoms cols cell margin fill stroke sw label fs
       = ([], Raise e) /\
     (forall msg, e <> SystemExit msg) /\
     (cols <> 0%Z -> e = ValueError)) /\
  ((exists msg,
      snd (draw_geoms_to_svg_scaled fmt geoms cols cell margin fill stroke sw
             label fs) = Raise (SystemExit msg))
   <-> List.length geoms = 0%nat).
Proof.
  split.
  - intros Hne Hall. pose proof (global_scale_all_empty cell geoms Hall) as Hs.
    split; [assumption|].
    unfold draw_geoms_to_svg_scaled. rewrite Hs.
    destruct geoms as [|g t]; [congruence|].
    replace (Z.of_nat (List.length (g :: t)) =? 0)%Z with false
      by (simpl List.length; symmetry; apply Z.eqb_neq; lia).
    unfold ceil_div. destruct (cols =? 0)%Z eqn:Ec.
    + exists ZeroDivisionError. split; [reflexivity|]. split; [discriminate|].
      apply Z.eqb_eq in Ec. contradiction.
    + exists ValueError. split; [reflexivity|]. split; [discriminate|reflexivity].
  - unfold draw_geoms_to_svg_scaled. destruct geoms as [|g t].
    + simpl. split; [reflexivity|]. intros _. eexists. reflexivity.
    + replace (Z.of_nat (List.length (g :: t)) =? 0)%Z with false
        by (simpl List.length; symmetry; apply Z.eqb_neq; lia).
      split; [|simpl; discriminate].
      intros (msg & H). exfalso. revert H.
      unfold ceil_div. destruct (cols =? 0)%Z; [simpl; discriminate|].
      destruct (global_scale cell (g :: t)) as [s|e] eqn:Es; simpl;
        [discriminate|].
      intros H. injection H as ->. now apply global_scale_never_exits in Es.
Qed.

End EmptyGeometries.

Section EmptyGeometriesExamples.
Import Py SmallMultiples Samples.

(** C8, witness: an empty polygon next to a square. *)
Lemma empty_geometries_skipped_witness :
  exists d' wh',
    draw_geoms_to_svg_scaled fmt_floor [empty_polygon; square 10] 14 64 24
      "#000" "#000" (4 # 10) false 8 = (d', Ok wh').
Proof.
  destruct (empty_geometries_skipped fmt_floor [empty_polygon; square 10]
              14 64 24 "#000" "#000" (4 # 10) false 8) as (_ & _ & _ & _ & H).
  eapply H. vm_compute. reflexivity.
Defined.

(** Whether one side of the bounding box is zero. *)
Definition zero_extent (g : Geometry) : bool :=
  Qeq_bool (width g) 0 || Qeq_bool (height g) 0.

(** C8, counterexample.  A geometry of zero width that is not empty still
    enters the global scale: a vertical segment next to a square changes
    it.  A collapsed polygon of zero width gets its path.  Alone, such a
    geometry makes script 02 raise, which the guard of script 06 avoids. *)
Lemma zero_extent_not_excluded :
  global_scale 64 [segment; square 10]
    <> global_scale 64 (filter (fun g => negb (zero_extent g)) [segment; square 10]) /\
  draw_geom fmt_floor 14 64 24 "#000" "#000" (4 # 10) false 8 1 (0%Z, sliver) <> [] /\
  snd (draw_geoms_to_svg_scaled fmt_floor [segment] 14 64 24 "#000" "#000"
         (4 # 10) false 8) = Raise ZeroDivisionError /\
  global_scale_06 64 [segment] = Ok 1.
Proof.
  split; [|split; [|split]].
  - vm_compute. discriminate.
  - vm_compute. discriminate.
  - vm_compute. reflexivity.
  - vm_compute. reflexivity.
Qed.

(** C10, witness: a collection of one empty polygon. *)
Lemma draw_all_empty_raises_witness :
  global_scale 64 [empty_polygon] = Raise ValueError /\
  exists e,
    draw_geoms_to_svg_scaled fmt_floor [empty_polygon] 14 64 24 "#000" "#000"
      (4 # 10) false 8 = ([], Raise e) /\
    (forall msg, e <> SystemExit msg) /\
    (14%Z <> 0%Z -> e = ValueError).
Proof.
  apply (draw_all_empty_raises fmt_floor [empty_polygon] 14 64 24 "#000" "#000"
           (4 # 10) false 8).
  - discriminate.
  - repeat constructor.
Defined.

End EmptyGeometriesExamples.

(** ** The colour rules *)

Section ColorFacts.
Import Py ColorRules.

Variable to_datetime : Value -> result Timestamp.
Variable int_of_str : string -> result Z.

(** A missing or empty date is not even handed to pandas. *)
Lemma parse_firedate_missing (val : Value) :
  is_None_or_empty val = true -> parse_firedate to_datetime val = Ok None.
Proof. intros H. unfold parse_firedate. now rewrite H. Qed.

(** A date that pandas rejects with an [Exception], or reads as [NaT],
    parses to [None]. *)
Lemma parse_firedate_unparseable (val : Value) (e : exn) :
  is_Exception e = true ->
  to_datetime val = Raise e \/ to_datetime val = Ok NaT ->
  parse_firedate to_datetime val = Ok None.
Proof.
  intros He H. unfold parse_firedate.
  destruct (is_None_or_empty val); [reflexivity|].
  destruct H as [-> | ->]; simpl; [now rewrite He|reflexivity].
Qed.

Lemma parse_firedate_total (val : Value) :
  (forall e, to_datetime val = Raise e -> is_Exception e = true) ->
  exists fd, parse_firedate to_datetime val = Ok fd.
Proof.
  intros H. unfold parse_firedate.
  destruct (is_None_or_empty val); [eauto|].
  destruct (to_datetime val) as [[|dt]|e] eqn:E; simpl; eauto.
  rewrite (H e eq_refl). eauto.
Qed.

(** Without a date the rule of script 04 is decided by the year alone. *)
Lemma pick_color_falls_through (row : Row) (cutoff : datetime) :
  parse_firedate to_datetime (get row "firedate") = Ok None ->
  pick_color to_datetime int_of_str row cutoff =
    (year <- int int_of_str (get row "fireyear") ;;
     if (year =? 2025)%Z then Ok COLOR_2025 else Ok COLOR_DEFAULT).
Proof. intros H. unfold pick_color. now rewrite H. Qed.

(** Without a date the rule of script 06 answers its default colour. *)
Lemma pick_color_2025_falls_through (row : Row) (cutoff : datetime) :
  parse_firedate to_datetime (get row "firedate") = Ok None ->
  pick_color_2025 to_datetime row cutoff = Ok COLOR_ROSA.
Proof. intros H. unfold pick_color_2025. now rewrite H. Qed.

(** C5.  A feature whose date parses to the instant of the cutoff gets the
    colour of the dates on or after the cutoff, in script 04 and in script
    06, and that colour is none of the others. *)
Theorem cutoff_is_inclusive (row : Row) (cutoff fd : datetime) :
  aware cutoff = true ->
  parse_firedate to_datetime (get row "firedate") = Ok (Some fd) ->
  micros fd = micros cutoff ->
  pick_color to_datetime int_of_str row cutoff = Ok COLOR_RECENT /\
  pick_color_2025 to_datetime row cutoff = Ok COLOR_GRANATE /\
  COLOR_RECENT <> COLOR_2025 /\ COLOR_RECENT <> COLOR_DEFAULT /\
  COLOR_GRANATE <> COLOR_ROSA.
Proof.
  intros Hc Hp Hm.
  assert (Hge : datetime_ge (if aware fd then fd else replace_tzinfo_utc fd) cutoff
                = Ok true).
  { unfold datetime_ge. rewrite Hc.
    destruct (aware fd) eqn:Ea; simpl; [rewrite Ea; simpl|];
      rewrite Hm, Z.leb_refl; reflexivity. }
  unfold pick_color, pick_color_2025. rewrite Hp. simpl. rewrite Hge. simpl.
  repeat split; discriminate.
Qed.

(** C6, at the failing input.  A feature with no usable date and no
    [fireyear] makes [pick_color] of script 04 raise: the date predicate is
    skipped, then [int(None)] is a [TypeError]; a NaN year is a
    [ValueError]. *)
Theorem pick_color_missing_year_raises (row : Row) (cutoff : datetime) :
  parse_firedate to_datetime (get row "firedate") = Ok None ->
  (get row "fireyear" = VNone ->
   pick_color to_datetime int_of_str row cutoff = Raise TypeError) /\
  (get row "fireyear" = VNaN ->
   pick_color to_datetime int_of_str row cutoff = Raise ValueError).
Proof.
  intros Hp. rewrite (pick_color_falls_through row cutoff Hp).
  split; intros ->; reflexivity.
Qed.

(** With a year that [int] accepts, the rule of script 04 answers. *)
Lemma pick_color_total (row : Row) (cutoff : datetime) (year : Z) :
  parse_firedate to_datetime (get row "firedate") = Ok None ->
  int int_of_str (get row "fireyear") = Ok year ->
  pick_color to_datetime int_of_str row cutoff =
    Ok (if (year =? 2025)%Z then COLOR_2025 else COLOR_DEFAULT).
Proof.
  intros Hp Hy. rewrite (pick_color_falls_through row cutoff Hp), Hy. simpl.
  now destruct (year =? 2025)%Z.
Qed.

(** The rule of script 06 always answers, given an aware cutoff. *)
Lemma pick_color_2025_total (row : Row) (cutoff : datetime) :
  aware cutoff = true ->
  (forall e, to_datetime (get row "firedate") = Raise e -> is_Exception e = true) ->
  exists color, pick_color_2025 to_datetime row cutoff = Ok color.
Proof.
  intros Hc Hex. unfold pick_color_2025.
  destruct (parse_firedate_total _ Hex) as ([fd|] & ->); simpl.
  - unfold datetime_ge. rewrite Hc.
    destruct (aware fd) eqn:Ea; simpl; [rewrite Ea|]; simpl;
      destruct (micros cutoff <=? micros fd)%Z; eauto.
  - eauto.
Qed.

End ColorFacts.

Module ColorSamples.
Import Py ColorRules.

Definition digits (s : string) : option Z :=
  match NilEmpty.uint_of_string s with
  | Some u => Some (Z.of_uint u)
  | None => None
  end.

(** A reading of [pd.to_datetime(val, utc=True)] on the inputs used below:
    the text [YYYY-MM-DDTHH:MM:SSZ], an integer count of nanoseconds since
    the epoch, and missing values. *)
Definition iso_to_datetime (val : Value) : result Timestamp :=
  match val with
  | VNone | VNaN => Ok NaT
  | VInt ns => Ok (TS {| micros := ns / 1000; aware := true |})
  | VFloat _ => Raise ValueError
  | VStr s =>
      if (String.length s =? 20)%nat
         && String.eqb (substring 4 1 s) "-" && String.eqb (substring 7 1 s) "-"
         && String.eqb (substring 10 1 s) "T" && String.eqb (substring 13 1 s) ":"
         && String.eqb (substring 16 1 s) ":" && String.eqb (substring 19 1 s) "Z"
      then
        match digits (substring 0 4 s), digits (substring 5 2 s),
              digits (substring 8 2 s), digits (substring 11 2 s),
              digits (substring 14 2 s), digits (substring 17 2 s) with
        | Some y, Some m, Some d, Some hh, Some mm, Some ss =>
            Ok (TS (datetime_utc y m d hh mm ss))
        | _, _, _, _, _, _ => Raise ValueError
        end
      else Raise ValueError
  end.

(** [int(s)] on a plain decimal literal. *)
Definition decimal_int_of_str (s : string) : result Z :=
  match NilEmpty.int_of_string s with
  | Some i => Ok (Z.of_int i)
  | None => Raise ValueError
  end.

Definition fire_on_cutoff : Row :=
  [("firedate", VStr "2025-08-08T00:00:00Z"); ("fireyear", VInt 2025)]%string.

Definition fire_before_cutoff : Row :=
  [("firedate", VStr "2025-08-07T23:59:59Z"); ("fireyear", VInt 2025)]%string.

Definition fire_without_year : Row :=
  [("firedate", VStr "sin fecha"); ("area_ha", VFloat 120)]%string.

End ColorSamples.

Section ColorExamples.
Import Py ColorRules ColorSamples.

Example cutoff_micros : micros cutoff_dt_utc = 1754611200000000%Z.
Proof. reflexivity. Qed.

Example pick_color_before_cutoff :
  pick_color iso_to_datetime decimal_int_of_str fire_before_cutoff cutoff_dt_utc
    = Ok COLOR_2025 /\
  pick_color_2025 iso_to_datetime fire_before_cutoff cutoff_dt_utc = Ok COLOR_ROSA.
Proof. split; vm_compute; reflexivity. Qed.

(** C5, witness: a fire dated 2025-08-08T00:00:00Z. *)
Lemma cutoff_is_inclusive_witness :
  pick_color iso_to_datetime decimal_int_of_str fire_on_cutoff cutoff_dt_utc
    = Ok COLOR_RECENT /\
  pick_color_2025 iso_to_datetime fire_on_cutoff cutoff_dt_utc = Ok COLOR_GRANATE /\
  COLOR_RECENT <> COLOR_2025 /\ COLOR_RECENT <> COLOR_DEFAULT /\
  COLOR_GRANATE <> COLOR_ROSA.
Proof.
  apply (cutoff_is_inclusive iso_to_datetime decimal_int_of_str fire_on_cutoff
           cutoff_dt_utc (datetime_utc 2025 8 8 0 0 0)).
  - reflexivity.
  - vm_compute. reflexivity.
  - reflexivity.
Defined.

(** C6, witness: a fire whose date is not a date and that has no
    [fireyear]. *)
Lemma pick_color_missing_year_raises_witness :
  pick_color iso_to_datetime decimal_int_of_str fire_without_year cutoff_dt_utc
    = Raise TypeError.
Proof.
  apply (pick_color_missing_year_raises iso_to_datetime decimal_int_of_str
           fire_without_year cutoff_dt_utc).
  - vm_compute. reflexivity.
  - reflexivity.
Defined.

End ColorExamples.

(** ** Geometry repair *)

Section MapMFacts.
Import Py.

Context {A B : Type} (f : A -> result B).

Lemma mapM_Ok (l : list A) (out : list B) :
  mapM f l = Ok out <-> Forall2 (fun x y => f x = Ok y) l out.
Proof.
  revert out. induction l as [|x t IH]; intros out; simpl.
  - split; intros H.
    + injection H as <-. constructor.
    + inversion H. reflexivity.
  - split; intros H.
    + destruct (f x) as [y|e] eqn:Ex; simpl in H; [|discriminate].
      destruct (mapM f t) as [ys|e] eqn:Et; simpl in H; [|discriminate].
      injection H as <-. constructor; [assumption|]. now apply IH.
    + inversion H as [|x' y t' ys Hx Ht]; subst. rewrite Hx. simpl.
      apply IH in Ht. rewrite Ht. reflexivity.
Qed.

Lemma mapM_Raise (l : list A) (x : A) (e : exn) :
  In x l -> f x = Raise e -> exists e', mapM f l = Raise e'.
Proof.
  induction l as [|y t IH]; intros Hin Hx; [destruct Hin|].
  simpl. destruct (f y) as [b|e1] eqn:Ey; simpl; [|eauto].
  destruct Hin as [->|Hin]; [congruence|].
  destruct (IH Hin Hx) as (e' & ->). simpl. eauto.
Qed.

Lemma mapM_length (l : list A) (out : list B) :
  mapM f l = Ok out -> List.length out = List.length l.
Proof.
  intros H. apply mapM_Ok in H. induction H; simpl; congruence.
Qed.

End MapMFacts.

Section RepairFacts.
Import Py Repair.

Variable G : Type.
Variable _make_valid : G -> result G.
Variable buffer : G -> Q -> result G.

(** C7 (amended).  [make_valid] of the renderer follows the policy and
    never raises: the result of the canonical repair if it succeeds, else
    that of the zero-distance buffer if it succeeds, else the geometry
    itself.  [safe_make_valid] of the aggregator is the zero-distance buffer
    alone on every geometry: it returns the buffered geometries when every
    buffer succeeds, and raises as soon as one fails. *)
Theorem make_valid_follows_policy :
  raises_only_Exception G _make_valid ->
  raises_only_Exception G (fun g => buffer g 0) ->
  (forall geom,
      make_valid G _make_valid buffer geom
        = repair_policy G _make_valid (fun g => buffer g 0) geom /\
      (exists g', make_valid G _make_valid buffer geom = Ok g') /\
      (forall g1, _make_valid geom = Ok g1 ->
                  make_valid G _make_valid buffer geom = Ok g1) /\
      (forall e g2, _make_valid geom = Raise e -> buffer geom 0 = Ok g2 ->
                    make_valid G _make_valid buffer geom = Ok g2) /\
      (forall e1 e2, _make_valid geom = Raise e1 -> buffer geom 0 = Raise e2 ->
                     make_valid G _make_valid buffer geom = Ok geom)) /\
  (forall geoms,
      (forall out, safe_make_valid G buffer geoms = Ok out
                   <-> Forall2 (fun g g' => buffer g 0 = Ok g') geoms out) /\
      (forall g e, In g geoms -> buffer g 0 = Raise e ->
                   exists e', safe_make_valid G buffer geoms = Raise e')).
Proof.
  intros Hmv Hbuf. split.
  - intros geom. unfold make_valid, repair_policy, try_except.
    destruct (_make_valid geom) as [g1|e1] eqn:E1.
    + repeat split; eauto; intros; congruence.
    + rewrite (Hmv geom e1 E1).
      destruct (buffer geom 0) as [g2|e2] eqn:E2.
      * repeat split; eauto; intros; congruence.
      * rewrite (Hbuf geom e2 E2).
        repeat split; eauto; intros; congruence.
  - intros geoms. split.
    + intros out. apply mapM_Ok.
    + intros g e. apply (mapM_Raise (fun g => buffer g 0)).
Qed.

End RepairFacts.

Module RepairSamples.
Import Py Repair.

(** Geometries written as WKT text. *)
Definition bowtie : string := "POLYGON ((0 0, 2 2, 2 0, 0 2, 0 0))".

(** Primitives that give up on the bowtie. *)
Definition strict_make_valid (g : string) : result string :=
  if String.eqb g bowtie then Raise GEOSException else Ok g.

Definition strict_buffer (g : string) (distance : Q) : result string :=
  if String.eqb g bowtie then Raise GEOSException else Ok g.

(** Primitives that both repair the bowtie, each in its own way: the
    canonical repair keeps the two triangles, the buffer keeps one. *)
Definition lenient_make_valid (g : string) : result string :=
  if String.eqb g bowtie
  then Ok "MULTIPOLYGON (((0 0, 1 1, 2 0, 0 0)), ((1 1, 0 2, 2 2, 1 1)))"%string
  else Ok g.

Definition lenient_buffer (g : string) (distance : Q) : result string :=
  if String.eqb g bowtie
  then Ok "POLYGON ((0 0, 1 1, 2 0, 0 0))"%string
  else Ok g.

End RepairSamples.

Section RepairExamples.
Import Py Repair RepairSamples.

(** C7, witness: primitives that fail on the bowtie only. *)
Lemma make_valid_follows_policy_witness :
  make_valid string strict_make_valid strict_buffer bowtie = Ok bowtie /\
  exists e', safe_make_valid string strict_buffer [bowtie] = Raise e'.
Proof.
  assert (H1 : raises_only_Exception string strict_make_valid).
  { intros x e. unfold strict_make_valid.
    destruct (String.eqb x bowtie); intros H; inversion H; reflexivity. }
  assert (H2 : raises_only_Exception string (fun g => strict_buffer g 0)).
  { intros x e. unfold strict_buffer.
    destruct (String.eqb x bowtie); intros H; inversion H; reflexivity. }
  destruct (make_valid_follows_policy string strict_make_valid strict_buffer H1 H2)
    as (Hmv & Hsafe).
  split.
  - destruct (Hmv bowtie) as (_ & _ & _ & _ & H).
    apply (H GEOSException GEOSException); reflexivity.
  - destruct (Hsafe [bowtie]) as (_ & H).
    apply (H bowtie GEOSException); [now left|reflexivity].
Defined.

(** C7, counterexample.  On a geometry that both primitives reject, the
    policy returns it unchanged while [safe_make_valid] raises; on one that
    both repair, [safe_make_valid] returns the buffered geometry and not
    the canonical repair. *)
Lemma safe_make_valid_not_policy :
  (mapM (repair_policy string strict_make_valid (fun g => strict_buffer g 0))
     [bowtie] = Ok [bowtie] /\
   safe_make_valid string strict_buffer [bowtie] = Raise GEOSException) /\
  safe_make_valid string lenient_buffer [bowtie]
    <> mapM (repair_policy string lenient_make_valid (fun g => lenient_buffer g 0))
         [bowtie].
Proof.
  split; [split|]; vm_compute; [reflexivity|reflexivity|discriminate].
Qed.

End RepairExamples.

(** ** [sort_values] *)


Section SortFacts.
Import Pandas.

Context {A : Type} (key : A -> float).

Let desc (a b : A) : Prop := float_le (key b) (key a).

Lemma insert_desc_perm (x : A) (l : list A) :
  Permutation (x :: l) (insert_desc key x l).
Proof.
  induction l as [|y t IH]; simpl; [apply Permutation_refl|].
  destruct (float_leb (key y) (key x)); [apply Permutation_refl|].
  eapply perm_trans; [apply perm_swap|]. now apply perm_skip.
Qed.

Lemma insert_desc_sorted (x : A) (l : list A) :
  notna (key x) = true ->
  Forall (fun a => notna (key a) = true) l ->
  StronglySorted desc l ->
  StronglySorted desc (insert_desc key x l).
Proof.
  intros Hx Hna Hs. induction Hs as [|y t Hs IH Hy]; simpl.
  - constructor; constructor.
  - inversion Hna as [|? ? Hny Hnt]; subst.
    destruct (float_leb (key y) (key x)) eqn:E.
    + constructor; [now constructor|].
      apply float_leb_le in E. constructor; [exact E|].
      eapply Forall_impl; [|exact Hy]. intros b Hb. unfold desc in *.
      eapply float_le_trans; eauto.
    + constructor; [now apply IH|].
      apply (Permutation_Forall (insert_desc_perm x t)).
      constructor; [|assumption]. unfold desc. now apply float_leb_total.
Qed.

Lemma fold_insert_desc_perm (l : list A) :
  Permutation l (fold_right (insert_desc key) [] l).
Proof.
  induction l as [|x t IH]; simpl; [constructor|].
  eapply perm_trans; [|apply insert_desc_perm]. now apply perm_skip.
Qed.

Lemma fold_insert_desc_sorted (l : list A) :
  Forall (fun a => notna (key a) = true) l ->
  StronglySorted desc (fold_right (insert_desc key) [] l).
Proof.
  induction 1 as [|x t Hx Ht IH]; simpl; [constructor|].
  apply insert_desc_sorted; auto.
  now apply (Permutation_Forall (fold_insert_desc_perm t)).
Qed.

(** pandas returns a result on every frame. *)
Lemma stable_sort_desc_admitted (l : list A) :
  sort_values_desc key l (stable_sort_desc key l).
Proof.
  exists (fold_right (insert_desc key) [] (filter (fun a => notna (key a)) l)).
  split; [apply fold_insert_desc_perm|]. split; [|reflexivity].
  apply fold_insert_desc_sorted. apply Forall_forall.
  intros a Ha. now apply filter_In in Ha.
Qed.

Lemma partition_perm (p : A -> bool) (l : list A) :
  Permutation l (filter p l ++ filter (fun a => negb (p a)) l).
Proof.
  induction l as [|x t IH]; simpl; [constructor|].
  destruct (p x); simpl.
  - now apply perm_skip.
  - now apply Permutation_cons_app.
Qed.

Lemma sort_values_desc_perm (l l' : list A) :
  sort_values_desc key l l' -> Permutation l l'.
Proof.
  intros (s & Hp & _ & ->).
  eapply perm_trans; [apply (partition_perm (fun a => notna (key a)))|].
  apply Permutation_app; [assumption|].
  unfold notna. erewrite filter_ext; [apply Permutation_refl|].
  intros a. simpl. now rewrite negb_involutive.
Qed.



End SortFacts.

Section TieFacts.
Import Pandas.

Context {A : Type} (key : A -> float).

Lemma float_eqb_trans_leb (x y k : float) :
  float_eqb x k = true -> float_eqb y k = true -> float_leb y x = true.
Proof.
  destruct x, y, k; simpl; try discriminate; try reflexivity.
  intros H1 H2. apply Qeq_bool_iff in H1, H2. apply Qle_bool_iff.
  rewrite H1, H2. apply Qle_refl.
Qed.

Lemma ties_insert_desc (k : float) (x : A) (l : list A) :
  ties key k (insert_desc key x l) = ties key k (x :: l).
Proof.
  induction l as [|y t IH]; [reflexivity|].
  simpl insert_desc. destruct (float_leb (key y) (key x)) eqn:E; [reflexivity|].
  unfold ties in *. simpl in *. rewrite IH.
  destruct (float_eqb (key x) k) eqn:Ex, (float_eqb (key y) k) eqn:Ey; try reflexivity.
  rewrite (float_eqb_trans_leb _ _ _ Ex Ey) in E. discriminate.
Qed.

Lemma ties_fold_insert_desc (k : float) (l : list A) :
  ties key k (fold_right (insert_desc key) [] l) = ties key k l.
Proof.
  induction l as [|x t IH]; [reflexivity|].
  simpl fold_right. rewrite ties_insert_desc. unfold ties in *. simpl.
  now rewrite IH.
Qed.

Lemma ties_notna (k : float) (l : list A) :
  ties key k (filter (fun a => notna (key a)) l) = ties key k l /\
  ties key k (filter (fun a => isna (key a)) l) = [].
Proof.
  unfold ties. induction l as [|x t [IH1 IH2]]; [split; reflexivity|].
  simpl. destruct (key x) eqn:E; simpl; rewrite ?E; simpl; rewrite ?IH1, ?IH2;
    split; try reflexivity.
Qed.

(** The result of the stable insertion keeps the ties in their order. *)
Lemma stable_sort_desc_keeps_ties (l : list A) :
  keeps_ties key l (stable_sort_desc key l).
Proof.
  intros k. unfold stable_sort_desc.
  destruct (ties_notna k l) as [H1 H2].
  pose proof (ties_fold_insert_desc k (filter (fun a => notna (key a)) l)) as H3.
  unfold ties in *. rewrite filter_app, H3, H1, H2. apply app_nil_r.
Qed.




End TieFacts.

(** ** The call of [sort_values] on an answer of [argsort] *)

Section ArgsortFacts.
Import Pandas.

Context {A : Type} (key : A -> float).
















End ArgsortFacts.

(** ** The frame that [main] sorts and draws *)

Module RenderMain.
Import Py Pandas SmallMultiples.

(** A row of the frame of script 02 once [area_ha_final] is set. *)
Record FireRow : Type := {
  mun : string;
  area_ha_final : float;
  geometry : Geometry
}.

Section Main.

Variable argsort : list float -> option (list nat).

(** [gdf.sort_values("area_ha_final", ascending=False).reset_index(drop=True)]
    of [main] in scripts 02 and 04. *)
Definition gdf_sorted (gdf : list FireRow) : option (list FireRow) :=
  sort_values argsort area_ha_final gdf.

(** [geoms = list(gdf_aea.geometry)]: the reprojection keeps the rows and
    their order. *)
Definition geoms (gdf : list FireRow) : option (list Geometry) :=
  match gdf_sorted gdf with
  | Some gdf_sorted => Some (map geometry gdf_sorted)
  | None => None
  end.

End Main.



Definition fire (name : string) (ha : Z) : FireRow :=
  {| mun := name; area_ha_final := Fin (inject_Z ha);
     geometry := Samples.square 10 |}.

Definition fire_a : FireRow := fire "A" 500.
Definition fire_b : FireRow := fire "B" 500.
Definition fire_c : FireRow := fire "C" 900.

(** Twenty fires, several of them of the same area. *)
Definition twenty_fires : list FireRow :=
  [fire "F01" 500; fire "F02" 1200; fire "F03" 500; fire "F04" 800;
   fire "F05" 800; fire "F06" 300; fire "F07" 500; fire "F08" 1200;
   fire "F09" 650; fire "F10" 500; fire "F11" 800; fire "F12" 300;
   fire "F13" 950; fire "F14" 500; fire "F15" 1200; fire "F16" 410;
   fire "F17" 800; fire "F18" 500; fire "F19" 650; fire "F20" 300]%string.

End RenderMain.

Section RenderSort.
Import Pandas RenderMain.

Variable argsort : list float -> option (list nat).



End RenderSort.

Section SortExamples.
Import Pandas RenderMain.

Example stable_sort_three :
  stable_sort_desc area_ha_final [fire_a; fire_b; fire_c] = [fire_c; fire_a; fire_b].
Proof. vm_compute. reflexivity. Qed.

(** Two fires of the same area are sorted by insertion and keep their
    order. *)
Example sort_two_fires :
  gdf_sorted Numpy.argsort [fire_a; fire_b] = Some [fire_a; fire_b].
Proof. vm_compute. reflexivity. Qed.

(** The names of the twenty fires in the order of the sort. *)
Example sort_twenty_fires :
  option_map (map mun) (gdf_sorted Numpy.argsort twenty_fires)
  = Some ["F08"; "F15"; "F02"; "F13"; "F11"; "F04"; "F05"; "F17"; "F19"; "F09";
          "F18"; "F14"; "F01"; "F10"; "F07"; "F03"; "F16"; "F12"; "F06";
          "F20"]%string.
Proof. vm_compute. reflexivity. Qed.


(** The fires of 1200 ha, F02, F08 and F15 in the frame, come out of the
    portable kernel as F08, F15, F02. *)
Example sort_twenty_fires_ties :
  map mun (ties area_ha_final (Fin 1200) twenty_fires) = ["F02"; "F08"; "F15"]%string /\
  option_map (fun sorted => map mun (ties area_ha_final (Fin 1200) sorted))
    (gdf_sorted Numpy.argsort twenty_fires)
  = Some ["F08"; "F15"; "F02"]%string.
Proof. split; vm_compute; reflexivity. Qed.


End SortExamples.

(** ** A geometry kernel that computes: rasters *)

(** Regions made of the cells of a grid of 100 m by 100 m squares, one
    hectare each, inside a block of 4 by 4 cells.  Intersection, union and
    area are those of the plane restricted to such regions. *)
Module Raster.
Import Py Burn.

Definition t : Type := Z * Z -> bool.

Definition world : list (Z * Z) :=
  list_prod [0; 1; 2; 3]%Z [0; 1; 2; 3]%Z.

Definition cells (w : list (Z * Z)) (g : t) : nat := List.length (filter g w).

Definition area (g : t) : Q := inject_Z (10000 * Z.of_nat (cells world g)).

Definition intersection (a b : t) : t := fun c => a c && b c.

Definition union (a b : t) : t := fun c => a c || b c.

Definition empty : t := fun _ => false.

Definition is_empty (g : t) : bool := (cells world g =? 0)%nat.

(** The rectangle of the cells [(x, y)] with [x0 <= x < x1] and
    [y0 <= y < y1]. *)
Definition rect (x0 y0 x1 y1 : Z) : t :=
  fun c => ((x0 <=? fst c) && (fst c <? x1) && (y0 <=? snd c) && (snd c <? y1))%Z.

Lemma cells_intersection_le (w : list (Z * Z)) (a b : t) :
  (cells w (intersection a b) <= cells w a)%nat.
Proof.
  unfold cells, intersection. induction w as [|c w IH]; simpl; [lia|].
  destruct (a c), (b c); simpl; lia.
Qed.

Lemma cells_intersection_comm (w : list (Z * Z)) (a b : t) :
  cells w (intersection a b) = cells w (intersection b a).
Proof.
  unfold cells, intersection. f_equal. apply filter_ext.
  intros c. apply andb_comm.
Qed.

Lemma cells_incl_excl (w : list (Z * Z)) (a b e : t) :
  (cells w (intersection (union a b) e) + cells w (intersection (intersection a b) e)
   = cells w (intersection a e) + cells w (intersection b e))%nat.
Proof.
  unfold cells, intersection, union. induction w as [|c w IH]; simpl; [lia|].
  destruct (a c), (b c), (e c); simpl; lia.
Qed.

Lemma area_nonneg (g : t) : 0 <= area g.
Proof.
  unfold area. change 0 with (inject_Z 0). rewrite <- Zle_Qle. lia.
Qed.

Lemma area_empty : area empty == 0.
Proof. reflexivity. Qed.

Lemma area_is_empty (g : t) : is_empty g = true -> area g == 0.
Proof.
  unfold is_empty, area. intros H. apply Nat.eqb_eq in H. now rewrite H.
Qed.

Lemma area_intersection_le (a b : t) : area (intersection a b) <= area a.
Proof.
  unfold area. rewrite <- Zle_Qle.
  pose proof (cells_intersection_le world a b). lia.
Qed.

Lemma area_intersection_comm (a b : t) :
  area (intersection a b) == area (intersection b a).
Proof. unfold area. now rewrite cells_intersection_comm. Qed.

Lemma area_incl_excl (a b e : t) :
  area (intersection (union a b) e) + area (intersection (intersection a b) e)
  == area (intersection a e) + area (intersection b e).
Proof.
  unfold area. rewrite <- !inject_Z_plus.
  pose proof (cells_incl_excl world a b e) as H.
  apply inject_Z_injective. lia.
Qed.

#[global] Instance kernel : GeomKernel t := {|
  Burn.area := area;
  Burn.to_crs := fun g => g;
  Burn.intersection := intersection;
  Burn.union := union;
  Burn.empty := empty;
  Burn.is_empty := is_empty;
  Burn.area_nonneg := area_nonneg;
  Burn.area_empty := area_empty;
  Burn.area_is_empty := area_is_empty;
  Burn.area_intersection_le := area_intersection_le;
  Burn.area_intersection_comm := area_intersection_comm;
  Burn.area_incl_excl := area_incl_excl
|}.

End Raster.

(** ** The minimum-area filter *)

Section FilterFacts.
Import Py Burn.

Context {G : Type}.

(** A cell that the comparison accepts: a number or a missing value, not a
    text. *)
Definition comparable_cell (v : Value) : bool :=
  match v with
  | VStr _ => false
  | VNone | VNaN | VInt _ | VFloat _ => true
  end.

Definition comparable_column (fires : GeoDataFrame G) (col : string) : Prop :=
  Forall (fun r => comparable_cell (cell r col) = true) (rows fires).

(** A missing cell: NaN, or [None] in a column of objects. *)
Definition missing (v : Value) : bool :=
  match v with
  | VNone | VNaN => true
  | _ => false
  end.

(** The mask entry of a comparable cell. *)
Definition at_least (min_ha : Q) (v : Value) : bool :=
  match v with
  | VInt z => Qle_bool min_ha (inject_Z z)
  | VFloat q => Qle_bool min_ha q
  | _ => false
  end.

(** The function [filter_fires_min_ha] of each script, with the column its
    measurement is stored in. *)
Definition script_filters
  : list (string * (GeomKernel G -> GeoDataFrame G -> Q -> result (GeoDataFrame G))) :=
  [("area_ha_geom"%string, fun K => @filter_fires_min_ha G K);
   ("area_ha_calc"%string, fun K => @filter_fires_min_ha_13 G K)].

Lemma ge_min_comparable (v : Value) (min_ha : Q) :
  comparable_cell v = true -> ge_min v min_ha = Ok (at_least min_ha v).
Proof. destruct v; simpl; intros H; try discriminate; reflexivity. Qed.

Lemma mask_comparable_column (rs : list (Feature G)) (col : string) (min_ha : Q) :
  Forall (fun r => comparable_cell (cell r col) = true) rs ->
  mapM (fun r => ge_min (cell r col) min_ha) rs
    = Ok (map (fun r => at_least min_ha (cell r col)) rs).
Proof.
  induction 1 as [|r t Hr _ IH]; simpl; [reflexivity|].
  rewrite (ge_min_comparable _ _ Hr), IH. reflexivity.
Qed.

Lemma select_map {A : Type} (p : A -> bool) (l : list A) :
  select l (map p l) = filter p l.
Proof.
  induction l as [|x t IH]; simpl; [reflexivity|].
  destruct (p x); now rewrite IH.
Qed.

Lemma lookup_assign (props : list (string * Value)) (col : string) (v : Value) :
  lookup (assign props col v) col = v.
Proof.
  induction props as [|[k w] t IH]; simpl.
  - now rewrite String.eqb_refl.
  - destruct (String.eqb k col) eqn:E; simpl; now rewrite E.
Qed.

Lemma ge_min_Ok (v : Value) (min_ha : Q) (b : bool) :
  ge_min v min_ha = Ok b -> b = at_least min_ha v.
Proof. destruct v; simpl; intros H; try discriminate; now injection H. Qed.

Lemma mask_Ok (rs : list (Feature G)) (col : string) (min_ha : Q) (mask : list bool) :
  mapM (fun r => ge_min (cell r col) min_ha) rs = Ok mask ->
  mask = map (fun r => at_least min_ha (cell r col)) rs.
Proof.
  intros H. apply mapM_Ok in H. induction H as [|r b t m Hr _ IH]; simpl.
  - reflexivity.
  - now rewrite (ge_min_Ok _ _ _ Hr), IH.
Qed.

Lemma mask_Ok_comparable (rs : list (Feature G)) (col : string) (min_ha : Q)
  (mask : list bool) :
  mapM (fun r => ge_min (cell r col) min_ha) rs = Ok mask ->
  Forall (fun r => comparable_cell (cell r col) = true) rs.
Proof.
  intros H. apply mapM_Ok in H. induction H as [|r b t m Hr _ IH]; constructor;
    [|exact IH].
  destruct (cell r col); simpl in *; try discriminate; reflexivity.
Qed.

(** What the shared body does, whatever the column of the measurement. *)
Lemma filter_by_area_trusts_column
  (K1 K2 : GeomKernel G) (calc_col : string) (fires : GeoDataFrame G) (min_ha : Q) :
  (forall field,
      find (has_column fires) area_candidates = Some field ->
      @filter_by_area G K1 calc_col fires min_ha
        = @filter_by_area G K2 calc_col fires min_ha /\
      ((exists out, @filter_by_area G K1 calc_col fires min_ha = Ok out) <->
       comparable_column fires field) /\
      (forall out,
          @filter_by_area G K1 calc_col fires min_ha = Ok out ->
          columns out = columns fires /\
          rows out = filter (fun r => at_least min_ha (cell r field)) (rows fires) /\
          (forall r, In r (rows fires) -> missing (cell r field) = true ->
                     ~ In r (rows out)))) /\
  (find (has_column fires) area_candidates = None ->
   exists out,
     @filter_by_area G K1 calc_col fires min_ha = Ok out /\
     rows out =
       filter (fun r => at_least min_ha (cell r calc_col))
         (rows (@add_area_ha G K1 fires calc_col)) /\
     (forall r, In r (rows out) ->
        exists r0, In r0 (rows fires) /\
          geometry r = geometry r0 /\
          cell r calc_col
            = VFloat (@Burn.area G K1 (@to_crs G K1 (geometry r0)) / 10000) /\
          min_ha <= @Burn.area G K1 (@to_crs G K1 (geometry r0)) / 10000)).
Proof.
  split.
  - intros field Hf. unfold filter_by_area. rewrite Hf.
    split; [reflexivity|]. split; [split|].
    + intros (out & Hout).
      destruct (mapM (fun r => ge_min (cell r field) min_ha) (rows fires))
        as [mask|e] eqn:Em; simpl in Hout; [|discriminate].
      exact (mask_Ok_comparable _ _ _ _ Em).
    + intros Hcol. rewrite (mask_comparable_column _ _ _ Hcol). simpl. eauto.
    + intros out Hout.
      destruct (mapM (fun r => ge_min (cell r field) min_ha) (rows fires))
        as [mask|e] eqn:Em; simpl in Hout; [|discriminate].
      injection Hout as <-. simpl. apply mask_Ok in Em. subst mask.
      rewrite select_map. repeat split.
      intros r Hr Hmiss Hin. apply filter_In in Hin as [_ Hin].
      destruct (cell r field); simpl in Hmiss, Hin; discriminate.
  - intros Hf. unfold filter_by_area. rewrite Hf.
    assert (Hcol : Forall (fun r : Feature G =>
                             comparable_cell (cell r calc_col) = true)
                     (rows (@add_area_ha G K1 fires calc_col))).
    { apply Forall_forall. intros r Hr. simpl in Hr.
      apply in_map_iff in Hr as (r0 & <- & _).
      unfold cell. simpl. now rewrite lookup_assign. }
    rewrite (mask_comparable_column _ _ _ Hcol). simpl. rewrite select_map.
    eexists. split; [reflexivity|]. split; [reflexivity|].
    simpl. intros r Hr. apply filter_In in Hr as [Hr Hge].
    apply in_map_iff in Hr as (r0 & <- & Hr0).
    exists r0. split; [assumption|]. split; [reflexivity|].
    unfold cell in *. simpl in *. rewrite lookup_assign in *.
    split; [reflexivity|]. simpl in Hge. now apply Qle_bool_iff.
Qed.

(** C9.  In each of the scripts, when one of the candidate columns exists
    the filter compares the first of them and nothing else: its outcome
    does not depend on how areas are measured; it returns a frame exactly
    when that column holds no text; and the frame it returns has the
    columns of the input and exactly the rows whose cell is a number at
    least [min_ha], so that a fire whose cell is missing (NaN or [None]) is
    left out and gets no measured area.  Only when no candidate column
    exists is the area measured, into [area_ha_geom] in scripts 11 and 12
    and into [area_ha_calc] in script 13, and that column compared. *)
Theorem filter_fires_min_ha_trusts_column
  (K1 K2 : GeomKernel G) (calc_col : string)
  (filter_fires : GeomKernel G -> GeoDataFrame G -> Q -> result (GeoDataFrame G))
  (fires : GeoDataFrame G) (min_ha : Q) :
  In (calc_col, filter_fires) script_filters ->
  (forall field,
      find (has_column fires) area_candidates = Some field ->
      filter_fires K1 fires min_ha = filter_fires K2 fires min_ha /\
      ((exists out, filter_fires K1 fires min_ha = Ok out) <->
       comparable_column fires field) /\
      (forall out,
          filter_fires K1 fires min_ha = Ok out ->
          columns out = columns fires /\
          rows out = filter (fun r => at_least min_ha (cell r field)) (rows fires) /\
          (forall r, In r (rows fires) -> missing (cell r field) = true ->
                     ~ In r (rows out)))) /\
  (find (has_column fires) area_candidates = None ->
   exists out,
     filter_fires K1 fires min_ha = Ok out /\
     rows out =
       filter (fun r => at_least min_ha (cell r calc_col))
         (rows (@add_area_ha G K1 fires calc_col)) /\
     (forall r, In r (rows out) ->
        exists r0, In r0 (rows fires) /\
          geometry r = geometry r0 /\
          cell r calc_col
            = VFloat (@Burn.area G K1 (@to_crs G K1 (geometry r0)) / 10000) /\
          min_ha <= @Burn.area G K1 (@to_crs G K1 (geometry r0)) / 10000)).
Proof.
  intros [E|[E|[]]]; injection E as <- <-;
    apply filter_by_area_trusts_column.
Qed.

End FilterFacts.

Module FireSamples.
Import Py Burn.

Definition fire (props : list (string * Value)) (g : Raster.t) : Feature Raster.t :=
  {| properties := props; geometry := g |}.

(** Three fires read from a file that has the column [area_ha]; the second
    has no value there although it covers four cells. *)
Definition fires_with_column : GeoDataFrame Raster.t :=
  {| columns := ["id"; "area_ha"; "geometry"]%string;
     rows :=
       [fire [("id", VInt 1); ("area_ha", VFloat 45)]%string (Raster.rect 0 0 1 1);
        fire [("id", VInt 2); ("area_ha", VNaN)]%string (Raster.rect 0 0 2 2);
        fire [("id", VInt 3); ("area_ha", VFloat 12)]%string (Raster.rect 2 2 3 3)] |}.

(** The same fires from a file without any area column. *)
Definition fires_without_column : GeoDataFrame Raster.t :=
  {| columns := ["id"; "geometry"]%string;
     rows :=
       [fire [("id", VInt 1)]%string (Raster.rect 0 0 1 1);
        fire [("id", VInt 2)]%string (Raster.rect 0 0 2 2);
        fire [("id", VInt 3)]%string (Raster.rect 2 2 3 3)] |}.

(** A column of objects: the second fire holds [None]. *)
Definition fires_with_none : GeoDataFrame Raster.t :=
  {| columns := ["id"; "area_ha"; "geometry"]%string;
     rows :=
       [fire [("id", VInt 1); ("area_ha", VFloat 45)]%string (Raster.rect 0 0 1 1);
        fire [("id", VInt 2); ("area_ha", VNone)]%string (Raster.rect 0 0 2 2)] |}.

End FireSamples.

Section FilterExamples.
Import Py Burn FireSamples.

Example filter_with_column :
  exists out,
    filter_fires_min_ha fires_with_column 30 = Ok out /\
    map (fun r => cell r "id") (rows out) = [VInt 1].
Proof. eexists. split; vm_compute; reflexivity. Qed.

Example filter_with_none :
  exists out,
    filter_fires_min_ha fires_with_none 30 = Ok out /\
    map (fun r => cell r "id") (rows out) = [VInt 1].
Proof. eexists. split; vm_compute; reflexivity. Qed.

Example filter_without_column :
  exists out,
    filter_fires_min_ha fires_without_column 3 = Ok out /\
    map (fun r => cell r "id") (rows out) = [VInt 2] /\
    columns out = ["id"; "geometry"; "area_ha_geom"]%string.
Proof. eexists. split; [|split]; vm_compute; reflexivity. Qed.

Example filter_without_column_13 :
  exists out,
    filter_fires_min_ha_13 fires_without_column 3 = Ok out /\
    map (fun r => cell r "id") (rows out) = [VInt 2] /\
    columns out = ["id"; "geometry"; "area_ha_calc"]%string.
Proof. eexists. split; [|split]; vm_compute; reflexivity. Qed.

(** C9, witness: script 11 on the frame with the column [area_ha] and a
    NaN in it. *)
Lemma filter_fires_min_ha_trusts_column_witness :
  exists out, filter_fires_min_ha fires_with_column 30 = Ok out.
Proof.
  destruct (filter_fires_min_ha_trusts_column Raster.kernel Raster.kernel
              "area_ha_geom" (fun K => @filter_fires_min_ha Raster.t K)
              fires_with_column 30) as [H _]; [left; reflexivity|].
  destruct (H "area_ha"%string) as (_ & Hex & _); [reflexivity|].
  apply Hex. repeat constructor.
Defined.

End FilterExamples.

(** ** Sums of rationals *)

Section SumFacts.
Import Burn.

Lemma sum_app (l1 l2 : list Q) : sum (l1 ++ l2) == sum l1 + sum l2.
Proof.
  induction l1 as [|x t IH]; simpl; [ring|]. rewrite IH. ring.
Qed.

Lemma sum_perm (l l' : list Q) : Permutation l l' -> sum l == sum l'.
Proof.
  induction 1; simpl; try ring.
  - now rewrite IHPermutation.
  - now rewrite IHPermutation1.
Qed.

Lemma sum_map_ext {A : Type} (f g : A -> Q) (l : list A) :
  (forall x, In x l -> f x == g x) -> sum (map f l) == sum (map g l).
Proof.
  induction l as [|x t IH]; intros H; simpl; [reflexivity|].
  rewrite (H x (or_introl eq_refl)), IH; [reflexivity|].
  intros y Hy. apply H. now right.
Qed.

Lemma sum_map_plus {A : Type} (f g : A -> Q) (l : list A) :
  sum (map (fun x => f x + g x) l) == sum (map f l) + sum (map g l).
Proof.
  induction l as [|x t IH]; simpl; [ring|]. rewrite IH. ring.
Qed.

Lemma sum_map_zero {A : Type} (l : list A) : sum (map (fun _ => 0) l) == 0.
Proof. induction l as [|x t IH]; simpl; [reflexivity|]. rewrite IH. ring. Qed.

Lemma sum_flat_map {A B : Type} (f : B -> Q) (h : A -> list B) (l : list A) :
  sum (map f (flat_map h l)) == sum (map (fun x => sum (map f (h x))) l).
Proof.
  induction l as [|x t IH]; simpl; [reflexivity|].
  rewrite map_app, sum_app, IH. reflexivity.
Qed.

Lemma sum_swap {A B : Type} (F : A -> B -> Q) (xs : list A) (ys : list B) :
  sum (map (fun x => sum (map (fun y => F x y) ys)) xs)
  == sum (map (fun y => sum (map (fun x => F x y) xs)) ys).
Proof.
  induction xs as [|x t IH]; simpl.
  - now rewrite sum_map_zero.
  - rewrite IH, <- sum_map_plus. reflexivity.
Qed.

Lemma sum_map_div {A : Type} (f : A -> Q) (c : Q) (l : list A) :
  sum (map (fun x => f x / c) l) == sum (map f l) / c.
Proof.
  induction l as [|x t IH]; simpl.
  - unfold Qdiv. ring.
  - rewrite IH. unfold Qdiv. ring.
Qed.

End SumFacts.

(** ** The burned-area table *)

Section LabelFacts.
Import Burn.

Lemma insert_label_perm (s : string) (l : list string) :
  Permutation (s :: l) (insert_label s l).
Proof.
  induction l as [|x t IH]; simpl; [apply Permutation_refl|].
  destruct (String.leb s x); [apply Permutation_refl|].
  eapply perm_trans; [apply perm_swap|]. now apply perm_skip.
Qed.

Lemma sort_labels_perm (l : list string) : Permutation l (sort_labels l).
Proof.
  induction l as [|x t IH]; simpl; [constructor|].
  eapply perm_trans; [|apply insert_label_perm]. now apply perm_skip.
Qed.

Lemma unique_labels_In (l : list string) (x : string) :
  In x (unique_labels l) <-> In x l.
Proof.
  unfold unique_labels. rewrite <- (nodup_In string_dec l x). split.
  - apply Permutation_in. apply Permutation_sym, sort_labels_perm.
  - apply Permutation_in. apply sort_labels_perm.
Qed.

Lemma unique_labels_NoDup (l : list string) : NoDup (unique_labels l).
Proof.
  unfold unique_labels.
  apply (Permutation_NoDup (sort_labels_perm _)). apply NoDup_nodup.
Qed.

(** [dissolve] leaves one row per label. *)
Lemma dissolve_NoDup {G : Type} {K : GeomKernel G} (ccaa : list (option string * G)) :
  NoDup (map fst (dissolve ccaa)).
Proof.
  unfold dissolve. rewrite map_map. simpl. rewrite map_id.
  apply unique_labels_NoDup.
Qed.

End LabelFacts.

Section TableFacts.
Import Py Burn.

Context {G : Type} {K : GeomKernel G}.

Lemma overlay_In (ccaa_m : list (string * G)) (fires_m : list G) (n : string) (p : G) :
  In (n, p) (overlay ccaa_m fires_m) <->
  exists g e, In (n, g) ccaa_m /\ In e fires_m /\
              p = intersection g e /\ is_empty p = false.
Proof.
  unfold overlay. rewrite in_flat_map. split.
  - intros ([n' g] & Hb & H). apply in_flat_map in H as (e & He & H).
    simpl in H. destruct (is_empty (intersection g e)) eqn:E; [destruct H|].
    destruct H as [H|[]]. injection H as <- <-. exists g, e. auto.
  - intros (g & e & Hb & He & -> & Hne). exists (n, g). split; [assumption|].
    apply in_flat_map. exists e. split; [assumption|]. simpl.
    rewrite Hne. now left.
Qed.

Lemma groupby_sum_label (inter : list (string * Q)) (b : string * Q) :
  In b (groupby_sum inter) -> In (fst b) (map fst inter).
Proof.
  unfold groupby_sum. intros H. apply in_map_iff in H as (n & <- & Hn).
  simpl. now apply (proj1 (unique_labels_In _ _)) in Hn.
Qed.

Lemma merge_left_In (surface_df burn : list (string * Q)) (s : string * Q) :
  In s surface_df ->
  match filter (fun b => String.eqb (fst b) (fst s)) burn with
  | [] => In (fst s, snd s, None) (merge_left surface_df burn)
  | m :: _ => In (fst s, snd s, Some (snd m)) (merge_left surface_df burn)
  end.
Proof.
  intros Hs. unfold merge_left.
  destruct (filter (fun b => String.eqb (fst b) (fst s)) burn) as [|m ms] eqn:E;
    apply in_flat_map; exists s; (split; [assumption|]); rewrite E; now left.
Qed.

(** The row that [out] builds from a row of the merge. *)
Definition out_row (m : string * Q * option Q) : OutRow :=
  let '(name, total, burn) := m in
  {| NAMEUNIT := name;
     area_total_ha := total;
     burn_ha := fillna burn;
     pct := Pandas.mul (Pandas.div (fillna burn) total) 100 |}.

Lemma out_unfold (ccaa_diss : list (string * G)) (fires_big : list G) :
  out ccaa_diss fires_big =
  map out_row
    (merge_left
       (map (fun r => (fst r, area (to_crs (snd r)) / 10000)) ccaa_diss)
       (groupby_sum
          (map (fun r => (fst r, area (snd r) / 10000))
             (overlay (map (fun r => (fst r, to_crs (snd r))) ccaa_diss)
                (map to_crs fires_big))))).
Proof. reflexivity. Qed.

Lemma pct_unburned (total : Q) :
  (~ total == 0 ->
   exists p, Pandas.mul (Pandas.div 0 total) 100 = Pandas.Fin p /\ p == 0) /\
  (total == 0 -> Pandas.mul (Pandas.div 0 total) 100 = Pandas.NaN).
Proof.
  unfold Pandas.div. split; intros H.
  - destruct (Qeq_bool total 0) eqn:E; [apply Qeq_bool_iff in E; contradiction|].
    simpl. eexists. split; [reflexivity|]. unfold Qdiv. ring.
  - apply Qeq_bool_iff in H. rewrite H. reflexivity.
Qed.

Lemma main_table_exists (ccaa_diss : list (string * G)) (fires_big : list G) :
  exists table, main_table ccaa_diss fires_big table.
Proof.
  eexists. unfold main_table. apply stable_sort_desc_admitted.
Qed.

(** C4 (amended).  The table has a row for every label of the dissolved
    boundaries, with the total area of the boundary.  When no fire meets
    any boundary of the label, the burned area of that row is 0; its
    percentage is 0 when the total area is not zero, and NaN, the result
    of 0.0 / 0.0, when it is. *)
Theorem every_label_has_a_row (ccaa_diss : list (string * G)) (fires_big : list G) :
  (exists table, main_table ccaa_diss fires_big table) /\
  (forall table name geom,
      main_table ccaa_diss fires_big table ->
      In (name, geom) ccaa_diss ->
      exists row,
        In row table /\
        NAMEUNIT row = name /\
        area_total_ha row = area (to_crs geom) / 10000 /\
        ((forall geom' e,
             In (name, geom') ccaa_diss -> In e fires_big ->
             is_empty (intersection (to_crs geom') (to_crs e)) = true) ->
         burn_ha row = 0 /\
         (~ area_total_ha row == 0 ->
          exists p, pct row = Pandas.Fin p /\ p == 0) /\
         (area_total_ha row == 0 -> pct row = Pandas.NaN))).
Proof.
  split; [apply main_table_exists|].
  intros table name geom Htable Hin.
  apply sort_values_desc_perm in Htable.
  rewrite out_unfold in Htable.
  set (surface_df := map (fun r => (fst r, area (to_crs (snd r)) / 10000)) ccaa_diss) in *.
  set (burn := groupby_sum _) in *.
  assert (Hs : In (name, area (to_crs geom) / 10000) surface_df).
  { unfold surface_df. apply in_map_iff. exists (name, geom). auto. }
  pose proof (merge_left_In surface_df burn _ Hs) as Hm. simpl in Hm.
  destruct (filter (fun b => String.eqb (fst b) name) burn) as [|m ms] eqn:E.
  - exists (out_row (name, area (to_crs geom) / 10000, None)).
    split; [eapply Permutation_in; [exact Htable|now apply in_map]|].
    split; [reflexivity|]. split; [reflexivity|]. intros _.
    split; [reflexivity|]. apply pct_unburned.
  - exists (out_row (name, area (to_crs geom) / 10000, Some (snd m))).
    split; [eapply Permutation_in; [exact Htable|now apply in_map]|].
    split; [reflexivity|]. split; [reflexivity|]. intros Hnone. exfalso.
    assert (Hmb : In m (filter (fun b => String.eqb (fst b) name) burn))
      by (rewrite E; now left).
    apply filter_In in Hmb as [Hmb Hname]. apply String.eqb_eq in Hname.
    apply groupby_sum_label in Hmb. rewrite map_map in Hmb. simpl in Hmb.
    apply in_map_iff in Hmb as ([n p] & Hn & Hp). simpl in Hn.
    rewrite Hname in Hn. subst n.
    apply overlay_In in Hp as (g & e & Hg & He & -> & Hne).
    apply in_map_iff in Hg as ([n' geom'] & Hg & Hin'). simpl in Hg.
    injection Hg as -> <-.
    apply in_map_iff in He as (e0 & <- & He0).
    rewrite (Hnone geom' e0) in Hne; [discriminate|assumption|assumption].
Qed.

End TableFacts.

Section TotalFacts.
Import Py Burn.

Context {G : Type} {K : GeomKernel G}.

(** The sum of a column over the rows of one label. *)
Definition group_sum (inter : list (string * Q)) (name : string) : Q :=
  sum (map snd (filter (fun r => String.eqb (fst r) name) inter)).

Lemma sum_burn_matches (name : string) (total : Q) (ms : list (string * Q)) :
  sum (map burn_ha (map out_row (map (fun b => (name, total, Some (snd b))) ms)))
  == sum (map snd ms).
Proof.
  induction ms as [|m t IH]; simpl; [reflexivity|]. now rewrite IH.
Qed.

Lemma sum_burn_merge (surface_df burn : list (string * Q)) :
  sum (map burn_ha (map out_row (merge_left surface_df burn)))
  == sum (map (fun s => group_sum burn (fst s)) surface_df).
Proof.
  induction surface_df as [|s t IH]; [reflexivity|].
  unfold merge_left in *. simpl flat_map. rewrite !map_app, sum_app, IH.
  simpl. apply Qplus_inj_r. unfold group_sum.
  destruct (filter (fun b => String.eqb (fst b) (fst s)) burn) as [|m ms] eqn:E.
  - simpl. ring.
  - apply (sum_burn_matches (fst s) (snd s) (m :: ms)).
Qed.

Lemma group_sum_absent (inter : list (string * Q)) (name : string) :
  ~ In name (map fst inter) -> group_sum inter name == 0.
Proof.
  intros H. unfold group_sum.
  replace (filter (fun r => String.eqb (fst r) name) inter) with (@nil (string * Q));
    [reflexivity|].
  symmetry. induction inter as [|r t IH]; [reflexivity|]. simpl.
  destruct (String.eqb (fst r) name) eqn:E.
  - apply String.eqb_eq in E. exfalso. apply H. now left.
  - apply IH. intros Hin. apply H. now right.
Qed.

Lemma group_sum_groupby_keys (g : string -> Q) (L : list string) (name : string) :
  NoDup L ->
  group_sum (map (fun n => (n, g n)) L) name
  == if in_dec string_dec name L then g name else 0.
Proof.
  unfold group_sum. induction 1 as [|m L' Hm Hnd IH]; simpl; [reflexivity|].
  destruct (String.eqb m name) eqn:E.
  - apply String.eqb_eq in E. subst m. simpl.
    destruct (string_dec name name) as [Heq|Hne]; [|contradiction].
    rewrite IH. destruct (in_dec string_dec name L'); [contradiction|ring].
  - apply String.eqb_neq in E. rewrite IH.
    destruct (string_dec m name) as [Heq|Hne]; [contradiction|].
    destruct (in_dec string_dec name L'); reflexivity.
Qed.

(** After [groupby(...).sum()] the rows of a label hold the sum of the
    group. *)
Lemma group_sum_groupby (inter : list (string * Q)) (name : string) :
  group_sum (groupby_sum inter) name == group_sum inter name.
Proof.
  unfold groupby_sum.
  rewrite (group_sum_groupby_keys (group_sum inter)) by apply unique_labels_NoDup.
  destruct (in_dec string_dec name (unique_labels (map fst inter))) as [Hy|Hn];
    [reflexivity|].
  symmetry. apply group_sum_absent. intros H. apply Hn. now apply unique_labels_In.
Qed.

Lemma indicator_sum (names : list string) (x : string) (v : Q) :
  NoDup names -> In x names ->
  sum (map (fun n => if String.eqb x n then v else 0) names) == v.
Proof.
  induction 1 as [|m t Hm Hnd IH]; intros Hin; [destruct Hin|]. simpl.
  destruct Hin as [->|Hin].
  - rewrite String.eqb_refl.
    rewrite (sum_map_ext _ (fun _ => 0)); [rewrite sum_map_zero; ring|].
    intros n Hn. destruct (String.eqb x n) eqn:E; [|reflexivity].
    apply String.eqb_eq in E. subst n. contradiction.
  - destruct (String.eqb x m) eqn:E.
    + apply String.eqb_eq in E. subst m. contradiction.
    + rewrite IH by assumption. ring.
Qed.

(** Labels that are all different split the rows into their groups. *)
Lemma sum_over_groups (names : list string) (inter : list (string * Q)) :
  NoDup names ->
  (forall r, In r inter -> In (fst r) names) ->
  sum (map (group_sum inter) names) == sum (map snd inter).
Proof.
  intros Hnd. induction inter as [|r t IH]; intros Hin.
  - unfold group_sum. simpl. apply sum_map_zero.
  - simpl. rewrite <- IH by (intros r' Hr'; apply Hin; now right).
    rewrite <- (indicator_sum names (fst r) (snd r) Hnd (Hin r (or_introl eq_refl))).
    rewrite <- sum_map_plus. apply sum_map_ext. intros n _.
    unfold group_sum. simpl. destruct (String.eqb (fst r) n); simpl; ring.
Qed.

Lemma sum_overlay (ccaa_m : list (string * G)) (fires_m : list G) :
  sum (map (fun r => area (snd r) / 10000) (overlay ccaa_m fires_m))
  == sum (map (fun e =>
                 sum (map (fun b => area (intersection (snd b) e) / 10000) ccaa_m))
            fires_m).
Proof.
  unfold overlay. rewrite sum_flat_map.
  rewrite <- (sum_swap (fun b e => area (intersection (snd b) e) / 10000)).
  apply sum_map_ext. intros b _. rewrite sum_flat_map.
  apply sum_map_ext. intros e _.
  destruct (is_empty (intersection (snd b) e)) eqn:E; simpl.
  - rewrite (area_is_empty _ E). unfold Qdiv. ring.
  - ring.
Qed.

(** Boundaries that share no area: the overlap of a fire with their union
    is the sum of its overlaps with each. *)
Lemma area_disjoint_from_union (b : G) (bs : list G) :
  Forall (fun b' => area (intersection b b') == 0) bs ->
  area (intersection b (unary_union bs)) == 0.
Proof.
  induction 1 as [|x t Hx _ IH]; simpl.
  - apply Qle_antisym; [|apply area_nonneg].
    rewrite area_intersection_comm.
    eapply Qle_trans; [apply area_intersection_le|]. rewrite area_empty. apply Qle_refl.
  - apply Qle_antisym; [|apply area_nonneg].
    rewrite area_intersection_comm.
    pose proof (area_incl_excl x (unary_union t) b) as H.
    pose proof (area_nonneg (intersection (intersection x (unary_union t)) b)) as H0.
    rewrite (area_intersection_comm x b), (area_intersection_comm (unary_union t) b) in H.
    rewrite Hx, IH in H. lra.
Qed.

Lemma area_union_disjoint (bs : list G) (e : G) :
  ForallOrdPairs (fun a b => area (intersection a b) == 0) bs ->
  area (intersection (unary_union bs) e)
  == sum (map (fun b => area (intersection b e)) bs).
Proof.
  induction 1 as [|b t Hb _ IH]; simpl.
  - apply Qle_antisym; [|apply area_nonneg].
    eapply Qle_trans; [apply area_intersection_le|]. rewrite area_empty. apply Qle_refl.
  - pose proof (area_incl_excl b (unary_union t) e) as H.
    pose proof (area_nonneg (intersection (intersection b (unary_union t)) e)) as H0.
    pose proof (area_intersection_le (intersection b (unary_union t)) e) as H1.
    rewrite (area_disjoint_from_union b t Hb) in H1.
    rewrite <- IH. lra.
Qed.

End TotalFacts.

Section TotalTheorem.
Import Py Burn.

Context {G : Type} {K : GeomKernel G}.

Lemma overlay_labels (ccaa_diss : list (string * G)) (fires_m : list G) (r : string * Q) :
  In r (map (fun r => (fst r, area (snd r) / 10000))
          (overlay (map (fun r => (fst r, to_crs (snd r))) ccaa_diss) fires_m)) ->
  In (fst r) (map fst ccaa_diss).
Proof.
  intros H. apply in_map_iff in H as ([n p] & <- & Hp). simpl.
  apply overlay_In in Hp as (g & e & Hg & _).
  apply in_map_iff in Hg as (b & Hb & Hin). injection Hb as <- _.
  now apply in_map.
Qed.

(** The burned areas of the table add up to the overlaps of every fire
    with every boundary. *)
Lemma burned_total_pairwise (ccaa_diss : list (string * G)) (fires_big : list G)
  (table : list OutRow) :
  NoDup (map fst ccaa_diss) ->
  main_table ccaa_diss fires_big table ->
  sum (map burn_ha table)
  == sum (map (fun e =>
                 sum (map (fun b =>
                             area (intersection (to_crs (snd b)) (to_crs e)) / 10000)
                        ccaa_diss))
            fires_big).
Proof.
  intros Hnd Htable. apply sort_values_desc_perm in Htable.
  rewrite <- (sum_perm _ _ (Permutation_map burn_ha Htable)).
  rewrite out_unfold, sum_burn_merge.
  set (inter := map (fun r => (fst r, area (snd r) / 10000)) _).
  rewrite (sum_map_ext _ (fun s => group_sum inter (fst s)))
    by (intros s _; apply group_sum_groupby).
  rewrite map_map. simpl.
  rewrite <- (map_map fst (group_sum inter)).
  rewrite sum_over_groups; [|assumption|apply overlay_labels].
  unfold inter. rewrite map_map. simpl. rewrite sum_overlay.
  rewrite map_map. apply sum_map_ext. intros e _.
  rewrite map_map. reflexivity.
Qed.

(** C2 (amended).  On dissolved boundaries, one row per label, the burned
    areas of the table add up to the overlaps of every qualifying fire with
    every boundary.  When no two boundaries share area, that is the sum
    over the fires of the area each has in common with the union of the
    boundaries. *)
Theorem burned_total_is_union_overlap (ccaa_diss : list (string * G))
  (fires_big : list G) (table : list OutRow) :
  NoDup (map fst ccaa_diss) ->
  ForallOrdPairs (fun a b => area (intersection a b) == 0)
    (map (fun r => to_crs (snd r)) ccaa_diss) ->
  main_table ccaa_diss fires_big table ->
  sum (map burn_ha table)
  == sum (map (fun e =>
                 area (intersection
                         (unary_union (map (fun r => to_crs (snd r)) ccaa_diss))
                         (to_crs e)) / 10000)
            fires_big).
Proof.
  intros Hnd Hdisj Htable.
  rewrite (burned_total_pairwise _ _ _ Hnd Htable).
  apply sum_map_ext. intros e _.
  rewrite sum_map_div, (area_union_disjoint _ (to_crs e) Hdisj), map_map.
  reflexivity.
Qed.

End TotalTheorem.

Module TableSamples.
Import Py Burn.

(** Two boundaries side by side, and two that share the cell (1, 1). *)
Definition side_by_side : list (string * Raster.t) :=
  [("Norte", Raster.rect 0 0 2 4); ("Sur", Raster.rect 2 0 4 4)]%string.

Definition overlapping : list (string * Raster.t) :=
  [("Norte", Raster.rect 0 0 2 2); ("Sur", Raster.rect 1 1 3 3)]%string.

(** A boundary without area, as the buffer of a point leaves it. *)
Definition isla : list (string * Raster.t) := [("Isla", Raster.empty)]%string.

Definition region_a : list (string * Raster.t) :=
  [("Region A", Raster.rect 0 0 4 4)]%string.

(** The table with the ties in their original order. *)
Definition table_of (ccaa_diss : list (string * Raster.t)) (fires_big : list Raster.t)
  : list OutRow :=
  Pandas.stable_sort_desc pct (out ccaa_diss fires_big).

Definition summary (row : OutRow) : string * Q * Q :=
  (NAMEUNIT row, Qred (area_total_ha row), Qred (burn_ha row)).

End TableSamples.

Section TableExamples.
Import Py Burn TableSamples.

(** One boundary of 16 ha, two fires that meet it on 3 ha and 2 ha. *)
Example table_region_a :
  map summary (table_of region_a [Raster.rect 0 0 3 1; Raster.rect 0 2 2 3])
    = [("Region A"%string, 16, 5)] /\
  exists p,
    map pct (table_of region_a [Raster.rect 0 0 3 1; Raster.rect 0 2 2 3]) = [Pandas.Fin p]
    /\ p == 31.25.
Proof.
  split; [vm_compute; reflexivity|]. eexists. split; [vm_compute; reflexivity|reflexivity].
Qed.

Lemma side_by_side_disjoint :
  ForallOrdPairs (fun a b => area (intersection a b) == 0)
    (map (fun r => to_crs (snd r)) side_by_side).
Proof.
  constructor; [|constructor; constructor].
  constructor; [|constructor]. vm_compute. reflexivity.
Defined.

Lemma labels_differ (a b : string) (ga gb : Raster.t) :
  String.eqb a b = false -> NoDup (map fst [(a, ga); (b, gb)]).
Proof.
  intros H. apply String.eqb_neq in H. simpl.
  constructor; [intros [E|[]]; congruence|].
  constructor; [intros []|constructor].
Defined.

(** C2, witness: a fire across the line between two boundaries side by
    side. *)
Lemma burned_total_is_union_overlap_witness :
  sum (map burn_ha (table_of side_by_side [Raster.rect 1 1 3 2]))
  == sum (map (fun e =>
                 area (intersection
                         (unary_union (map (fun r => to_crs (snd r)) side_by_side))
                         (to_crs e)) / 10000)
            [Raster.rect 1 1 3 2]).
Proof.
  apply (burned_total_is_union_overlap side_by_side [Raster.rect 1 1 3 2]).
  - apply labels_differ. reflexivity.
  - exact side_by_side_disjoint.
  - apply stable_sort_desc_admitted.
Defined.

(** C2, counterexample.  Two boundaries share the cell (1, 1) and a fire
    burns that cell: the table counts it under both labels, 2 ha in all,
    while the fire has 1 ha in common with the union of the boundaries. *)
Lemma burned_total_double_counts :
  NoDup (map fst overlapping) /\
  main_table overlapping [Raster.rect 1 1 2 2]
    (table_of overlapping [Raster.rect 1 1 2 2]) /\
  sum (map burn_ha (table_of overlapping [Raster.rect 1 1 2 2])) == 2 /\
  sum (map (fun e =>
              area (intersection
                      (unary_union (map (fun r => to_crs (snd r)) overlapping))
                      (to_crs e)) / 10000)
         [Raster.rect 1 1 2 2]) == 1 /\
  ~ sum (map burn_ha (table_of overlapping [Raster.rect 1 1 2 2]))
    == sum (map (fun e =>
                   area (intersection
                           (unary_union (map (fun r => to_crs (snd r)) overlapping))
                           (to_crs e)) / 10000)
              [Raster.rect 1 1 2 2]).
Proof.
  split; [apply labels_differ; reflexivity|].
  split; [apply stable_sort_desc_admitted|].
  split; [vm_compute; reflexivity|].
  split; [vm_compute; reflexivity|].
  intros H. vm_compute in H. discriminate.
Qed.

(** C4, witness: a fire inside the first of two boundaries; the second
    has its row. *)
Lemma every_label_has_a_row_witness :
  exists row,
    In row (table_of side_by_side [Raster.rect 0 0 1 1]) /\
    NAMEUNIT row = "Sur"%string /\
    area_total_ha row = area (to_crs (Raster.rect 2 0 4 4)) / 10000 /\
    ((forall geom' e,
         In ("Sur"%string, geom') side_by_side -> In e [Raster.rect 0 0 1 1] ->
         is_empty (intersection (to_crs geom') (to_crs e)) = true) ->
     burn_ha row = 0 /\
     (~ area_total_ha row == 0 -> exists p, pct row = Pandas.Fin p /\ p == 0) /\
     (area_total_ha row == 0 -> pct row = Pandas.NaN)).
Proof.
  apply (every_label_has_a_row side_by_side [Raster.rect 0 0 1 1]).
  - apply stable_sort_desc_admitted.
  - right. left. reflexivity.
Defined.

(** C4, counterexample.  A boundary without area and no fire: the row is
    there with a burned area of 0, and its percentage is NaN. *)
Lemma zero_area_label_has_nan_pct :
  main_table isla [] (table_of isla []) /\
  map NAMEUNIT (table_of isla []) = ["Isla"%string] /\
  map burn_ha (table_of isla []) = [0] /\
  map pct (table_of isla []) = [Pandas.NaN].
Proof.
  split; [apply stable_sort_desc_admitted|].
  repeat split; vm_compute; reflexivity.
Qed.

End TableExamples.

(** * Further properties of the renderer *)

(** ** The path of a ring and the transform of its vertices *)

Section PathFacts.
Import Py SmallMultiples.

Lemma ring_cmds_from_tail (tr : Q -> Q -> Q * Q) (coords : list Coord) :
  ring_cmds_from tr false coords
  = map (fun p => ("L"%string, Some (fst (tr (fst p) (snd p))),
                   Some (snd (tr (fst p) (snd p))))) coords.
Proof.
  induction coords as [|[x y] t IH]; simpl; [reflexivity|].
  destruct (tr x y) as [X Y]. simpl. now rewrite IH.
Qed.

(** A ring gives one move-to for its first vertex, one line-to for each of
    the others and one close, every vertex through the transform; a ring
    without vertices gives the close alone. *)
Theorem ring_to_cmds_shape (tr : Q -> Q -> Q * Q) (coords : list Coord) :
  ring_to_cmds tr coords =
    match coords with
    | [] => [("Z"%string, None, None)]
    | p :: t =>
        ("M"%string, Some (fst (tr (fst p) (snd p))), Some (snd (tr (fst p) (snd p))))
        :: map (fun p => ("L"%string, Some (fst (tr (fst p) (snd p))),
                          Some (snd (tr (fst p) (snd p))))) t
        ++ [("Z"%string, None, None)]
    end /\
  List.length (ring_to_cmds tr coords) = S (List.length coords).
Proof.
  split.
  - unfold ring_to_cmds. destruct coords as [|[x y] t]; [reflexivity|].
    simpl. destruct (tr x y) as [X Y]. simpl. now rewrite ring_cmds_from_tail.
  - unfold ring_to_cmds. rewrite length_app. simpl.
    assert (H : forall first, List.length (ring_cmds_from tr first coords)
                              = List.length coords).
    { induction coords as [|[x y] t IH]; intros first; simpl; [reflexivity|].
      destruct (tr x y). simpl. now rewrite IH. }
    rewrite H. lia.
Qed.

End PathFacts.

(** ** Each shape in its own cell *)

Section CellFacts.
Import Py SmallMultiples.

Variable fmt : nat -> Q -> string.





End CellFacts.

(** ** What a successful call draws *)

Section DrawFacts.
Import Py SmallMultiples.

Variable fmt : nat -> Q -> string.

(** A geometry that gets a path: not empty and a polygon or a
    multipolygon. *)
Definition drawable (g : Geometry) : bool :=
  not_empty g &&
  match polys_of g with
  | Some _ => true
  | None => false
  end.

Definition is_path (e : Element) : bool :=
  match e with
  | Path _ _ _ _ => true
  | Text _ _ _ _ => false
  end.

Lemma draw_geom_count cols cell margin fill stroke sw label fs scale i g :
  List.length (filter is_path
                 (draw_geom fmt cols cell margin fill stroke sw label fs scale (i, g)))
  = (if drawable g then 1 else 0)%nat /\
  List.length (draw_geom fmt cols cell margin fill stroke sw label fs scale (i, g))
  = (if drawable g then (if label then 2 else 1) else 0)%nat.
Proof.
  unfold draw_geom, drawable, not_empty.
  destruct (is_empty g); simpl; [auto|].
  destruct (polys_of g); simpl; [|auto].
  destruct label; simpl; auto.
Qed.

Lemma flat_map_count {A B : Type} (f : A -> list B) (p : A -> bool) (k : nat)
  (l : list A) :
  (forall a, List.length (f a) = if p a then k else 0%nat) ->
  List.length (flat_map f l) = (k * List.length (filter p l))%nat.
Proof.
  intros H. induction l as [|a t IH]; simpl; [lia|].
  rewrite length_app, IH, H. destruct (p a); simpl; lia.
Qed.

Lemma filter_enumerate_from {A : Type} (p : A -> bool) (l : list A) :
  forall k, List.length (filter (fun ig => p (snd ig)) (enumerate_from k l))
            = List.length (filter p l).
Proof.
  induction l as [|a t IH]; intros k; simpl; [reflexivity|].
  destruct (p a); simpl; now rewrite IH.
Qed.

Lemma filter_flat_map {A B : Type} (f : A -> list B) (p : B -> bool) (l : list A) :
  filter p (flat_map f l) = flat_map (fun a => filter p (f a)) l.
Proof.
  induction l as [|a t IH]; simpl; [reflexivity|]. now rewrite filter_app, IH.
Qed.

(** A call that returns gives the size of the canvas,
    [margin * 2 + cols * cell] by [margin * 2 + ceil(n / cols) * cell], and
    leaves in the drawing one path for each geometry that is a polygon or
    a multipolygon and not empty, with one text each when [label] is
    set. *)
Theorem draw_returns_canvas_and_paths (geoms : list Geometry)
  (cols cell margin : Z) (fill stroke : string) (sw : Q) (label : bool) (fs : Z)
  (d : list Element) (w h : Z) :
  draw_geoms_to_svg_scaled fmt geoms cols cell margin fill stroke sw label fs
    = (d, Ok (w, h)) ->
  (exists rows,
      ceil_div (Z.of_nat (List.length geoms)) cols = Ok rows /\
      w = (margin * 2 + cols * cell)%Z /\
      h = (margin * 2 + rows * cell)%Z) /\
  List.length (filter is_path d) = List.length (filter drawable geoms) /\
  List.length d
  = ((if label then 2 else 1) * List.length (filter drawable geoms))%nat.
Proof.
  unfold draw_geoms_to_svg_scaled.
  destruct (Z.of_nat (List.length geoms) =? 0)%Z; [discriminate|].
  destruct (ceil_div (Z.of_nat (List.length geoms)) cols) as [rows|e];
    [|discriminate].
  destruct (global_scale cell geoms) as [s|e]; [|discriminate].
  intros H. injection H as <- <- <-.
  split; [exists rows; auto|]. split.
  - rewrite filter_flat_map.
    rewrite (flat_map_count _ (fun ig => drawable (snd ig)) 1%nat).
    + unfold enumerate. rewrite filter_enumerate_from. lia.
    + intros [i g]. apply draw_geom_count.
  - rewrite (flat_map_count _ (fun ig => drawable (snd ig))
               (if label then 2 else 1)%nat).
    + unfold enumerate. now rewrite filter_enumerate_from.
    + intros [i g]. apply draw_geom_count.
Qed.

(** The guarded scale of script 06 never divides by zero: it raises only
    when no geometry is left to measure, and otherwise returns the scale of
    script 02 when both largest extents are positive and 1 when one of
    them is not. *)
Theorem global_scale_06_guarded (cell : Z) (geoms : list Geometry) :
  (filter not_empty geoms = [] /\ global_scale_06 cell geoms = Raise ValueError) \/
  (exists max_w max_h s,
      is_maximum max_w (widths geoms) /\ is_maximum max_h (heights geoms) /\
      global_scale_06 cell geoms = Ok s /\
      (0 < max_w /\ 0 < max_h -> global_scale cell geoms = Ok s) /\
      (max_w <= 0 \/ max_h <= 0 -> s = 1)).
Proof.
  destruct (filter not_empty geoms) as [|g0 t0] eqn:Ef.
  - left. split; [reflexivity|]. unfold global_scale_06. now rewrite Ef.
  - right.
    assert (Hw : widths geoms <> []) by (unfold widths; rewrite Ef; discriminate).
    assert (Hh : heights geoms <> []) by (unfold heights; rewrite Ef; discriminate).
    destruct (max_is_maximum _ Hw) as (mw & Ew & Hmw).
    destruct (max_is_maximum _ Hh) as (mh & Eh & Hmh).
    unfold global_scale_06. fold (widths geoms). fold (heights geoms).
    rewrite Ew, Eh. simpl.
    destruct (Qlt_le_dec 0 mw) as [Pw|Nw]; [destruct (Qlt_le_dec 0 mh) as [Ph|Nh]|].
    + assert (Hw0 : ~ mw == 0) by (intros E; rewrite E in Pw; discriminate).
      assert (Hh0 : ~ mh == 0) by (intros E; rewrite E in Ph; discriminate).
      rewrite (truediv_Ok _ _ Hw0), (truediv_Ok _ _ Hh0). simpl.
      eexists mw, mh, _. repeat split; try apply Hmw; try apply Hmh.
      * intros _. now apply global_scale_Ok.
      * intros [H|H]; exfalso; lra.
    + eexists mw, mh, _. repeat split; try apply Hmw; try apply Hmh.
      intros [_ H]. exfalso. lra.
    + eexists mw, mh, _. repeat split; try apply Hmw; try apply Hmh.
      intros [H _]. exfalso. lra.
Qed.

End DrawFacts.

Section RendererExamples.
Import Py SmallMultiples Samples.


(** A square, a segment and an empty polygon: one path. *)
Lemma draw_returns_canvas_and_paths_witness :
  List.length
    (filter is_path
       (fst (draw_geoms_to_svg_scaled fmt_floor [square 10; segment; empty_polygon]
               14 64 24 "#000" "#000" (4 # 10) true 8)))
  = 1%nat.
Proof.
  apply (draw_returns_canvas_and_paths fmt_floor [square 10; segment; empty_polygon]
           14 64 24 "#000" "#000" (4 # 10) true 8
           (fst (draw_geoms_to_svg_scaled fmt_floor
                   [square 10; segment; empty_polygon]
                   14 64 24 "#000" "#000" (4 # 10) true 8))
           (24 * 2 + 14 * 64)%Z (24 * 2 + 1 * 64)%Z).
  vm_compute. reflexivity.
Defined.

End RendererExamples.

(** * The area column of the renderer: [compute_area_ha] *)

Module AreaMeasurer.
Import Py Burn.

(** [series.notna()] on one cell. *)
Definition notna (v : Value) : bool :=
  match v with
  | VNone | VNaN => false
  | _ => true
  end.

Section Measure.

Variable G : Type.

(** [gdf.to_crs(3035).geometry.area] of one row, in square metres, the
    frame having gone through [ensure_crs_4326]. *)
Variable area_3035 : G -> Q.

(** [float(s)] as [astype(float)] applies it to a cell that holds text. *)
Variable float_of_str : string -> result Pandas.float.

(** [out.astype(float)] on one cell. *)
Definition astype_float (v : Value) : result Pandas.float :=
  match v with
  | VInt z => Ok (Pandas.Fin (inject_Z z))
  | VFloat q => Ok (Pandas.Fin q)
  | VStr s => float_of_str s
  | VNone | VNaN => Ok Pandas.NaN
  end.

Definition measured (r : Feature G) : Q := area_3035 (geometry r) / 10000.

(** [compute_area_ha] of scripts 02, 04 and 06. *)
Definition compute_area_ha (gdf : GeoDataFrame G) (area_col_hint : string)
  : result (list Pandas.float) :=
  if has_column gdf area_col_hint
     && existsb (fun r => notna (cell r area_col_hint)) (rows gdf)
  then
    let out := map (fun r => cell r area_col_hint) (rows gdf) in
    let missing := map (fun v => negb (notna v)) out in
    let out :=
      if existsb (fun b => b) missing
      then map (fun r => if notna (cell r area_col_hint)
                         then cell r area_col_hint
                         else VFloat (measured r)) (rows gdf)
      else out in
    mapM astype_float out
  else Ok (map (fun r => Pandas.Fin (measured r)) (rows gdf)).

End Measure.

End AreaMeasurer.

Section AreaMeasurerFacts.
Import Py Burn AreaMeasurer.

Variable G : Type.
Variable area_3035 : G -> Q.
Variable float_of_str : string -> result Pandas.float.

Lemma existsb_missing (rs : list (Feature G)) (col : string) :
  existsb (fun b : bool => b)
    (map (fun v => negb (notna v)) (map (fun r => cell r col) rs)) = false ->
  map (fun r : Feature G => if notna (cell r col) then cell r col
                            else VFloat (measured G area_3035 r)) rs
  = map (fun r => cell r col) rs.
Proof.
  induction rs as [|r t IH]; simpl; [reflexivity|].
  destruct (notna (cell r col)); simpl; [|discriminate].
  intros H. now rewrite IH.
Qed.

Lemma compute_area_ha_rows (gdf : GeoDataFrame G) (col : string) :
  compute_area_ha G area_3035 float_of_str gdf col =
  if has_column gdf col && existsb (fun r => notna (cell r col)) (rows gdf)
  then mapM (fun r => if notna (cell r col)
                      then astype_float float_of_str (cell r col)
                      else Ok (Pandas.Fin (measured G area_3035 r))) (rows gdf)
  else Ok (map (fun r => Pandas.Fin (measured G area_3035 r)) (rows gdf)).
Proof.
  unfold compute_area_ha.
  destruct (has_column gdf col && existsb _ (rows gdf)); [|reflexivity].
  assert (E : forall rs : list (Feature G),
             mapM (astype_float float_of_str)
               (map (fun r => if notna (cell r col) then cell r col
                              else VFloat (measured G area_3035 r)) rs)
             = mapM (fun r => if notna (cell r col)
                              then astype_float float_of_str (cell r col)
                              else Ok (Pandas.Fin (measured G area_3035 r))) rs).
  { induction rs as [|r t IH]; simpl; [reflexivity|]. rewrite IH.
    destruct (notna (cell r col)); reflexivity. }
  destruct (existsb (fun b : bool => b) _) eqn:Em; [apply E|].
  rewrite <- (existsb_missing _ _ Em). apply E.
Qed.

(** The cell is a number or missing. *)
Definition numeric_or_missing (v : Value) : bool :=
  match v with
  | VStr _ => false
  | _ => true
  end.

(** [compute_area_ha] trusts the area column feature by feature: when the
    column exists and holds at least one value, a feature with a value
    keeps it and a feature without one gets its measured area; when the
    column is absent or holds no value, every feature is measured.  The
    series has one entry per feature, and on a column of numbers the call
    returns and no entry is NaN. *)
Theorem compute_area_ha_trusts_or_measures (gdf : GeoDataFrame G) (col : string) :
  (forall areas,
      compute_area_ha G area_3035 float_of_str gdf col = Ok areas ->
      List.length areas = List.length (rows gdf) /\
      (has_column gdf col = true ->
       Forall2 (fun r a =>
                  (notna (cell r col) = true ->
                   astype_float float_of_str (cell r col) = Ok a) /\
                  (notna (cell r col) = false ->
                   a = Pandas.Fin (measured G area_3035 r)))
         (rows gdf) areas) /\
      (has_column gdf col = false \/
       Forall (fun r => notna (cell r col) = false) (rows gdf) ->
       areas = map (fun r => Pandas.Fin (measured G area_3035 r)) (rows gdf))) /\
  (Forall (fun r => numeric_or_missing (cell r col) = true) (rows gdf) ->
   exists areas,
     compute_area_ha G area_3035 float_of_str gdf col = Ok areas /\
     Forall (fun a => Pandas.isna a = false) areas).
Proof.
  rewrite compute_area_ha_rows. split.
  - intros areas H.
    destruct (has_column gdf col) eqn:Ec; simpl in H.
    + destruct (existsb (fun r => notna (cell r col)) (rows gdf)) eqn:Ee.
      * pose proof (mapM_length _ _ _ H) as Hlen. apply mapM_Ok in H.
        split; [assumption|]. split.
        -- intros _. eapply Forall2_impl; [|exact H]. intros r a Hr. simpl in Hr.
           destruct (notna (cell r col)); split; intros E; try discriminate;
             congruence.
        -- intros [Hf|Hall]; [discriminate|]. exfalso.
           apply existsb_exists in Ee as (r & Hr & Hn).
           rewrite Forall_forall in Hall. rewrite (Hall r Hr) in Hn. discriminate.
      * injection H as <-. rewrite length_map. split; [reflexivity|].
        split; [|reflexivity]. intros _.
        assert (Hall : forall r, In r (rows gdf) -> notna (cell r col) = false).
        { intros r Hr. destruct (notna (cell r col)) eqn:En; [|reflexivity].
          assert (Hex : existsb (fun r => notna (cell r col)) (rows gdf) = true)
            by (apply existsb_exists; eauto).
          congruence. }
        clear Ee. induction (rows gdf) as [|r t IH]; simpl; constructor.
        -- rewrite (Hall r (or_introl eq_refl)). split; [discriminate|reflexivity].
        -- apply IH. intros r' Hr'. apply Hall. now right.
    + injection H as <-. rewrite length_map. split; [reflexivity|].
      split; [discriminate|reflexivity].
  - intros Hnum.
    destruct (has_column gdf col && existsb (fun r => notna (cell r col)) (rows gdf)).
    + induction Hnum as [|r t Hr _ (areas & IH & Hna)]; simpl.
      * exists []. split; [reflexivity|constructor].
      * rewrite IH.
        destruct (cell r col) eqn:Ev; simpl in *; try discriminate;
          eexists; (split; [reflexivity|]); constructor; auto.
    + eexists. split; [reflexivity|]. apply Forall_forall.
      intros a Ha. apply in_map_iff in Ha as (r & <- & _). reflexivity.
Qed.

End AreaMeasurerFacts.

(** * The two subsets of script 06 *)

Module Subsets.
Import Py ColorRules.

Section Split.

Variable to_datetime : Value -> result Timestamp.



End Split.

End Subsets.

Section SubsetFacts.
Import Py ColorRules Subsets.

Variable to_datetime : Value -> result Timestamp.
Variable int_of_str : string -> result Z.




(** The rules of script 04 are tried in order and the first that holds
    decides.  A date on or after the cutoff gives the recent colour
    without the year being read, so whatever [fireyear] holds; otherwise
    the year decides between the colour of 2025 and the default one. *)
Theorem pick_color_first_match (row : Row) (cutoff : datetime) :
  aware cutoff = true ->
  (forall fd,
      parse_firedate to_datetime (get row "firedate") = Ok (Some fd) ->
      (micros cutoff <= micros fd)%Z ->
      pick_color to_datetime int_of_str row cutoff = Ok COLOR_RECENT) /\
  (forall year,
      (parse_firedate to_datetime (get row "firedate") = Ok None \/
       exists fd,
         parse_firedate to_datetime (get row "firedate") = Ok (Some fd) /\
         (micros fd < micros cutoff)%Z) ->
      int int_of_str (get row "fireyear") = Ok year ->
      pick_color to_datetime int_of_str row cutoff
      = Ok (if (year =? 2025)%Z then COLOR_2025 else COLOR_DEFAULT)) /\
  (forall color,
      pick_color to_datetime int_of_str row cutoff = Ok color ->
      color = COLOR_RECENT \/ color = COLOR_2025 \/ color = COLOR_DEFAULT).
Proof.
  intros Hc.
  assert (Hge : forall fd,
             datetime_ge (if aware fd then fd else replace_tzinfo_utc fd) cutoff
             = Ok (micros cutoff <=? micros fd)%Z).
  { intros fd. unfold datetime_ge. rewrite Hc.
    destruct (aware fd) eqn:Ea; simpl; [rewrite Ea|]; reflexivity. }
  split; [|split].
  - intros fd Hp Hle. unfold pick_color. rewrite Hp. simpl. rewrite Hge. simpl.
    apply Z.leb_le in Hle. now rewrite Hle.
  - intros year Hd Hy. unfold pick_color.
    destruct Hd as [->|(fd & -> & Hlt)]; simpl.
    + rewrite Hy. simpl. now destruct (year =? 2025)%Z.
    + rewrite Hge. simpl. apply Z.leb_gt in Hlt. rewrite Hlt, Hy. simpl.
      now destruct (year =? 2025)%Z.
  - intros color. unfold pick_color.
    destruct (parse_firedate to_datetime (get row "firedate")) as [[fd|]|e];
      simpl; try discriminate.
    + rewrite Hge. simpl. destruct (micros cutoff <=? micros fd)%Z.
      * intros H. injection H as <-. now left.
      * destruct (int int_of_str (get row "fireyear")) as [y|e]; simpl;
          [|discriminate].
        destruct (y =? 2025)%Z; intros H; injection H as <-; auto.
    + destruct (int int_of_str (get row "fireyear")) as [y|e]; simpl;
        [|discriminate].
      destruct (y =? 2025)%Z; intros H; injection H as <-; auto.
Qed.

End SubsetFacts.

Section SubsetExamples.
Import Py ColorRules ColorSamples Subsets.

(** A fire without year dated after the cutoff is still recent. *)
Definition fire_recent_without_year : Row :=
  [("firedate", VStr "2025-08-15T12:00:00Z")]%string.


Lemma pick_color_first_match_witness :
  pick_color iso_to_datetime decimal_int_of_str fire_recent_without_year cutoff_dt_utc
  = Ok COLOR_RECENT.
Proof.
  destruct (pick_color_first_match iso_to_datetime decimal_int_of_str
              fire_recent_without_year cutoff_dt_utc eq_refl) as [H _].
  apply (H (datetime_utc 2025 8 15 12 0 0)).
  - vm_compute. reflexivity.
  - vm_compute. discriminate.
Defined.

End SubsetExamples.

(** * The yearly files of script 04: [find_es_geojsons] *)

Module Discovery.
Import Py.

(** [s.split(sep)] for a separator of one character. *)
Fixpoint split (sep : ascii) (s : string) : list string :=
  match s with
  | EmptyString => [EmptyString]
  | String c t =>
      if Ascii.eqb c sep then EmptyString :: split sep t
      else
        match split sep t with
        | [] => [String c EmptyString]
        | h :: r => String c h :: r
        end
  end.

Section Files.

(** [int(s)] on a [str]: the number, or [None] for the [ValueError]. *)
Variable int_of_str : string -> option Z.

(** The body of the [try]: [year = int(p.name.split("_")[1])]; the
    [IndexError] and the [ValueError] both end in [continue]. *)
Definition year_of (name : string) : option Z :=
  match nth_error (split "_" name) 1 with
  | Some part => int_of_str part
  | None => None
  end.

(** [files.sort(key=lambda x: x[0])]: the sort of Python lists is stable,
    which fixes its result; here by insertion from the last entry to the
    first, each before the first entry whose year is not smaller. *)
Fixpoint insert_by_year (x : Z * string) (l : list (Z * string)) : list (Z * string) :=
  match l with
  | [] => [x]
  | y :: t => if (fst x <=? fst y)%Z then x :: y :: t else y :: insert_by_year x t
  end.

Definition sort_by_year (l : list (Z * string)) : list (Z * string) :=
  fold_right insert_by_year [] l.

(** [find_es_geojsons], on the names that the glob returns. *)
Definition find_es_geojsons (glob : list string) (min_year : Z) : list (Z * string) :=
  let files :=
    flat_map (fun p =>
                match year_of p with
                | Some year => if (min_year <=? year)%Z then [(year, p)] else []
                | None => []
                end)
      (Burn.sort_labels glob) in
  sort_by_year files.

End Files.

End Discovery.

Section DiscoveryFacts.
Import Py Discovery.

Variable int_of_str : string -> option Z.

Lemma insert_by_year_perm (x : Z * string) (l : list (Z * string)) :
  Permutation (x :: l) (insert_by_year x l).
Proof.
  induction l as [|y t IH]; simpl; [apply Permutation_refl|].
  destruct (fst x <=? fst y)%Z; [apply Permutation_refl|].
  eapply perm_trans; [apply perm_swap|]. now apply perm_skip.
Qed.

Lemma sort_by_year_perm (l : list (Z * string)) : Permutation l (sort_by_year l).
Proof.
  induction l as [|x t IH]; simpl; [constructor|].
  eapply perm_trans; [|apply insert_by_year_perm]. now apply perm_skip.
Qed.

Lemma insert_by_year_sorted (x : Z * string) (l : list (Z * string)) :
  StronglySorted (fun a b => (fst a <= fst b)%Z) l ->
  StronglySorted (fun a b => (fst a <= fst b)%Z) (insert_by_year x l).
Proof.
  induction 1 as [|y t Hs IH Hy]; simpl; [repeat constructor|].
  destruct (fst x <=? fst y)%Z eqn:E.
  - apply Z.leb_le in E. constructor; [now constructor|].
    constructor; [assumption|]. eapply Forall_impl; [|exact Hy].
    simpl. intros. lia.
  - apply Z.leb_gt in E. constructor; [assumption|].
    apply (Permutation_Forall (insert_by_year_perm x t)).
    constructor; [lia|assumption].
Qed.

Lemma sort_by_year_sorted (l : list (Z * string)) :
  StronglySorted (fun a b => (fst a <= fst b)%Z) (sort_by_year l).
Proof.
  induction l as [|x t IH]; simpl; [constructor|]. now apply insert_by_year_sorted.
Qed.

(** The files of one year, in their order. *)
Definition of_year (y : Z) (l : list (Z * string)) : list (Z * string) :=
  filter (fun e => (fst e =? y)%Z) l.

Lemma of_year_insert (y : Z) (x : Z * string) (l : list (Z * string)) :
  of_year y (insert_by_year x l) = of_year y (x :: l).
Proof.
  induction l as [|z t IH]; [reflexivity|]. simpl insert_by_year.
  destruct (fst x <=? fst z)%Z eqn:E; [reflexivity|].
  unfold of_year in *. simpl in *. rewrite IH.
  destruct (fst x =? y)%Z eqn:Ex, (fst z =? y)%Z eqn:Ez; try reflexivity.
  apply Z.eqb_eq in Ex, Ez. apply Z.leb_gt in E. lia.
Qed.

Lemma of_year_sort (y : Z) (l : list (Z * string)) :
  of_year y (sort_by_year l) = of_year y l.
Proof.
  induction l as [|x t IH]; [reflexivity|]. simpl sort_by_year.
  rewrite of_year_insert. unfold of_year in *. simpl. now rewrite IH.
Qed.

(** [find_es_geojsons] never raises and returns the files in order of
    year: an entry [(year, name)] is in the result exactly when the glob
    gave the name, the text between the first two underscores of the name
    reads as the integer [year], and the year is not below [min_year]; a
    name without underscore or without a number there is passed over.
    Files of the same year stay in the order of their names. *)
Theorem find_es_geojsons_spec (glob : list string) (min_year : Z) :
  StronglySorted (fun a b => (fst a <= fst b)%Z)
    (find_es_geojsons int_of_str glob min_year) /\
  (forall year name,
      In (year, name) (find_es_geojsons int_of_str glob min_year) <->
      In name glob /\ year_of int_of_str name = Some year /\ (min_year <= year)%Z) /\
  (forall year,
      map snd (of_year year (find_es_geojsons int_of_str glob min_year))
      = filter (fun name =>
                  match year_of int_of_str name with
                  | Some y => (min_year <=? y)%Z && (y =? year)%Z
                  | None => false
                  end) (Burn.sort_labels glob)).
Proof.
  unfold find_es_geojsons. split; [apply sort_by_year_sorted|]. split.
  - intros year name. split.
    + intros H. apply (Permutation_in _ (Permutation_sym (sort_by_year_perm _))) in H.
      apply in_flat_map in H as (p & Hp & H).
      apply (Permutation_in _ (Permutation_sym (sort_labels_perm _))) in Hp.
      destruct (year_of int_of_str p) as [y|] eqn:Ey; [|destruct H].
      destruct (min_year <=? y)%Z eqn:E; [|destruct H].
      destruct H as [H|[]]. injection H as <- <-. apply Z.leb_le in E. auto.
    + intros (Hin & Hy & Hle).
      apply (Permutation_in _ (sort_by_year_perm _)).
      apply in_flat_map. exists name. split.
      * now apply (Permutation_in _ (sort_labels_perm _)).
      * rewrite Hy. apply Z.leb_le in Hle. rewrite Hle. now left.
  - intros year. rewrite of_year_sort. unfold of_year.
    induction (Burn.sort_labels glob) as [|p t IH]; [reflexivity|].
    simpl. rewrite filter_app, map_app, IH.
    destruct (year_of int_of_str p) as [y|]; [|reflexivity].
    destruct (min_year <=? y)%Z; simpl; [|reflexivity].
    destruct (y =? year)%Z; reflexivity.
Qed.

End DiscoveryFacts.

Section DiscoveryExamples.
Import Py Discovery.

Definition decimal_year (s : string) : option Z :=
  match NilEmpty.uint_of_string s with
  | Some u => Some (Z.of_uint u)
  | None => None
  end.

Example split_name :
  split "_" "ES_2016_fuegos.geojson" = ["ES"; "2016"; "fuegos.geojson"]%string /\
  split "_" "" = [""%string] /\ split "_" "_" = [""; ""]%string.
Proof. repeat split; reflexivity. Qed.

Example find_es_geojsons_sample :
  find_es_geojsons decimal_year
    ["ES_2025_fuegos.geojson"; "ES_2015_fuegos.geojson"; "ES_viejo_fuegos.geojson";
     "ES_2016_fuegos.geojson"]%string 2016
  = [(2016%Z, "ES_2016_fuegos.geojson"%string);
     (2025%Z, "ES_2025_fuegos.geojson"%string)].
Proof. vm_compute. reflexivity. Qed.

End DiscoveryExamples.

(** * The yearly table of script 13 *)

Module Evolution.
Import Py Burn.

Definition dquote : string := String (ascii_of_nat 34) EmptyString.

(** [col(label)]: the label inside a span of weight 100. *)
Definition col (label : string) : string :=
  ("<span style=" ++ dquote ++ "font-weight:100" ++ dquote ++ ">" ++ label
   ++ "</span>")%string.

Definition DISPLAY_ORDER : list string :=
  [col "Andalucía"; col "Aragón"; col "Asturias"; col "Canarias"; col "Cantabria";
   col "Castilla - La Mancha"; col "Castilla y León"; col "Cataluña";
   col "Comunitat Valenciana"; col "Extremadura"; col "Galicia"; col "Madrid";
   col "Murcia"; col "Navarra"; col "Illes Balears"; col "La Rioja";
   col "País Vasco"].

Definition IGNORE_UNITS : list string :=
  ["Ciudad Autónoma de Ceuta"; "Ciudad Autónoma de Melilla";
   "Territorios no asociados a ninguna autonomía"]%string.

Definition NAMEUNIT_TO_DISPLAY : list (string * string) :=
  [("Andalucía", col "Andalucía");
   ("Aragón", col "Aragón");
   ("Principado de Asturias", col "Asturias");
   ("Asturias", col "Asturias");
   ("Canarias", col "Canarias");
   ("Cantabria", col "Cantabria");
   ("Castilla-La Mancha", col "Castilla - La Mancha");
   ("Castilla - La Mancha", col "Castilla - La Mancha");
   ("Castilla y León", col "Castilla y León");
   ("Cataluña", col "Cataluña");
   ("Catalunya", col "Cataluña");
   ("Cataluña/Catalunya", col "Cataluña");
   ("Comunitat Valenciana", col "Comunitat Valenciana");
   ("Extremadura", col "Extremadura");
   ("Galicia", col "Galicia");
   ("Comunidad de Madrid", col "Madrid");
   ("Madrid", col "Madrid");
   ("Región de Murcia", col "Murcia");
   ("Murcia", col "Murcia");
   ("Comunidad Foral de Navarra", col "Navarra");
   ("Navarra", col "Navarra");
   ("Illes Balears", col "Illes Balears");
   ("Islas Baleares", col "Illes Balears");
   ("La Rioja", col "La Rioja");
   ("País Vasco", col "País Vasco");
   ("Euskadi", col "País Vasco");
   ("País Vasco/Euskadi", col "País Vasco")]%string.

(** [name in IGNORE_UNITS] *)
Definition member (name : string) (l : list string) : bool :=
  existsb (String.eqb name) l.

(** [NAMEUNIT_TO_DISPLAY[name]], [None] when the key is absent. *)
Fixpoint display_of (table : list (string * string)) (name : string) : option string :=
  match table with
  | [] => None
  | (k, v) :: t => if String.eqb k name then Some v else display_of t name
  end.

(** ["/" in name] *)
Fixpoint has_slash (name : string) : bool :=
  match name with
  | EmptyString => false
  | String c t => Ascii.eqb c "/" || has_slash t
  end.

Section Labels.

(** [p.strip()] *)
Variable strip : string -> string.

(** The loop over the parts of a bilingual name: the first part that maps
    decides. *)
Fixpoint first_mapped (parts : list string) : option string :=
  match parts with
  | [] => None
  | p :: rest =>
      match display_of NAMEUNIT_TO_DISPLAY p with
      | Some label => Some label
      | None => first_mapped rest
      end
  end.

Definition map_nameunit_to_label (name : string) : option string :=
  if member name IGNORE_UNITS then None
  else
    match display_of NAMEUNIT_TO_DISPLAY name with
    | Some label => Some label
    | None =>
        if has_slash name
        then first_mapped (map strip (Discovery.split "/" name))
        else None
    end.

Context {G : Type} {K : GeomKernel G}.

(** [ccaa["LABEL"] = ccaa["NAMEUNIT"].apply(map_nameunit_to_label)] *)
Definition with_label (ccaa : list (string * G)) : list (option string * G) :=
  map (fun r => (map_nameunit_to_label (fst r), snd r)) ccaa.

(** [ccaa[ccaa["LABEL"].isin(DISPLAY_ORDER)]] *)
Definition ccaa_keep (ccaa : list (option string * G)) : list (option string * G) :=
  filter (fun r => match fst r with
                   | Some label => member label DISPLAY_ORDER
                   | None => false
                   end) ccaa.

End Labels.

Section Year.

Context {G : Type} {K : GeomKernel G}.

Definition zeros : list (string * Q) := map (fun label => (label, 0)) DISPLAY_ORDER.

(** [series.reindex(DISPLAY_ORDER).fillna(0.0)] on the series of the
    groups. *)
Definition reindex_fillna (grouped : list (string * Q)) : list (string * Q) :=
  map (fun label =>
         (label,
          match find (fun r => String.eqb (fst r) label) grouped with
          | Some r => snd r
          | None => 0
          end)) DISPLAY_ORDER.

(** [compute_year] of script 13 from [fires_big] on, the fires of the year
    of at least 30 ha having been read, repaired and filtered. *)
Definition compute_year (ccaa_diss : list (string * G)) (fires_big : list G)
  : list (string * Q) :=
  match fires_big with
  | [] => zeros
  | _ =>
      let ccaa_m := map (fun r => (fst r, to_crs (snd r))) ccaa_diss in
      let fires_m := map to_crs fires_big in
      let inter := overlay ccaa_m fires_m in
      match inter with
      | [] => zeros
      | _ =>
          let grouped :=
            groupby_sum (map (fun r => (fst r, area (snd r) / 10000)) inter) in
          reindex_fillna grouped
      end
  end.

End Year.

End Evolution.

Section EvolutionFacts.
Import Py Burn Evolution.

Lemma member_In (name : string) (l : list string) :
  member name l = true <-> In name l.
Proof.
  unfold member. rewrite existsb_exists. split.
  - intros (x & Hx & E). apply String.eqb_eq in E. now subst.
  - intros H. exists name. split; [assumption|apply String.eqb_refl].
Qed.

Lemma display_of_In (table : list (string * string)) (name label : string) :
  display_of table name = Some label -> In label (map snd table).
Proof.
  induction table as [|[k v] t IH]; simpl; [discriminate|].
  destruct (String.eqb k name); [intros H; injection H as <-; now left|].
  intros H. right. now apply IH.
Qed.

Lemma display_values_in_order :
  forall label, In label (map snd NAMEUNIT_TO_DISPLAY) -> In label DISPLAY_ORDER.
Proof.
  assert (H : forallb (fun v => member v DISPLAY_ORDER) (map snd NAMEUNIT_TO_DISPLAY)
              = true) by (vm_compute; reflexivity).
  rewrite forallb_forall in H. intros label Hl. now apply member_In, H.
Qed.

Lemma DISPLAY_ORDER_NoDup : NoDup DISPLAY_ORDER.
Proof.
  assert (H : nodup string_dec DISPLAY_ORDER = DISPLAY_ORDER)
    by (vm_compute; reflexivity).
  rewrite <- H. apply NoDup_nodup.
Qed.

Section WithStrip.

Variable strip : string -> string.

Lemma first_mapped_In (parts : list string) (label : string) :
  first_mapped parts = Some label -> In label DISPLAY_ORDER.
Proof.
  induction parts as [|p rest IH]; cbn [first_mapped]; [discriminate|].
  destruct (display_of NAMEUNIT_TO_DISPLAY p) as [l|] eqn:E; [|assumption].
  intros H. injection H as <-.
  apply display_values_in_order. eapply display_of_In; eauto.
Qed.

Lemma map_nameunit_direct (name label : string) :
  member name IGNORE_UNITS = false ->
  display_of NAMEUNIT_TO_DISPLAY name = Some label ->
  map_nameunit_to_label strip name = Some label.
Proof. intros Hi Hd. unfold map_nameunit_to_label. now rewrite Hi, Hd. Qed.

(** The labels of script 13 stay inside the columns of its table: whatever
    the name, [map_nameunit_to_label] answers nothing or one of the entries
    of [DISPLAY_ORDER], and nothing for a name of [IGNORE_UNITS]; every
    entry of [DISPLAY_ORDER] is the label of some name; and so the test
    [isin(DISPLAY_ORDER)] of [main] drops the rows without label and no
    other. *)
Theorem map_nameunit_to_label_in_display_order :
  (forall name label,
      map_nameunit_to_label strip name = Some label -> In label DISPLAY_ORDER) /\
  (forall name, In name IGNORE_UNITS -> map_nameunit_to_label strip name = None) /\
  (forall label, In label DISPLAY_ORDER ->
                 exists name, map_nameunit_to_label strip name = Some label) /\
  (forall (G : Type) (ccaa : list (string * G)),
      ccaa_keep (with_label strip ccaa)
      = filter (fun r => match fst r with Some _ => true | None => false end)
          (with_label strip ccaa)).
Proof.
  assert (H1 : forall name label,
             map_nameunit_to_label strip name = Some label -> In label DISPLAY_ORDER).
  { intros name label. unfold map_nameunit_to_label.
    destruct (member name IGNORE_UNITS); [discriminate|].
    destruct (display_of NAMEUNIT_TO_DISPLAY name) as [l|] eqn:E.
    - intros H. injection H as <-.
      apply display_values_in_order. eapply display_of_In; eauto.
    - destruct (has_slash name); [apply first_mapped_In|discriminate]. }
  split; [exact H1|]. split; [|split].
  - intros name Hn. unfold map_nameunit_to_label.
    apply member_In in Hn. now rewrite Hn.
  - assert (Hall : forallb
                     (fun label =>
                        existsb
                          (fun kv =>
                             negb (member (fst kv) IGNORE_UNITS)
                             && match display_of NAMEUNIT_TO_DISPLAY (fst kv) with
                                | Some l => String.eqb l label
                                | None => false
                                end) NAMEUNIT_TO_DISPLAY) DISPLAY_ORDER = true)
      by (vm_compute; reflexivity).
    rewrite forallb_forall in Hall. intros label Hl.
    apply Hall, existsb_exists in Hl as ([k v] & _ & Hkv). cbn [fst] in Hkv.
    apply andb_true_iff in Hkv as [Hi Hd]. apply negb_true_iff in Hi.
    destruct (display_of NAMEUNIT_TO_DISPLAY k) as [l|] eqn:E; [|discriminate].
    apply String.eqb_eq in Hd. subst l. exists k. now apply map_nameunit_direct.
  - intros G ccaa. unfold ccaa_keep. apply filter_ext_in.
    intros [l g] Hin. cbn [fst]. destruct l as [label|]; [|reflexivity].
    unfold with_label in Hin. apply in_map_iff in Hin as (r & Hr & _).
    cbv beta in Hr. injection Hr as Hr _.
    apply member_In. eapply H1; eauto.
Qed.

End WithStrip.

End EvolutionFacts.

Section YearFacts.
Import Py Burn Evolution.

Context {G : Type} {K : GeomKernel G}.

(** The hectares that the fires have in common with the boundaries of one
    label. *)
Definition overlap_ha (ccaa_diss : list (string * G)) (fires_big : list G)
  (label : string) : Q :=
  sum (map (fun b =>
              if String.eqb (fst b) label
              then sum (map (fun e =>
                               area (intersection (to_crs (snd b)) (to_crs e)) / 10000)
                          fires_big)
              else 0) ccaa_diss).

(** The column [burn_ha] of the overlay. *)
Definition inter_burn (ccaa_diss : list (string * G)) (fires_big : list G)
  : list (string * Q) :=
  map (fun r => (fst r, area (snd r) / 10000))
    (overlay (map (fun r => (fst r, to_crs (snd r))) ccaa_diss)
       (map to_crs fires_big)).

Lemma group_sum_pieces (name label : string) (b : G) (fires_m : list G) :
  group_sum
    (map (fun r => (fst r, area (snd r) / 10000))
       (flat_map (fun e => let piece := intersection b e in
                           if is_empty piece then [] else [(name, piece)]) fires_m))
    label
  == if String.eqb name label
     then sum (map (fun e => area (intersection b e) / 10000) fires_m)
     else 0.
Proof.
  unfold group_sum. induction fires_m as [|e t IH]; simpl.
  - now destruct (String.eqb name label).
  - rewrite map_app, filter_app, map_app, sum_app, IH.
    destruct (is_empty (intersection b e)) eqn:E; simpl.
    + destruct (String.eqb name label); [|ring].
      rewrite (area_is_empty _ E). unfold Qdiv. ring.
    + destruct (String.eqb name label); simpl; ring.
Qed.

Lemma group_sum_overlay (ccaa_diss : list (string * G)) (fires_big : list G)
  (label : string) :
  group_sum (inter_burn ccaa_diss fires_big) label
  == overlap_ha ccaa_diss fires_big label.
Proof.
  unfold inter_burn, overlap_ha, overlay.
  induction ccaa_diss as [|b t IH]; simpl; [reflexivity|].
  rewrite map_app. unfold group_sum in *. rewrite filter_app, map_app, sum_app, IH.
  apply Qplus_inj_r.
  pose proof (group_sum_pieces (fst b) label (to_crs (snd b)) (map to_crs fires_big)) as H.
  unfold group_sum in H. simpl in H. rewrite H.
  destruct (String.eqb (fst b) label); [|reflexivity].
  now rewrite map_map.
Qed.

Lemma find_group (g : string -> Q) (L : list string) (label : string) :
  match find (fun r => String.eqb (fst r) label) (map (fun n => (n, g n)) L) with
  | Some r => snd r
  | None => 0
  end = if in_dec string_dec label L then g label else 0.
Proof.
  induction L as [|n t IH]; simpl; [reflexivity|].
  destruct (String.eqb n label) eqn:E.
  - apply String.eqb_eq in E. subst n.
    now destruct (string_dec label label).
  - apply String.eqb_neq in E. rewrite IH.
    destruct (string_dec n label) as [Heq|Hne]; [contradiction|].
    now destruct (in_dec string_dec label t).
Qed.

Lemma reindex_fillna_values (inter : list (string * Q)) :
  Forall2 (fun label r => fst r = label /\ snd r == group_sum inter label)
    DISPLAY_ORDER (reindex_fillna (groupby_sum inter)).
Proof.
  unfold reindex_fillna, groupby_sum.
  induction DISPLAY_ORDER as [|label t IH]; simpl; constructor; [|exact IH].
  split; [reflexivity|]. cbn [snd].
  rewrite (find_group (group_sum inter)).
  destruct (in_dec string_dec label (unique_labels (map fst inter))) as [Hy|Hn];
    [reflexivity|].
  symmetry. apply group_sum_absent. intros H. apply Hn. now apply unique_labels_In.
Qed.

Lemma zeros_values (inter : list (string * Q)) :
  inter = [] ->
  Forall2 (fun label r => fst r = label /\ snd r == group_sum inter label)
    DISPLAY_ORDER zeros.
Proof.
  intros ->. unfold zeros.
  induction DISPLAY_ORDER as [|label t IH]; simpl; constructor; [|exact IH].
  split; reflexivity.
Qed.

Lemma overlay_nil_r (ccaa_m : list (string * G)) : overlay ccaa_m [] = [].
Proof. unfold overlay. induction ccaa_m; simpl; auto. Qed.

Lemma compute_year_values (ccaa_diss : list (string * G)) (fires_big : list G) :
  Forall2 (fun label r =>
             fst r = label /\ snd r == group_sum (inter_burn ccaa_diss fires_big) label)
    DISPLAY_ORDER (compute_year ccaa_diss fires_big).
Proof.
  unfold compute_year, inter_burn. destruct fires_big as [|e t].
  - apply zeros_values. simpl. now rewrite overlay_nil_r.
  - destruct (overlay _ (map to_crs (e :: t))) as [|p ps] eqn:E.
    + now apply zeros_values.
    + apply reindex_fillna_values.
Qed.

Lemma sum_Forall2 {A : Type} (f : A -> Q) (l : list A) (rs : list (string * Q)) :
  Forall2 (fun a r => snd r == f a) l rs ->
  sum (map snd rs) == sum (map f l).
Proof.
  induction 1 as [|a r l' rs' Hr _ IH]; simpl; [reflexivity|]. now rewrite Hr, IH.
Qed.

(** The row of one year in script 13 has one entry for each column of
    [DISPLAY_ORDER], in that order, whether or not the year has fires and
    whether or not they meet a boundary; the entry of a label is the area
    in hectares that the fires have in common with the boundaries of that
    label, 0 when there is none; and when every boundary carries a label
    of [DISPLAY_ORDER], the entries add up to the overlaps of every fire
    with every boundary. *)
Theorem compute_year_row (ccaa_diss : list (string * G)) (fires_big : list G) :
  map fst (compute_year ccaa_diss fires_big) = DISPLAY_ORDER /\
  (forall label v,
      In (label, v) (compute_year ccaa_diss fires_big) ->
      v == overlap_ha ccaa_diss fires_big label) /\
  ((forall b, In b ccaa_diss -> In (fst b) DISPLAY_ORDER) ->
   sum (map snd (compute_year ccaa_diss fires_big))
   == sum (map (fun e =>
                  sum (map (fun b =>
                              area (intersection (to_crs (snd b)) (to_crs e)) / 10000)
                         ccaa_diss))
             fires_big)).
Proof.
  pose proof (compute_year_values ccaa_diss fires_big) as Hv.
  split; [|split].
  - induction Hv as [|label r t rs [Hr _] _ IH]; simpl; [reflexivity|].
    now rewrite Hr, IH.
  - intros label v Hin.
    assert (H : forall l rs,
               Forall2 (fun label r =>
                          fst r = label /\
                          snd r == group_sum (inter_burn ccaa_diss fires_big) label)
                 l rs ->
               In (label, v) rs ->
               v == group_sum (inter_burn ccaa_diss fires_big) label).
    { induction 1 as [|a r l' rs' [Hr1 Hr2] _ IH]; intros []; [|now apply IH].
      subst r. simpl in *. now subst a. }
    rewrite (H _ _ Hv Hin). apply group_sum_overlay.
  - intros Hlab.
    rewrite (sum_Forall2 (group_sum (inter_burn ccaa_diss fires_big)) DISPLAY_ORDER).
    + rewrite sum_over_groups;
        [|apply DISPLAY_ORDER_NoDup
         |intros r Hr; apply overlay_labels in Hr;
          apply in_map_iff in Hr as (b & <- & Hb); now apply Hlab].
      unfold inter_burn. rewrite map_map. simpl. rewrite sum_overlay.
      rewrite map_map. apply sum_map_ext. intros e _. rewrite map_map. reflexivity.
    + eapply Forall2_impl; [|exact Hv]. intros a r [_ H]. exact H.
Qed.

End YearFacts.

(** * Further properties of the aggregator *)

Section AddAreaFacts.
Import Py Burn.

Context {G : Type} {K : GeomKernel G}.

Lemma lookup_assign_other (props : list (string * Value)) (col c : string) (v : Value) :
  c <> col -> lookup (assign props col v) c = lookup props c.
Proof.
  intros Hc. induction props as [|[k w] t IH]; simpl.
  - destruct (String.eqb col c) eqn:E; [|reflexivity].
    apply String.eqb_eq in E. congruence.
  - destruct (String.eqb k col) eqn:E; simpl.
    + apply String.eqb_eq in E. subst k.
      destruct (String.eqb col c) eqn:E'; [|reflexivity].
      apply String.eqb_eq in E'. congruence.
    + destruct (String.eqb k c); [reflexivity|exact IH].
Qed.

Lemma assign_assign (props : list (string * Value)) (col : string) (v w : Value) :
  assign (assign props col v) col w = assign props col w.
Proof.
  induction props as [|[k u] t IH]; simpl.
  - now rewrite String.eqb_refl.
  - destruct (String.eqb k col) eqn:E; simpl; rewrite E; [reflexivity|].
    now rewrite IH.
Qed.

Lemma has_column_app (gdf : GeoDataFrame G) (col c : string) :
  existsb (String.eqb c) (columns gdf ++ [col])
  = has_column gdf c || String.eqb c col.
Proof. unfold has_column. rewrite existsb_app. simpl. now rewrite orb_false_r. Qed.

Lemma has_column_add_area_ha (gdf : GeoDataFrame G) (out_col c : string) :
  has_column (add_area_ha gdf out_col) c = has_column gdf c || String.eqb c out_col.
Proof.
  unfold add_area_ha, has_column at 1. simpl.
  destruct (has_column gdf out_col) eqn:E.
  - fold (has_column gdf c). destruct (String.eqb c out_col) eqn:Ec.
    + apply String.eqb_eq in Ec. subst c. now rewrite E.
    + now rewrite orb_false_r.
  - apply has_column_app.
Qed.

(** [add_area_ha] writes the measured area, in hectares, in the cell of
    every row for the column it is given and touches nothing else: the
    geometries, the number and order of the rows and the cells of the
    other columns stay, the column is added to the frame when it is new
    and no other column appears or disappears, and the area written is
    never negative.  Adding the same column twice is adding it once. *)
Theorem add_area_ha_writes_one_column (gdf : GeoDataFrame G) (out_col : string) :
  Forall2 (fun r r' =>
             geometry r' = geometry r /\
             cell r' out_col = VFloat (area (to_crs (geometry r)) / 10000) /\
             0 <= area (to_crs (geometry r)) / 10000 /\
             forall c, c <> out_col -> cell r' c = cell r c)
    (rows gdf) (rows (add_area_ha gdf out_col)) /\
  (forall c, has_column (add_area_ha gdf out_col) c
             = has_column gdf c || String.eqb c out_col) /\
  add_area_ha (add_area_ha gdf out_col) out_col = add_area_ha gdf out_col.
Proof.
  split; [|split].
  - unfold add_area_ha. simpl. induction (rows gdf) as [|r t IH]; simpl; constructor;
      [|exact IH].
    unfold cell. simpl. split; [reflexivity|]. split; [apply lookup_assign|].
    split.
    + apply Qle_shift_div_l; [reflexivity|]. rewrite Qmult_0_l. apply area_nonneg.
    + intros c Hc. now apply lookup_assign_other.
  - intros c. apply has_column_add_area_ha.
  - unfold add_area_ha at 1.
    assert (Hc : has_column (add_area_ha gdf out_col) out_col = true).
    { rewrite has_column_add_area_ha, String.eqb_refl. apply orb_true_r. }
    rewrite Hc. unfold add_area_ha at 2. simpl.
    unfold add_area_ha at 1. f_equal. simpl.
    rewrite map_map. apply map_ext. intros r. simpl. now rewrite assign_assign.
Qed.

End AddAreaFacts.

Section FilterCompose.
Import Py Burn.

Context {G : Type} {K : GeomKernel G}.

(** The comparison and the selection on a column that is settled. *)
Definition filter_on (gdf : GeoDataFrame G) (field : string) (min_ha : Q)
  : result (GeoDataFrame G) :=
  mask <- mapM (fun r => ge_min (cell r field) min_ha) (rows gdf) ;;
  Ok {| columns := columns gdf; rows := select (rows gdf) mask |}.

Lemma filter_by_area_on (calc_col : string) (fires : GeoDataFrame G) (min_ha : Q) :
  filter_by_area calc_col fires min_ha =
  match find (has_column fires) area_candidates with
  | Some cand => filter_on fires cand min_ha
  | None => filter_on (add_area_ha fires calc_col) calc_col min_ha
  end.
Proof.
  unfold filter_by_area, filter_on.
  now destruct (find (has_column fires) area_candidates).
Qed.

Lemma at_least_mono (m1 m2 : Q) (v : Value) :
  m1 <= m2 -> at_least m2 v = true -> at_least m1 v = true.
Proof.
  intros Hm. destruct v; simpl; try discriminate; intros H;
    apply Qle_bool_iff in H; apply Qle_bool_iff; eapply Qle_trans; eauto.
Qed.

Lemma filter_filter_implied {A : Type} (p q : A -> bool) (l : list A) :
  (forall a, q a = true -> p a = true) ->
  filter q (filter p l) = filter q l.
Proof.
  intros H. induction l as [|a t IH]; simpl; [reflexivity|].
  destruct (p a) eqn:Ep; simpl.
  - now rewrite IH.
  - destruct (q a) eqn:Eq; [|exact IH]. apply H in Eq. congruence.
Qed.

Lemma filter_on_compose (gdf out1 : GeoDataFrame G) (field : string) (m1 m2 : Q) :
  filter_on gdf field m1 = Ok out1 -> m1 <= m2 ->
  filter_on out1 field m2 = filter_on gdf field m2 /\
  out1 = {| columns := columns gdf;
            rows := filter (fun r => at_least m1 (cell r field)) (rows gdf) |}.
Proof.
  unfold filter_on. intros H Hm.
  destruct (mapM (fun r => ge_min (cell r field) m1) (rows gdf)) as [mask|e] eqn:Em;
    simpl in H; [|discriminate].
  injection H as <-.
  pose proof (mask_Ok_comparable _ _ _ _ Em) as Hfl.
  apply mask_Ok in Em. subst mask. rewrite select_map. simpl. split; [|reflexivity].
  rewrite (mask_comparable_column _ field m2 Hfl).
  assert (Hfl' : Forall (fun r => comparable_cell (cell r field) = true)
                   (filter (fun r => at_least m1 (cell r field)) (rows gdf))).
  { apply Forall_forall. intros r Hr. apply filter_In in Hr as [Hr _].
    rewrite Forall_forall in Hfl. now apply Hfl. }
  rewrite (mask_comparable_column _ field m2 Hfl'). simpl. rewrite !select_map.
  rewrite filter_filter_implied; [reflexivity|].
  intros r. now apply at_least_mono.
Qed.

Lemma find_candidates_ext (f g : string -> bool) :
  (forall c, In c area_candidates -> f c = g c) ->
  find f area_candidates = find g area_candidates.
Proof.
  intros H. induction area_candidates as [|c t IH]; simpl; [reflexivity|].
  rewrite (H c (or_introl eq_refl)). destruct (g c); [reflexivity|].
  apply IH. intros c' Hc'. apply H. now right.
Qed.

Lemma candidate_not_calc (calc_col c : string) :
  In calc_col ["area_ha_geom"; "area_ha_calc"]%string ->
  In c area_candidates -> String.eqb c calc_col = false.
Proof.
  intros [<-|[<-|[]]] H; simpl in H;
    repeat (destruct H as [<-|H]; [reflexivity|]); destruct H.
Qed.

Lemma filter_by_area_composes (calc_col : string) (fires out1 : GeoDataFrame G)
  (m1 m2 : Q) :
  In calc_col ["area_ha_geom"; "area_ha_calc"]%string ->
  filter_by_area calc_col fires m1 = Ok out1 ->
  m1 <= m2 ->
  filter_by_area calc_col out1 m2 = filter_by_area calc_col fires m2.
Proof.
  intros Hcalc. rewrite !filter_by_area_on. intros H Hm.
  destruct (find (has_column fires) area_candidates) as [cand|] eqn:Ef.
  - destruct (filter_on_compose _ _ _ _ _ H Hm) as [Hc Hout].
    assert (E : find (has_column out1) area_candidates = Some cand)
      by (rewrite Hout; exact Ef).
    now rewrite E.
  - destruct (filter_on_compose _ _ _ _ _ H Hm) as [Hc Hout].
    assert (E : find (has_column out1) area_candidates = None).
    { rewrite <- Ef. apply find_candidates_ext. intros c Hc'.
      rewrite Hout. unfold has_column at 1. cbn [columns].
      pose proof (has_column_add_area_ha fires calc_col c) as Hh.
      unfold has_column at 1 in Hh. rewrite Hh.
      rewrite (candidate_not_calc calc_col c Hcalc Hc'). apply orb_false_r. }
    rewrite E.
    assert (Eadd : add_area_ha out1 calc_col = out1).
    { rewrite Hout. unfold add_area_ha at 1. cbn [columns rows].
      assert (Hhas : has_column
                       {| columns := columns (add_area_ha fires calc_col);
                          rows := filter
                                    (fun r => at_least m1 (cell r calc_col))
                                    (rows (add_area_ha fires calc_col)) |}
                       calc_col = true).
      { unfold has_column at 1. cbn [columns].
        pose proof (has_column_add_area_ha fires calc_col calc_col) as Hh.
        unfold has_column at 1 in Hh. rewrite Hh.
        rewrite String.eqb_refl. apply orb_true_r. }
      rewrite Hhas. f_equal.
      rewrite <- (map_id (filter _ (rows (add_area_ha fires calc_col)))) at 2.
      apply map_ext_in. intros r Hr. apply filter_In in Hr as [Hr _].
      unfold add_area_ha in Hr. cbn [rows] in Hr.
      apply in_map_iff in Hr as (r0 & <- & _). cbn [properties geometry].
      now rewrite assign_assign. }
    now rewrite Eadd.
Qed.

(** In each of the scripts, filtering again with a threshold that is not
    lower gives what the higher threshold gives on the frame itself; with
    the same threshold the filter is idempotent.  This holds with and
    without an area column: the column that the first call adds
    ([area_ha_geom] in scripts 11 and 12, [area_ha_calc] in script 13) is
    not one of the candidates, so that the second call measures the areas
    again and finds the same values. *)
Theorem filter_fires_min_ha_composes (calc_col : string)
  (filter_fires : GeomKernel G -> GeoDataFrame G -> Q -> result (GeoDataFrame G))
  (fires out1 : GeoDataFrame G) (m1 m2 : Q) :
  In (calc_col, filter_fires) script_filters ->
  filter_fires K fires m1 = Ok out1 ->
  m1 <= m2 ->
  filter_fires K out1 m2 = filter_fires K fires m2.
Proof.
  intros [E|[E|[]]]; injection E as <- <-;
    apply filter_by_area_composes; simpl; auto.
Qed.

End FilterCompose.

Section TableRows.
Import Py Burn.

Context {G : Type} {K : GeomKernel G}.

Lemma filter_groupby_keys (g : string -> Q) (L : list string) (name : string) :
  NoDup L ->
  filter (fun b => String.eqb (fst b) name) (map (fun n => (n, g n)) L)
  = if in_dec string_dec name L then [(name, g name)] else [].
Proof.
  induction 1 as [|m L' Hm Hnd IH]; simpl; [reflexivity|].
  destruct (String.eqb m name) eqn:E.
  - apply String.eqb_eq in E. subst m. rewrite IH.
    destruct (string_dec name name) as [Heq|Hne]; [|contradiction].
    destruct (in_dec string_dec name L'); [contradiction|reflexivity].
  - apply String.eqb_neq in E. rewrite IH.
    destruct (string_dec m name) as [Heq|Hne]; [contradiction|].
    destruct (in_dec string_dec name L'); reflexivity.
Qed.

Lemma flat_map_singleton {A B : Type} (f : A -> list B) (g : A -> B) (l : list A) :
  (forall a, f a = [g a]) -> flat_map f l = map g l.
Proof.
  intros H. induction l as [|a t IH]; simpl; [reflexivity|]. now rewrite H, IH.
Qed.

Lemma merge_left_groupby (surface_df inter : list (string * Q)) :
  merge_left surface_df (groupby_sum inter)
  = map (fun s =>
           (fst s, snd s,
            if in_dec string_dec (fst s) (unique_labels (map fst inter))
            then Some (group_sum inter (fst s)) else None)) surface_df.
Proof.
  assert (Hh : forall name,
             filter (fun b => String.eqb (fst b) name) (groupby_sum inter)
             = if in_dec string_dec name (unique_labels (map fst inter))
               then [(name, group_sum inter name)] else []).
  { intros name. unfold groupby_sum.
    apply (filter_groupby_keys (group_sum inter)), unique_labels_NoDup. }
  unfold merge_left. apply flat_map_singleton. intros s. rewrite Hh.
  destruct (in_dec string_dec (fst s) (unique_labels (map fst inter))); reflexivity.
Qed.

Lemma sum_nonneg {A : Type} (f : A -> Q) (l : list A) :
  (forall a, In a l -> 0 <= f a) -> 0 <= sum (map f l).
Proof.
  induction l as [|a t IH]; intros H; simpl; [apply Qle_refl|].
  pose proof (H a (or_introl eq_refl)).
  assert (0 <= sum (map f t)) by (apply IH; intros; apply H; now right). lra.
Qed.

Lemma overlap_ha_nonneg (ccaa_diss : list (string * G)) (fires_big : list G)
  (label : string) :
  0 <= overlap_ha ccaa_diss fires_big label.
Proof.
  unfold overlap_ha. apply sum_nonneg. intros b _.
  destruct (String.eqb (fst b) label); [|apply Qle_refl].
  apply sum_nonneg. intros e _.
  apply Qle_shift_div_l; [reflexivity|]. rewrite Qmult_0_l. apply area_nonneg.
Qed.

(** The table has exactly one row per dissolved boundary.  The row of a
    boundary carries its label and its total area in hectares; its burned
    area is the area that the fires have in common with the boundaries of
    that label, never negative; and its percentage, when the total area is
    not zero, is the burned area over the total area times 100. *)
Theorem table_row_per_boundary (ccaa_diss : list (string * G)) (fires_big : list G)
  (table : list OutRow) :
  main_table ccaa_diss fires_big table ->
  List.length table = List.length ccaa_diss /\
  (forall row,
      In row table ->
      exists geom,
        In (NAMEUNIT row, geom) ccaa_diss /\
        area_total_ha row = area (to_crs geom) / 10000 /\
        burn_ha row == overlap_ha ccaa_diss fires_big (NAMEUNIT row) /\
        0 <= burn_ha row /\
        (~ area_total_ha row == 0 ->
         exists p, pct row = Pandas.Fin p /\
                   p == burn_ha row / area_total_ha row * 100)).
Proof.
  intros Htable. apply sort_values_desc_perm in Htable.
  rewrite out_unfold, merge_left_groupby in Htable.
  split.
  - rewrite <- (Permutation_length Htable). now rewrite !length_map.
  - intros row Hrow.
    apply (Permutation_in _ (Permutation_sym Htable)) in Hrow.
    apply in_map_iff in Hrow as (m & <- & Hm).
    apply in_map_iff in Hm as (s & <- & Hs).
    apply in_map_iff in Hs as ([name geom] & <- & Hb). cbn [fst snd out_row].
    set (inter := map (fun r => (fst r, area (snd r) / 10000)) _).
    assert (Hburn : fillna (if in_dec string_dec name (unique_labels (map fst inter))
                            then Some (group_sum inter name) else None)
                    == overlap_ha ccaa_diss fires_big name).
    { rewrite <- (group_sum_overlay ccaa_diss fires_big name).
      fold inter. unfold inter_burn. fold inter.
      destruct (in_dec string_dec name (unique_labels (map fst inter))) as [Hy|Hn];
        [reflexivity|].
      simpl. symmetry. apply group_sum_absent. intros H. apply Hn.
      now apply unique_labels_In. }
    exists geom. cbn [NAMEUNIT area_total_ha burn_ha pct].
    split; [assumption|]. split; [reflexivity|]. split; [exact Hburn|].
    split; [rewrite Hburn; apply overlap_ha_nonneg|].
    intros Ht. unfold Pandas.div.
    destruct (Qeq_bool (area (to_crs geom) / 10000) 0) eqn:E;
      [apply Qeq_bool_iff in E; contradiction|].
    simpl. eexists. split; reflexivity.
Qed.

End TableRows.

Section DissolveFacts.
Import Py Burn.

Context {G : Type} {K : GeomKernel G}.

Lemma insert_label_sorted (s : string) (l : list string) :
  Sorted (fun a b => String.leb a b = true) l ->
  Sorted (fun a b => String.leb a b = true) (insert_label s l).
Proof.
  induction 1 as [|x t Hs IH Hx]; simpl; [repeat constructor|].
  destruct (String.leb s x) eqn:E.
  - constructor; [now constructor|]. now constructor.
  - constructor; [exact IH|].
    destruct (String.leb_total s x) as [H|H]; [congruence|].
    destruct t as [|y t']; simpl; [now constructor|].
    destruct (String.leb s y); constructor; [assumption|].
    now inversion Hx.
Qed.

Lemma sort_labels_sorted (l : list string) :
  Sorted (fun a b => String.leb a b = true) (sort_labels l).
Proof.
  induction l as [|x t IH]; simpl; [constructor|]. now apply insert_label_sorted.
Qed.

(** The rows of a frame that carry a label. *)
Definition named (ccaa : list (option string * G)) : list (string * G) :=
  flat_map (fun r => match fst r with
                     | Some name => [(name, snd r)]
                     | None => []
                     end) ccaa.

Lemma named_In (ccaa : list (option string * G)) (name : string) (g : G) :
  In (name, g) (named ccaa) <-> In (Some name, g) ccaa.
Proof.
  unfold named. rewrite in_flat_map. split.
  - intros ([[n|] g'] & Hr & H); simpl in H; [|destruct H].
    destruct H as [H|[]]. now injection H as <- <-.
  - intros H. exists (Some name, g). split; [assumption|now left].
Qed.

Lemma named_group (ccaa : list (option string * G)) (name : string) :
  map snd (filter (fun r => String.eqb (fst r) name) (named ccaa))
  = map snd (filter (fun r => match fst r with
                              | Some n => String.eqb n name
                              | None => false
                              end) ccaa).
Proof.
  unfold named. induction ccaa as [|[[n|] g] t IH]; simpl; [reflexivity| |exact IH].
  destruct (String.eqb n name); simpl; now rewrite IH.
Qed.

(** [dissolve] returns one row for each label that occurs, in the order
    of the labels: no label twice, every label of some row and no other,
    the rows without label left out, and the geometry of a label the union
    of the geometries of the rows that carry it, in their order. *)
Theorem dissolve_one_row_per_label (ccaa : list (option string * G)) :
  NoDup (map fst (dissolve ccaa)) /\
  Sorted (fun a b => String.leb a b = true) (map fst (dissolve ccaa)) /\
  (forall name, In name (map fst (dissolve ccaa))
                <-> exists g, In (Some name, g) ccaa) /\
  (forall name g,
      In (name, g) (dissolve ccaa) ->
      g = unary_union
            (map snd (filter (fun r => match fst r with
                                       | Some n => String.eqb n name
                                       | None => false
                                       end) ccaa))).
Proof.
  unfold dissolve. fold (named ccaa).
  assert (Hfst : map fst
                   (map (fun name =>
                           (name,
                            unary_union
                              (map snd (filter (fun r => String.eqb (fst r) name)
                                          (named ccaa)))))
                      (unique_labels (map fst (named ccaa))))
                 = unique_labels (map fst (named ccaa))).
  { rewrite map_map. simpl. apply map_id. }
  rewrite Hfst. split; [apply unique_labels_NoDup|].
  split; [apply sort_labels_sorted|]. split.
  - intros name. rewrite unique_labels_In, in_map_iff. split.
    + intros ([n g] & Hn & H). simpl in Hn. subst n. exists g. now apply named_In.
    + intros (g & H). exists (name, g). split; [reflexivity|now apply named_In].
  - intros name g H. apply in_map_iff in H as (n & H & _).
    injection H as -> <-. now rewrite named_group.
Qed.

End DissolveFacts.

(** * Script 10: merging the boundary files *)

Module Merge.

Section Files.

Variable G : Type.

(** A frame as read from or written to a file: [crs] is [None] when the
    file declares no reference system, and otherwise holds the EPSG code
    that [crs.to_epsg()] answers, if any. *)
Record Frame : Type := {
  crs : option (option Z);
  columns : list string;
  features : list (Burn.Feature G)
}.

Inductive error : Type :=
| FileNotFoundError (path : string)
| ValueError (path : string)
| NoObjectsToConcatenate
| OSError (path : string).

Inductive outcome (A : Type) : Type :=
| Done (a : A)
| Failed (e : error).

Arguments Done {A} a.
Arguments Failed {A} e.

(** The files: what [os.path.exists] and [gpd.read_file] see. *)
Definition Files : Type := string -> option Frame.

Definition write (fs : Files) (path : string) (gdf : Frame) : Files :=
  fun p => if String.eqb p path then Some gdf else fs p.

(** The reprojection of one geometry to an EPSG code. *)
Variable reproject : Z -> G -> G.

Definition to_crs (gdf : Frame) (epsg : Z) : Frame :=
  {| crs := Some (Some epsg);
     columns := columns gdf;
     features :=
       map (fun f => {| Burn.properties := Burn.properties f;
                        Burn.geometry := reproject epsg (Burn.geometry f) |})
         (features gdf) |}.

Definition same_epsg (code : option Z) (epsg : Z) : bool :=
  match code with
  | Some c => (c =? epsg)%Z
  | None => false
  end.

(** [load_and_to_crs], with [check_exists] inlined. *)
Definition load_and_to_crs (fs : Files) (path : string) (epsg : Z) : outcome Frame :=
  match fs path with
  | None => Failed (FileNotFoundError path)
  | Some gdf =>
      match crs gdf with
      | None => Failed (ValueError path)
      | Some code => if same_epsg code epsg then Done gdf else Done (to_crs gdf epsg)
      end
  end.

(** [sorted(all_cols)] without "geometry", then "geometry". *)
Definition all_cols (gdfs : list Frame) : list string :=
  filter (fun c => negb (String.eqb c "geometry"))
    (Burn.unique_labels (flat_map columns gdfs))
  ++ ["geometry"%string].

(** [g.reindex(columns=all_cols)]: the columns asked for, in their order;
    the cells of a column that the frame did not have are NaN. *)
Definition reindex (cols : list string) (g : Frame) : Frame :=
  {| crs := crs g;
     columns := cols;
     features :=
       map (fun f =>
              {| Burn.properties :=
                   map (fun c => (c, Burn.lookup (Burn.properties f) c))
                     (filter (fun c => negb (String.eqb c "geometry")) cols);
                 Burn.geometry := Burn.geometry f |})
         (features g) |}.

Definition align_columns (gdfs : list Frame) : list Frame :=
  map (reindex (all_cols gdfs)) gdfs.

Fixpoint load_all (fs : Files) (inputs : list string) (epsg : Z)
  : outcome (list Frame) :=
  match inputs with
  | [] => Done []
  | p :: rest =>
      match load_and_to_crs fs p epsg with
      | Failed e => Failed e
      | Done g =>
          match load_all fs rest epsg with
          | Failed e => Failed e
          | Done gs => Done (g :: gs)
          end
      end
  end.

(** [gpd.GeoDataFrame(pd.concat(gdfs, ignore_index=True), crs=...)] on
    frames that have the same columns. *)
Definition concat (gdfs : list Frame) (epsg : Z) : outcome Frame :=
  match gdfs with
  | [] => Failed NoObjectsToConcatenate
  | g :: _ =>
      Done {| crs := Some (Some epsg);
              columns := columns g;
              features := flat_map features gdfs |}
  end.

(** [p[:p.rfind("/") + 1]]: the text up to the last slash, with it. *)
Fixpoint upto_last_slash (p : string) : string :=
  match p with
  | EmptyString => EmptyString
  | String c t =>
      match upto_last_slash t with
      | EmptyString => if Ascii.eqb c "/" then String c EmptyString else EmptyString
      | h => String c h
      end
  end.

Fixpoint all_slashes (s : string) : bool :=
  match s with
  | EmptyString => true
  | String c t => Ascii.eqb c "/" && all_slashes t
  end.

(** [head.rstrip("/")] *)
Fixpoint rstrip_slashes (s : string) : string :=
  match s with
  | EmptyString => EmptyString
  | String c t =>
      match rstrip_slashes t with
      | EmptyString => if Ascii.eqb c "/" then EmptyString else String c EmptyString
      | t' => String c t'
      end
  end.

(** [os.path.dirname(p)] *)
Definition dirname (p : string) : string :=
  let head := upto_last_slash p in
  if all_slashes head then head else rstrip_slashes head.

(** What the operating system answers when asked to create a directory of
    a name that is not empty: nothing when the directory is there
    afterwards, the error otherwise. *)
Variable mkdir : string -> option error.

(** [os.makedirs(name, exist_ok=True)]: the empty name is no directory and
    cannot be created. *)
Definition makedirs (name : string) : option error :=
  if String.eqb name "" then Some (FileNotFoundError name) else mkdir name.

(** [merge_and_export]: the files after the call and its outcome.  The
    output is written once its directory is there. *)
Definition merge_and_export (fs : Files) (inputs : list string) (output : string)
  (epsg : Z) : Files * outcome unit :=
  match load_all fs inputs epsg with
  | Failed e => (fs, Failed e)
  | Done gdfs =>
      match concat (align_columns gdfs) epsg with
      | Failed e => (fs, Failed e)
      | Done merged =>
          match makedirs (dirname output) with
          | Some e => (fs, Failed e)
          | None => (write fs output merged, Done tt)
          end
      end
  end.

(** [main]: the tasks in order, up to the first that fails. *)
Fixpoint main (fs : Files) (tasks : list (list string * string)) (epsg : Z)
  : Files * outcome unit :=
  match tasks with
  | [] => (fs, Done tt)
  | (inputs, output) :: rest =>
      match merge_and_export fs inputs output epsg with
      | (fs', Done _) => main fs' rest epsg
      | (fs', Failed e) => (fs', Failed e)
      end
  end.

End Files.

Arguments crs {G} f.
Arguments columns {G} f.
Arguments features {G} f.
Arguments Done {A} a.
Arguments Failed {A} e.

Definition TARGET_EPSG : Z := 4326.

Definition TASKS : list (list string * string) :=
  [(["./data/geo/recintos_autonomicas_inspire_peninbal_etrs89.shp";
     "./data/geo/recintos_autonomicas_inspire_canarias_regcan95.shp"],
    "./data/geo/output/autonomias.geojson");
   (["./data/geo/recintos_provinciales_inspire_peninbal_etrs89.shp";
     "./data/geo/recintos_provinciales_inspire_canarias_regcan95.shp"],
    "./data/geo/output/provincia.geojson");
   (["./data/geo/recintos_municipales_inspire_peninbal_etrs89.shp";
     "./data/geo/recintos_municipales_inspire_canarias_regcan95.shp"],
    "./data/geo/output/municipios.geojson")]%string.

End Merge.

Section StringOrder.

Lemma string_compare_trans (s1 : string) :
  forall s2 s3,
    String.compare s1 s2 <> Gt -> String.compare s2 s3 <> Gt ->
    String.compare s1 s3 <> Gt.
Proof.
  induction s1 as [|c1 t1 IH]; intros [|c2 t2] [|c3 t3]; simpl; try congruence.
  unfold Ascii.compare.
  destruct (N.compare_spec (N_of_ascii c1) (N_of_ascii c2)) as [E12|L12|G12];
    destruct (N.compare_spec (N_of_ascii c2) (N_of_ascii c3)) as [E23|L23|G23];
    destruct (N.compare_spec (N_of_ascii c1) (N_of_ascii c3)) as [E13|L13|G13];
    try congruence; try lia.
  apply IH.
Qed.

Lemma string_leb_trans (s1 s2 s3 : string) :
  String.leb s1 s2 = true -> String.leb s2 s3 = true -> String.leb s1 s3 = true.
Proof.
  unfold String.leb. intros H1 H2.
  pose proof (string_compare_trans s1 s2 s3) as H.
  destruct (String.compare s1 s2); try discriminate;
    destruct (String.compare s2 s3); try discriminate;
    destruct (String.compare s1 s3); try reflexivity;
    exfalso; apply H; congruence.
Qed.

Lemma insert_label_strongly_sorted (s : string) (l : list string) :
  StronglySorted (fun a b => String.leb a b = true) l ->
  StronglySorted (fun a b => String.leb a b = true) (Burn.insert_label s l).
Proof.
  induction 1 as [|x t Hs IH Hx]; simpl; [repeat constructor|].
  destruct (String.leb s x) eqn:E.
  - constructor; [now constructor|]. constructor; [assumption|].
    eapply Forall_impl; [|exact Hx]. intros b Hb. simpl in Hb.
    eapply string_leb_trans; eauto.
  - constructor; [exact IH|].
    apply (Permutation_Forall (insert_label_perm s t)).
    constructor; [|assumption].
    destruct (String.leb_total s x) as [H|H]; [congruence|assumption].
Qed.

Lemma sort_labels_strongly_sorted (l : list string) :
  StronglySorted (fun a b => String.leb a b = true) (Burn.sort_labels l).
Proof.
  induction l as [|x t IH]; simpl; [constructor|].
  now apply insert_label_strongly_sorted.
Qed.

Lemma StronglySorted_filter {A : Type} (R : A -> A -> Prop) (p : A -> bool)
  (l : list A) :
  StronglySorted R l -> StronglySorted R (filter p l).
Proof.
  induction 1 as [|x t Hs IH Hx]; simpl; [constructor|].
  destruct (p x); [|exact IH]. constructor; [exact IH|].
  apply Forall_forall. intros y Hy. apply filter_In in Hy as [Hy _].
  rewrite Forall_forall in Hx. now apply Hx.
Qed.

End StringOrder.

Section MergeFacts.
Import Merge.

Variable G : Type.
Variable reproject : Z -> G -> G.
Variable mkdir : string -> option error.

Lemma lookup_reindexed (props : list (string * Py.Value)) (cols : list string)
  (c : string) :
  Burn.lookup (map (fun k => (k, Burn.lookup props k)) cols) c
  = if existsb (String.eqb c) cols then Burn.lookup props c else Py.VNaN.
Proof.
  induction cols as [|k t IH]; simpl; [reflexivity|].
  rewrite (String.eqb_sym c k). destruct (String.eqb k c) eqn:E; simpl.
  - apply String.eqb_eq in E. now subst k.
  - exact IH.
Qed.

Lemma all_cols_In (gdfs : list (Frame G)) (c : string) :
  In c (all_cols G gdfs) <->
  c = "geometry"%string \/ exists g, In g gdfs /\ In c (columns g).
Proof.
  unfold all_cols. rewrite in_app_iff, filter_In, unique_labels_In, in_flat_map.
  split.
  - intros [[H _]|[H|[]]]; [now right|left; now subst].
  - intros [->|H]; [right; now left|].
    destruct (String.eqb c "geometry") eqn:E.
    + apply String.eqb_eq in E. right. now left.
    + left. split; [assumption|reflexivity].
Qed.

Lemma front_without_geometry (gdfs : list (Frame G)) :
  ~ In "geometry"%string
      (filter (fun c => negb (String.eqb c "geometry"))
         (Burn.unique_labels (flat_map columns gdfs))).
Proof. intros H. apply filter_In in H as [_ H]. discriminate. Qed.

(** [align_columns] gives every frame the same columns: the columns of all
    the frames, each once, in sorted order, with "geometry" moved to the
    end.  The frames keep their number, their reference system, their
    features and the geometry of each; a cell of a column that the frame
    had keeps its value, and a cell of a column that comes from another
    frame is NaN. *)
Theorem align_columns_same_columns (gdfs : list (Frame G)) :
  (forall g, In g (align_columns G gdfs) -> columns g = all_cols G gdfs) /\
  (exists front,
      all_cols G gdfs = front ++ ["geometry"%string] /\
      ~ In "geometry"%string front /\ NoDup front /\
      StronglySorted (fun a b => String.leb a b = true) front) /\
  (forall c, In c (all_cols G gdfs) <->
             c = "geometry"%string \/ exists g, In g gdfs /\ In c (columns g)) /\
  Forall2 (fun g g' =>
             crs g' = crs g /\
             Forall2 (fun f f' =>
                        Burn.geometry f' = Burn.geometry f /\
                        forall c, c <> "geometry"%string ->
                          Burn.cell f' c
                          = if existsb (String.eqb c) (all_cols G gdfs)
                            then Burn.cell f c else Py.VNaN)
               (features g) (features g'))
    gdfs (align_columns G gdfs).
Proof.
  split; [|split; [|split]].
  - intros g Hg. unfold align_columns in Hg.
    apply in_map_iff in Hg as (g0 & <- & _). reflexivity.
  - eexists. split; [reflexivity|]. split; [apply front_without_geometry|].
    split.
    + apply NoDup_filter, unique_labels_NoDup.
    + apply StronglySorted_filter. apply sort_labels_strongly_sorted.
  - apply all_cols_In.
  - unfold align_columns. generalize (all_cols G gdfs) as cols. intros cols.
    induction gdfs as [|g t IH]; simpl; constructor; [|exact IH].
    split; [reflexivity|]. simpl.
    induction (features g) as [|f fs IHf]; simpl; constructor; [|exact IHf].
    split; [reflexivity|]. intros c Hc. unfold Burn.cell. simpl.
    rewrite lookup_reindexed.
    assert (E : existsb (String.eqb c)
                  (filter (fun c0 => negb (String.eqb c0 "geometry")) cols)
                = existsb (String.eqb c) cols).
    { apply String.eqb_neq in Hc. clear -Hc.
      induction cols as [|k t IH]; simpl; [reflexivity|].
      destruct (String.eqb k "geometry") eqn:Ek; simpl.
      - apply String.eqb_eq in Ek. subst k. now rewrite Hc.
      - now rewrite IH. }
    now rewrite E.
Qed.

Lemma load_all_Done (fs : Files G) (inputs : list string) (epsg : Z)
  (gdfs : list (Frame G)) :
  load_all G reproject fs inputs epsg = Done gdfs <->
  Forall2 (fun p g => load_and_to_crs G reproject fs p epsg = Done g) inputs gdfs.
Proof.
  revert gdfs. induction inputs as [|p t IH]; intros gdfs; simpl.
  - split; intros H; [injection H as <-; constructor|now inversion H].
  - split; intros H.
    + destruct (load_and_to_crs G reproject fs p epsg) as [g|e] eqn:Ep; [|discriminate].
      destruct (load_all G reproject fs t epsg) as [gs|e] eqn:Et; [|discriminate].
      injection H as <-. constructor; [assumption|]. now apply IH.
    + inversion H as [|? g ? gs Hp Ht]; subst. rewrite Hp.
      apply IH in Ht. now rewrite Ht.
Qed.

(** The first input that cannot be loaded, with the error it raises. *)
Fixpoint first_failure (fs : Files G) (inputs : list string) : option (error) :=
  match inputs with
  | [] => None
  | p :: rest =>
      match fs p with
      | None => Some (FileNotFoundError p)
      | Some gdf =>
          match crs gdf with
          | None => Some (ValueError p)
          | Some _ => first_failure fs rest
          end
      end
  end.

Lemma load_all_first_failure (fs : Files G) (inputs : list string) (epsg : Z) :
  match first_failure fs inputs with
  | Some e => load_all G reproject fs inputs epsg = Failed e
  | None => exists gdfs,
      load_all G reproject fs inputs epsg = Done gdfs /\
      List.length gdfs = List.length inputs /\
      Forall2 (fun p g =>
                 exists g0, fs p = Some g0 /\
                            List.length (features g) = List.length (features g0))
        inputs gdfs
  end.
Proof.
  induction inputs as [|p t IH]; simpl.
  - exists []. repeat split. constructor.
  - unfold load_and_to_crs.
    destruct (fs p) as [g0|] eqn:Ep; [|reflexivity].
    destruct (crs g0) as [code|] eqn:Ec; [|reflexivity].
    destruct (first_failure fs t) as [e|].
    + rewrite IH. now destruct (same_epsg code epsg).
    + destruct IH as (gs & -> & Hlen & Hall).
      destruct (same_epsg code epsg); eexists; (split; [reflexivity|]);
        (split; [simpl; now rewrite Hlen|]); constructor; try assumption;
        exists g0; (split; [exact Ep|]); simpl; try reflexivity.
      now rewrite length_map.
Qed.

Lemma features_align (gdfs : list (Frame G)) :
  List.length (flat_map features (align_columns G gdfs))
  = fold_right (fun g n => (List.length (features g) + n)%nat) 0%nat gdfs.
Proof.
  unfold align_columns. generalize (all_cols G gdfs) as cols. intros cols.
  induction gdfs as [|g t IH]; simpl; [reflexivity|].
  now rewrite length_app, length_map, IH.
Qed.

(** [merge_and_export] writes its output only when every input loads and
    the directory of the output is there or can be made.  When an input is
    missing or declares no reference system, the call raises the error of
    the first such input, [FileNotFoundError] or [ValueError], and leaves
    every file as it was.  Otherwise, with at least one input: when the
    directory cannot be made the call raises that error and writes
    nothing, which is what happens for an output without a directory part,
    whose directory is the empty name; when it can, the call writes under
    [output] a frame in the target reference system whose columns are the
    aligned columns and whose features are as many as those of the inputs
    together, and changes no other file. *)
Theorem merge_and_export_all_or_nothing (fs : Files G) (inputs : list string)
  (output : string) (epsg : Z) :
  (forall e, first_failure fs inputs = Some e ->
             merge_and_export G reproject mkdir fs inputs output epsg
             = (fs, Failed e)) /\
  (first_failure fs inputs = None -> inputs <> [] ->
   (forall e, makedirs mkdir (dirname output) = Some e ->
              merge_and_export G reproject mkdir fs inputs output epsg
              = (fs, Failed e)) /\
   (dirname output = ""%string ->
    merge_and_export G reproject mkdir fs inputs output epsg
    = (fs, Failed (FileNotFoundError ""))) /\
   (makedirs mkdir (dirname output) = None ->
    exists gdfs merged,
      Forall2 (fun p g => load_and_to_crs G reproject fs p epsg = Done g)
        inputs gdfs /\
      merge_and_export G reproject mkdir fs inputs output epsg
        = (write G fs output merged, Done tt) /\
      write G fs output merged output = Some merged /\
      (forall p, p <> output -> write G fs output merged p = fs p) /\
      crs merged = Some (Some epsg) /\
      columns merged = all_cols G gdfs /\
      List.length (features merged)
      = fold_right (fun g n => (List.length (features g) + n)%nat) 0%nat gdfs /\
      Forall2 (fun p g =>
                 exists g0, fs p = Some g0 /\
                            List.length (features g) = List.length (features g0))
        inputs gdfs)).
Proof.
  pose proof (load_all_first_failure fs inputs epsg) as H.
  unfold merge_and_export. split.
  - intros e He. rewrite He in H. now rewrite H.
  - intros Hn Hne. rewrite Hn in H. destruct H as (gdfs & Hl & Hlen & Hall).
    rewrite Hl. destruct gdfs as [|g gs].
    { destruct inputs; [congruence|discriminate]. }
    cbn [align_columns map concat]. split; [|split].
    + intros e He. now rewrite He.
    + intros Hd. rewrite Hd. reflexivity.
    + intros Hd. rewrite Hd.
      eexists (g :: gs), _. split; [now apply load_all_Done|].
      split; [reflexivity|]. split.
      { unfold write. now rewrite String.eqb_refl. }
      split.
      { intros p Hp. unfold write. apply String.eqb_neq in Hp. now rewrite Hp. }
      split; [reflexivity|]. split; [reflexivity|]. split; [|exact Hall].
      cbn [features]. apply (features_align (g :: gs)).
Qed.

Lemma merge_and_export_frame (fs fs' : Files G) (inputs : list string)
  (output : string) (epsg : Z) (r : outcome unit) :
  merge_and_export G reproject mkdir fs inputs output epsg = (fs', r) ->
  forall p, p <> output -> fs' p = fs p.
Proof.
  unfold merge_and_export.
  destruct (load_all G reproject fs inputs epsg) as [gdfs|e].
  - destruct (concat G (align_columns G gdfs) epsg) as [merged|e];
      [destruct (makedirs mkdir (dirname output)) as [e|]|];
      intros H; injection H as <- _; try reflexivity.
    intros p Hp. unfold write. apply String.eqb_neq in Hp. now rewrite Hp.
  - intros H. injection H as <- _. reflexivity.
Qed.

(** [main] touches no file but the outputs of its tasks, whether it ends
    or stops at a task that fails; and when the first task fails, nothing
    at all is written. *)
Theorem main_writes_only_outputs (tasks : list (list string * string)) (epsg : Z) :
  forall (fs fs' : Files G) (r : outcome unit),
    main G reproject mkdir fs tasks epsg = (fs', r) ->
    (forall p, ~ In p (map snd tasks) -> fs' p = fs p) /\
    (forall inputs output rest e,
        tasks = (inputs, output) :: rest ->
        first_failure fs inputs = Some e ->
        fs' = fs /\ r = Failed e).
Proof.
  induction tasks as [|[inputs output] rest IH]; intros fs fs' r H; simpl in H.
  - injection H as <- <-. split; [reflexivity|]. intros; discriminate.
  - split.
    + intros p Hp. simpl in Hp.
      destruct (merge_and_export G reproject mkdir fs inputs output epsg)
        as [fs1 [u|e]] eqn:Em.
      * destruct (IH _ _ _ H) as [Hrest _].
        rewrite Hrest by tauto.
        apply (merge_and_export_frame _ _ _ _ _ _ Em). intros E. apply Hp. now left.
      * injection H as <- _.
        apply (merge_and_export_frame _ _ _ _ _ _ Em). intros E. apply Hp. now left.
    + intros inputs' output' rest' e Ht Hf. injection Ht as <- <- <-.
      pose proof (load_all_first_failure fs inputs epsg) as Hl. rewrite Hf in Hl.
      unfold merge_and_export in H. rewrite Hl in H. now injection H as <- <-.
Qed.

End MergeFacts.

(** * Examples for the further properties *)

Module MoreSamples.
Import Py Burn.

(** [s.strip()] for the ASCII space. *)
Fixpoint lstrip (s : string) : string :=
  match s with
  | String c t => if Ascii.eqb c " " then lstrip t else s
  | EmptyString => EmptyString
  end.

Fixpoint rev_string (s acc : string) : string :=
  match s with
  | EmptyString => acc
  | String c t => rev_string t (String c acc)
  end.

Definition strip (s : string) : string :=
  rev_string (lstrip (rev_string (lstrip s) EmptyString)) EmptyString.

(** Two boundaries of script 13, already labelled. *)
Definition north_west : list (string * Raster.t) :=
  [(Evolution.col "Galicia", Raster.rect 0 0 2 4);
   (Evolution.col "Asturias", Raster.rect 2 0 4 4)].

(** Two shapefiles with different columns, one without reference system. *)
Definition peninsula : Merge.Frame unit :=
  {| Merge.crs := Some (Some 25830%Z);
     Merge.columns := ["NAMEUNIT"; "geometry"; "CODNUT"]%string;
     Merge.features :=
       [{| properties := [("NAMEUNIT", VStr "Galicia"); ("CODNUT", VStr "ES11")]%string;
           geometry := tt |};
        {| properties := [("NAMEUNIT", VStr "Aragón"); ("CODNUT", VStr "ES24")]%string;
           geometry := tt |}] |}.

Definition canarias : Merge.Frame unit :=
  {| Merge.crs := Some (Some 4326%Z);
     Merge.columns := ["NAMEUNIT"; "geometry"; "ISLA"]%string;
     Merge.features :=
       [{| properties := [("NAMEUNIT", VStr "Canarias"); ("ISLA", VStr "Tenerife")]%string;
           geometry := tt |}] |}.

Definition sin_crs : Merge.Frame unit :=
  {| Merge.crs := None; Merge.columns := ["geometry"]%string; Merge.features := [] |}.

Definition disk : Merge.Files unit :=
  fun p =>
    if String.eqb p "peninsula.shp" then Some peninsula
    else if String.eqb p "canarias.shp" then Some canarias
    else if String.eqb p "sin_crs.shp" then Some sin_crs
    else None.

(** A file system in which every directory is there or can be made. *)
Definition any_directory : string -> option Merge.error := fun _ => None.

End MoreSamples.

Section MoreExamples.
Import Py Burn MoreSamples.

Example strip_sample : strip "  Euskadi " = "Euskadi"%string.
Proof. reflexivity. Qed.

Example map_bilingual :
  Evolution.map_nameunit_to_label strip "Nafarroa / Navarra"
    = Some (Evolution.col "Navarra") /\
  Evolution.map_nameunit_to_label strip "Ciudad Autónoma de Ceuta" = None /\
  Evolution.map_nameunit_to_label strip "Gibraltar" = None.
Proof. repeat split; vm_compute; reflexivity. Qed.

Lemma compute_area_ha_trusts_or_measures_witness :
  exists areas,
    AreaMeasurer.compute_area_ha Raster.t Raster.area (fun _ => Raise ValueError)
      FireSamples.fires_with_column "area_ha" = Ok areas /\
    Forall (fun a => Pandas.isna a = false) areas.
Proof.
  apply (compute_area_ha_trusts_or_measures Raster.t Raster.area
           (fun _ => Raise ValueError) FireSamples.fires_with_column "area_ha").
  repeat constructor.
Defined.

Example compute_area_ha_sample :
  AreaMeasurer.compute_area_ha Raster.t Raster.area (fun _ => Raise ValueError)
    FireSamples.fires_with_column "area_ha"
  = Ok [Pandas.Fin 45; Pandas.Fin (40000 # 10000); Pandas.Fin 12].
Proof. vm_compute. reflexivity. Qed.

Lemma compute_year_row_witness :
  sum (map snd (Evolution.compute_year north_west [Raster.rect 1 1 3 2]))
  == sum (map (fun e =>
                 sum (map (fun b =>
                             area (intersection (to_crs (snd b)) (to_crs e)) / 10000)
                        north_west))
            [Raster.rect 1 1 3 2]).
Proof.
  apply (compute_year_row north_west [Raster.rect 1 1 3 2]).
  intros b [<-|[<-|[]]]; apply member_In; vm_compute; reflexivity.
Defined.

Lemma filter_fires_min_ha_composes_witness :
  filter_fires_min_ha_13
    {| columns := columns FireSamples.fires_with_none;
       rows := filter (fun r => at_least 10 (cell r "area_ha"))
                 (rows FireSamples.fires_with_none) |} 30
  = filter_fires_min_ha_13 FireSamples.fires_with_none 30.
Proof.
  apply (filter_fires_min_ha_composes "area_ha_calc"
           (fun K => @filter_fires_min_ha_13 Raster.t K)
           FireSamples.fires_with_none _ 10 30).
  - right. left. reflexivity.
  - vm_compute. reflexivity.
  - discriminate.
Defined.

Lemma table_row_per_boundary_witness :
  List.length (TableSamples.table_of TableSamples.side_by_side [Raster.rect 1 1 3 2])
  = List.length TableSamples.side_by_side.
Proof.
  apply (table_row_per_boundary TableSamples.side_by_side [Raster.rect 1 1 3 2]).
  apply stable_sort_desc_admitted.
Defined.

Example align_sample :
  Merge.all_cols unit [peninsula; canarias]
  = ["CODNUT"; "ISLA"; "NAMEUNIT"; "geometry"]%string.
Proof. vm_compute. reflexivity. Qed.

Example dirname_samples :
  Merge.dirname "./data/geo/output/autonomias.geojson" = "./data/geo/output"%string /\
  Merge.dirname "salida.geojson" = ""%string /\
  Merge.dirname "/salida.geojson" = "/"%string /\
  Merge.dirname "out//salida.geojson" = "out"%string.
Proof. repeat split. Qed.

Lemma merge_and_export_all_or_nothing_witness :
  Merge.merge_and_export unit (fun _ g => g) any_directory disk
    ["peninsula.shp"; "sin_crs.shp"; "canarias.shp"]%string "out/salida.geojson" 4326
  = (disk, Merge.Failed (Merge.ValueError "sin_crs.shp")).
Proof.
  apply (proj1 (merge_and_export_all_or_nothing unit (fun _ g => g) any_directory
                  disk ["peninsula.shp"; "sin_crs.shp"; "canarias.shp"]%string
                  "out/salida.geojson"%string 4326)).
  reflexivity.
Defined.

Example merge_two_files :
  exists merged,
    fst (Merge.merge_and_export unit (fun _ g => g) any_directory disk
           ["peninsula.shp"; "canarias.shp"]%string "out/salida.geojson" 4326)
      "out/salida.geojson"%string = Some merged /\
    List.length (Merge.features merged) = 3%nat /\
    Merge.crs merged = Some (Some 4326%Z).
Proof. eexists. repeat split; vm_compute; reflexivity. Qed.

(** An output without a directory part: [os.makedirs("")] raises and
    nothing is written. *)
Example merge_without_directory :
  Merge.merge_and_export unit (fun _ g => g) any_directory disk
    ["peninsula.shp"; "canarias.shp"]%string "salida.geojson" 4326
  = (disk, Merge.Failed (Merge.FileNotFoundError "")).
Proof. reflexivity. Qed.

Lemma main_writes_only_outputs_witness :
  fst (Merge.main unit (fun _ g => g) any_directory disk
         [(["peninsula.shp"; "canarias.shp"], "out/salida.geojson");
          (["falta.shp"], "out/otra.geojson")]%string 4326) "peninsula.shp"%string
  = disk "peninsula.shp"%string.
Proof.
  apply (main_writes_only_outputs unit (fun _ g => g) any_directory
           [(["peninsula.shp"; "canarias.shp"], "out/salida.geojson");
            (["falta.shp"], "out/otra.geojson")]%string 4326 disk _
           (snd (Merge.main unit (fun _ g => g) any_directory disk
                   [(["peninsula.shp"; "canarias.shp"], "out/salida.geojson");
                    (["falta.shp"], "out/otra.geojson")]%string 4326))).
  - apply surjective_pairing.
  - simpl. intros [H|[H|[]]]; discriminate.
Defined.

End MoreExamples.

(** * The parsing of the date *)

Section ParseFacts.
Import Py ColorRules.

Variable to_datetime : Value -> result Timestamp.

(** [parse_firedate] answers a date only for a value that pandas reads as
    a timestamp, and then that very timestamp; it answers [None], without
    asking pandas, for [None] and for the empty text, and [None] again for
    what pandas reads as [NaT] or rejects with an [Exception].  It lets
    through no exception that derives from [Exception]. *)
Theorem parse_firedate_cases (val : Value) :
  (forall dt,
      parse_firedate to_datetime val = Ok (Some dt) <->
      is_None_or_empty val = false /\ to_datetime val = Ok (TS dt)) /\
  (parse_firedate to_datetime val = Ok None <->
   is_None_or_empty val = true \/ to_datetime val = Ok NaT \/
   exists e, to_datetime val = Raise e /\ is_Exception e = true) /\
  (forall e, parse_firedate to_datetime val = Raise e ->
             is_Exception e = false /\ to_datetime val = Raise e).
Proof.
  unfold parse_firedate.
  destruct (is_None_or_empty val) eqn:Ev.
  - split; [|split].
    + intros dt. split; [discriminate|intros [H _]; discriminate].
    + split; auto.
    + discriminate.
  - destruct (to_datetime val) as [[|dt']|e'] eqn:Et; simpl.
    + split; [|split].
      * intros dt. split; [discriminate|intros [_ H]; discriminate].
      * split; auto.
      * discriminate.
    + split; [|split].
      * intros dt. split; intros H.
        -- injection H as <-. auto.
        -- destruct H as [_ H]. injection H as <-. reflexivity.
      * split; [discriminate|].
        intros [H|[H|(e & H & _)]]; discriminate.
      * discriminate.
    + destruct (is_Exception e') eqn:Ee.
      * split; [|split].
        -- intros dt. split; [discriminate|intros [_ H]; discriminate].
        -- split; [|reflexivity]. intros _. right. right. eauto.
        -- discriminate.
      * split; [|split].
        -- intros dt. split; [discriminate|intros [_ H]; discriminate].
        -- split; [discriminate|].
           intros [H|[H|(e & H & He)]]; try discriminate.
           injection H as <-. congruence.
        -- intros e H. injection H as <-. auto.
Qed.

End ParseFacts.
